(** * Order validation and atomic commit of the restaurant backend

    A shallow embedding of the order engine of the server:
    - [server/init_db.sql]: the tables and the seed rows;
    - [server/dao/dao-ingredients.js], [dao-sizes.js], [dao-basedishes.js]:
      the catalog queries;
    - [server/dao/dao-orders.js]: [createOrder] and [deleteOrder];
    - [server/index.js]: the handlers of [POST /api/orders] and
      [DELETE /api/orders/:id].

    The database is one SQLite connection shared by every request.  It is
    modelled as the tables the connection sees, the snapshot taken by
    [BEGIN TRANSACTION] (restored by [ROLLBACK], dropped by [COMMIT]) and a
    plan of storage faults, one flag per statement sent to the connection.
    The callback chains of the DAO are written as the matches on [err] they
    are, their index loops as recursion on the items still to come; the
    [async] handlers are written in a small monad of early answers.

    Ids and counts are integers.  [REAL] columns are exact rationals: the
    server stores them, returns them and compares [total] with 0, it does no
    arithmetic on them.  The session checks of the routes ([isLoggedIn],
    [isTotp]) are outside: the handlers take the user id of the session. *)

From Stdlib Require Import ZArith QArith List ListDec String Bool Lia DecimalString.
From Stdlib Require Import Sorted Permutation.
Import ListNotations.
Local Open Scope string_scope.
Local Open Scope Z_scope.

Set Implicit Arguments.

(** ** Tables of [init_db.sql] *)

Record Dish := mkDish
  { dish_id : Z;
    dish_name : string }.

Record Size := mkSize
  { size_id : Z;
    size_name : string;
    size_price : Q;
    max_ingredients : Z }.

(** [availability] is a nullable INTEGER: [None] is NULL, an unlimited
    ingredient. *)
Record Ingredient := mkIngredient
  { ing_id : Z;
    ing_name : string;
    ing_price : Q;
    availability : option Z }.

Record Order := mkOrder
  { order_id : Z;
    user_id : Z;
    order_dish_id : Z;
    order_size_id : Z;
    total : Q }.

(** Rows of the two-column tables are pairs: [(ingredient_id, depends_on_id)],
    [(ingredient1_id, ingredient2_id)] and [(order_id, ingredient_id)].
    [orders_seq] is the [sqlite_sequence] entry that AUTOINCREMENT keeps for
    [orders]. *)
Record Tables := mkTables
  { basedishes : list Dish;
    sizes : list Size;
    ingredients : list Ingredient;
    ingredient_dependencies : list (Z * Z);
    ingredient_incompatibilities : list (Z * Z);
    orders : list Order;
    order_ingredients : list (Z * Z);
    orders_seq : Z }.

Definition set_ingredients (t : Tables) (l : list Ingredient) : Tables :=
  mkTables (basedishes t) (sizes t) l (ingredient_dependencies t)
    (ingredient_incompatibilities t) (orders t) (order_ingredients t)
    (orders_seq t).

Definition set_orders (t : Tables) (l : list Order) (seq : Z) : Tables :=
  mkTables (basedishes t) (sizes t) (ingredients t) (ingredient_dependencies t)
    (ingredient_incompatibilities t) l (order_ingredients t) seq.

Definition set_order_ingredients (t : Tables) (l : list (Z * Z)) : Tables :=
  mkTables (basedishes t) (sizes t) (ingredients t) (ingredient_dependencies t)
    (ingredient_incompatibilities t) (orders t) l (orders_seq t).

Definition pair_eqb (p q : Z * Z) : bool :=
  (fst p =? fst q) && (snd p =? snd q).

(** ** The connection *)

Inductive SqlError :=
| SQLITE_IOERR        (* a storage fault of the plan *)
| SQLITE_CONSTRAINT   (* a PRIMARY KEY violation *)
| SQLITE_ERROR.       (* BEGIN inside a transaction, COMMIT outside one *)

Record Store := mkStore
  { live : Tables;
    saved : option Tables;
    faults : list bool }.

(** What a callback of [db.run], [db.get] or [db.all] receives: [err] or the
    result, and the connection afterwards. *)
Definition Sql (A : Type) : Type := Store -> (SqlError + A) * Store.

(** Every statement takes the next flag of the fault plan; an exhausted plan
    has no fault left. *)
Definition next_fault (s : Store) : bool * Store :=
  match faults s with
  | [] => (false, s)
  | b :: fs => (b, mkStore (live s) (saved s) fs)
  end.

Definition statement (A : Type) (f : Tables -> SqlError + (A * Tables)) : Sql A :=
  fun s =>
    let (b, s1) := next_fault s in
    if b then (inl SQLITE_IOERR, s1)
    else match f (live s1) with
         | inl e => (inl e, s1)
         | inr (a, t) => (inr a, mkStore t (saved s1) (faults s1))
         end.

Definition query (A : Type) (f : Tables -> A) : Sql A :=
  statement (fun t => inr (f t, t)).

Definition BEGIN_TRANSACTION : Sql unit :=
  fun s =>
    let (b, s1) := next_fault s in
    if b then (inl SQLITE_IOERR, s1)
    else match saved s1 with
         | Some _ => (inl SQLITE_ERROR, s1)
         | None => (inr tt, mkStore (live s1) (Some (live s1)) (faults s1))
         end.

Definition COMMIT : Sql unit :=
  fun s =>
    let (b, s1) := next_fault s in
    if b then (inl SQLITE_IOERR, s1)
    else match saved s1 with
         | Some _ => (inr tt, mkStore (live s1) None (faults s1))
         | None => (inl SQLITE_ERROR, s1)
         end.

(** [db.run('ROLLBACK')] is sent without a callback: its outcome is not
    looked at. *)
Definition ROLLBACK (s : Store) : Store :=
  match saved s with
  | Some t => mkStore t None (faults s)
  | None => s
  end.

(** ** Statements of the DAO modules *)

(** [SELECT id, name FROM basedishes WHERE id = ?] with [db.get]. *)
Definition getDishById (dishId : Z) : Sql (option Dish) :=
  query (fun t => find (fun d => dish_id d =? dishId) (basedishes t)).

(** [SELECT * FROM sizes WHERE id = ?] with [db.get]. *)
Definition getSizeById (id : Z) : Sql (option Size) :=
  query (fun t => find (fun z => size_id z =? id) (sizes t)).

Definition includes (ids : list Z) (id : Z) : bool :=
  existsb (Z.eqb id) ids.

(** [SELECT * FROM ingredients WHERE id IN (...)]; an empty id list resolves
    to [[]] without a statement. *)
Definition getIngredientsByIds (ingredientIds : list Z) : Sql (list Ingredient) :=
  match ingredientIds with
  | [] => fun s => (inr [], s)
  | _ => query (fun t => filter (fun r => includes ingredientIds (ing_id r))
                           (ingredients t))
  end.

(** The three tables of pairs have the composite primary key of their two
    columns.  A query [WHERE first = ?] on one of them is answered from the
    index of that key: the rows come in ascending order of the second
    column, whatever the order they were inserted in. *)
Fixpoint insert_ascending (x : Z) (l : list Z) : list Z :=
  match l with
  | [] => [x]
  | y :: l' => if x <=? y then x :: l else y :: insert_ascending x l'
  end.

Definition ascending (l : list Z) : list Z := fold_right insert_ascending [] l.

Definition select_second (key : Z) (rows : list (Z * Z)) : list Z :=
  ascending (map snd (filter (fun r => fst r =? key) rows)).

(** [SELECT depends_on_id FROM ingredient_dependencies WHERE ingredient_id = ?] *)
Definition getIngredientDependencies (ingredientId : Z) : Sql (list Z) :=
  query (fun t => select_second ingredientId (ingredient_dependencies t)).

(** [SELECT ingredient2_id FROM ingredient_incompatibilities
     WHERE ingredient1_id = ?] *)
Definition getIngredientIncompatibilities (ingredientId : Z) : Sql (list Z) :=
  query (fun t => select_second ingredientId (ingredient_incompatibilities t)).

(** The row id AUTOINCREMENT gives: one more than the largest id the table
    ever held. *)
Definition max_order_id (l : list Order) : Z :=
  fold_right (fun o m => Z.max (order_id o) m) 0 l.

Definition next_order_id (t : Tables) : Z :=
  Z.max (orders_seq t) (max_order_id (orders t)) + 1.

(** [INSERT INTO orders (user_id, dish_id, size_id, total) VALUES (?, ?, ?, ?)];
    the result is [this.lastID]. *)
Definition insert_order (user dishId sizeId : Z) (tot : Q) : Sql Z :=
  statement (fun t =>
    let id := next_order_id t in
    inr (id, set_orders t (orders t ++ [mkOrder id user dishId sizeId tot]) id)).

(** [INSERT INTO order_ingredients (order_id, ingredient_id) VALUES (?, ?)],
    refused when the pair is already a row (the primary key).  Foreign keys
    are declared but the connection never turns their enforcement on. *)
Definition insert_order_ingredient (orderId ingId : Z) : Sql unit :=
  statement (fun t =>
    if existsb (pair_eqb (orderId, ingId)) (order_ingredients t)
    then inl SQLITE_CONSTRAINT
    else inr (tt, set_order_ingredients t
                    (order_ingredients t ++ [(orderId, ingId)]))).

Definition reserve_row (ingId : Z) (r : Ingredient) : Ingredient :=
  match availability r with
  | Some a =>
      if (ing_id r =? ingId) && (a >? 0)
      then mkIngredient (ing_id r) (ing_name r) (ing_price r) (Some (a - 1))
      else r
  | None => r
  end.

(** [UPDATE ingredients SET availability = availability - 1
     WHERE id = ? AND availability IS NOT NULL AND availability > 0] *)
Definition decrement_availability (ingId : Z) : Sql unit :=
  statement (fun t =>
    inr (tt, set_ingredients t (map (reserve_row ingId) (ingredients t)))).

Definition release_row (ingId : Z) (r : Ingredient) : Ingredient :=
  match availability r with
  | Some a =>
      if ing_id r =? ingId
      then mkIngredient (ing_id r) (ing_name r) (ing_price r) (Some (a + 1))
      else r
  | None => r
  end.

(** [UPDATE ingredients SET availability = availability + 1
     WHERE id = ? AND availability IS NOT NULL] *)
Definition increment_availability (ingId : Z) : Sql unit :=
  statement (fun t =>
    inr (tt, set_ingredients t (map (release_row ingId) (ingredients t)))).

(** [SELECT ingredient_id FROM order_ingredients WHERE order_id = ?] *)
Definition select_order_ingredients (orderId : Z) : Sql (list Z) :=
  query (fun t => select_second orderId (order_ingredients t)).

(** [DELETE FROM order_ingredients WHERE order_id = ?] *)
Definition delete_order_ingredients (orderId : Z) : Sql unit :=
  statement (fun t =>
    inr (tt, set_order_ingredients t
               (filter (fun r => negb (fst r =? orderId)) (order_ingredients t)))).

Definition order_matches (orderId userId : Z) (o : Order) : bool :=
  (order_id o =? orderId) && (user_id o =? userId).

(** [DELETE FROM orders WHERE id = ? AND user_id = ?]; the result is
    [this.changes]. *)
Definition delete_order_row (orderId userId : Z) : Sql Z :=
  statement (fun t =>
    let hit := order_matches orderId userId in
    inr (Z.of_nat (List.length (filter hit (orders t))),
         set_orders t (filter (fun o => negb (hit o)) (orders t)) (orders_seq t))).

(** ** [dao-orders.js] *)

(** The object a DAO promise rejects with: [{ error: '...' + err.message }]. *)
Inductive DaoError :=
| Failed_to_start_transaction (e : SqlError)
| Failed_to_create_order (e : SqlError)
| Failed_to_commit_order (e : SqlError)
| Failed_to_add_ingredients (e : SqlError)
| Failed_to_update_availability (e : SqlError)
| Failed_to_get_order_ingredients
| Failed_to_restore_ingredient_availability
| Failed_to_delete_order_ingredients
| Failed_to_delete_order
| Failed_to_commit_deletion.

Inductive Settled (A : Type) :=
| Resolved (a : A)
| Rejected (e : DaoError).
Arguments Rejected {A} e.

(** The body of a [POST /api/orders] request after [order.user_id] is set.
    Each element of [ingredients] stands for the [id] of a request element,
    the only field of it the server reads. *)
Record OrderRequest := mkRequest
  { req_user_id : Z;
    dishId : Z;
    sizeId : Z;
    req_ingredients : list Z;
    req_total : Q }.

(** [processNextIngredient]: the ingredients from [currentIndex] on. *)
Fixpoint processNextIngredient (orderId : Z) (rest : list Z) (s : Store)
  : Settled Z * Store :=
  match rest with
  | [] =>
      match COMMIT s with
      | (inl e, s1) => (Rejected (Failed_to_commit_order e), ROLLBACK s1)
      | (inr _, s1) => (Resolved orderId, s1)
      end
  | ing :: rest' =>
      match insert_order_ingredient orderId ing s with
      | (inl e, s1) => (Rejected (Failed_to_add_ingredients e), ROLLBACK s1)
      | (inr _, s1) =>
          match decrement_availability ing s1 with
          | (inl e, s2) =>
              (Rejected (Failed_to_update_availability e), ROLLBACK s2)
          | (inr _, s2) => processNextIngredient orderId rest' s2
          end
      end
  end.

Definition createOrder (order : OrderRequest) (s : Store) : Settled Z * Store :=
  match BEGIN_TRANSACTION s with
  | (inl e, s1) => (Rejected (Failed_to_start_transaction e), s1)
  | (inr _, s1) =>
      match insert_order (req_user_id order) (dishId order) (sizeId order)
              (req_total order) s1 with
      | (inl e, s2) => (Rejected (Failed_to_create_order e), ROLLBACK s2)
      | (inr orderId, s2) =>
          match req_ingredients order with
          | [] =>
              match COMMIT s2 with
              | (inl e, s3) => (Rejected (Failed_to_commit_order e), ROLLBACK s3)
              | (inr _, s3) => (Resolved orderId, s3)
              end
          | _ => processNextIngredient orderId (req_ingredients order) s2
          end
      end
  end.

(** [processNextRestore]: the rows of [ingRows] from [currentIndex] on. *)
Fixpoint processNextRestore (userId orderId : Z) (rest : list Z) (s : Store)
  : Settled Z * Store :=
  match rest with
  | [] =>
      match delete_order_ingredients orderId s with
      | (inl _, s1) => (Rejected Failed_to_delete_order_ingredients, ROLLBACK s1)
      | (inr _, s1) =>
          match delete_order_row orderId userId s1 with
          | (inl _, s2) => (Rejected Failed_to_delete_order, ROLLBACK s2)
          | (inr changes, s2) =>
              match COMMIT s2 with
              | (inl _, s3) => (Rejected Failed_to_commit_deletion, ROLLBACK s3)
              | (inr _, s3) => (Resolved changes, s3)
              end
          end
      end
  | ingredient_id :: rest' =>
      match increment_availability ingredient_id s with
      | (inl _, s1) =>
          (Rejected Failed_to_restore_ingredient_availability, ROLLBACK s1)
      | (inr _, s1) => processNextRestore userId orderId rest' s1
      end
  end.

Definition deleteOrder (userId orderId : Z) (s : Store) : Settled Z * Store :=
  match BEGIN_TRANSACTION s with
  | (inl e, s1) => (Rejected (Failed_to_start_transaction e), s1)
  | (inr _, s1) =>
      match select_order_ingredients orderId s1 with
      | (inl _, s2) => (Rejected Failed_to_get_order_ingredients, ROLLBACK s2)
      | (inr ingRows, s2) => processNextRestore userId orderId ingRows s2
      end
  end.

(** ** [index.js]: [POST /api/orders] *)

(** The reasons of a 400 answer of the validation, with the data their
    messages are built from. *)
Inductive Violation :=
| Invalid_dish_selected
| Invalid_size_selected
| Ingredient_not_found (id : Z)
| Not_available (name : string)
| Size_limit (sizeName : string) (limit : Z)
| Requires (ingredientName reqName : string)
| Incompatible_with (ingredientName incompName : string).

Definition show (z : Z) : string := NilEmpty.string_of_int (Z.to_int z).

Definition message (v : Violation) : string :=
  match v with
  | Invalid_dish_selected => "Invalid dish selected"
  | Invalid_size_selected => "Invalid size selected"
  | Ingredient_not_found id => "Ingredient with id " ++ show id ++ " not found"
  | Not_available name => name ++ " is not available"
  | Size_limit sizeName limit =>
      sizeName ++ " dishes can only have up to " ++ show limit ++ " ingredients"
  | Requires ingredientName reqName => ingredientName ++ " requires " ++ reqName
  | Incompatible_with ingredientName incompName =>
      ingredientName ++ " is incompatible with " ++ incompName
  end.

Inductive ErrorBody :=
| Invalid (v : Violation)     (* [{ error: message v }] *)
| Dao (e : DaoError).         (* [{ error: err.error }] *)

Inductive Response :=
| Status422
| Status400 (error : ErrorBody)
| Status200 (id : Z)
| Status503.

(** The [async] handler: a step either answers (a [return res...], or a
    rejected [await] caught at the end) or goes on with a value. *)
Definition Handler (A : Type) : Type := Store -> (Response + A) * Store.

Definition ret (A : Type) (a : A) : Handler A := fun s => (inr a, s).

Definition bind (A B : Type) (h : Handler A) (k : A -> Handler B) : Handler B :=
  fun s =>
    match h s with
    | (inl r, s1) => (inl r, s1)
    | (inr a, s1) => k a s1
    end.

Definition respond (A : Type) (r : Response) : Handler A := fun s => (inl r, s).
Arguments respond {A} r.

(** [await] of a catalog DAO: it rejects with the bare SQLite error, which has
    no [error] property, so [catch] answers 503. *)
Definition await (A : Type) (q : Sql A) : Handler A :=
  fun s =>
    match q s with
    | (inl _, s1) => (inl Status503, s1)
    | (inr a, s1) => (inr a, s1)
    end.

(** [await ordersDao.createOrder(order)]: the rejection has an [error]
    property, so [catch] answers 400 with it. *)
Definition await_createOrder (order : OrderRequest) : Handler Z :=
  fun s =>
    match createOrder order s with
    | (Rejected e, s1) => (inl (Status400 (Dao e)), s1)
    | (Resolved id, s1) => (inr id, s1)
    end.

Declare Scope handler_scope.
Delimit Scope handler_scope with handler.
Notation "x <- h ;; k" := (bind h (fun x => k))
  (at level 100, h at next level, right associativity) : handler_scope.
Notation "h ;;; k" := (bind h (fun _ => k))
  (at level 100, right associativity) : handler_scope.
Local Open Scope handler_scope.

(** [rows.find(ing => ing.id === id)] *)
Definition find_ingredient (rows : list Ingredient) (id : Z) : option Ingredient :=
  find (fun ing => ing_id ing =? id) rows.

(** The loop over [order.ingredients] that looks each one up in the fetched
    rows; the source has it twice, word for word, on [currentIngredients] and
    on [finalIngredients]. *)
Fixpoint existence_and_availability (rows : list Ingredient) (ings : list Z)
  : option Violation :=
  match ings with
  | [] => None
  | orderIng :: rest =>
      match find_ingredient rows orderIng with
      | None => Some (Ingredient_not_found orderIng)
      | Some dbIng =>
          match availability dbIng with
          | Some 0 => Some (Not_available (ing_name dbIng))
          | _ => existence_and_availability rows rest
          end
      end
  end.

Definition fallback_name (id : Z) : string := "ingredient ID " ++ show id.

Definition name_in (rows : list Ingredient) (id : Z) : string :=
  match find_ingredient rows id with
  | Some r => ing_name r
  | None => fallback_name id
  end.

(** The dependency loop; the inner loop stops at the first [depId] that
    [ingredientIds] does not include. *)
Fixpoint check_dependencies (ingredientIds : list Z)
    (currentIngredients : list Ingredient) (ings : list Z) : Handler unit :=
  match ings with
  | [] => ret tt
  | ingredient :: rest =>
      let ingredientName := name_in currentIngredients ingredient in
      dependencies <- await (getIngredientDependencies ingredient);;
      match find (fun depId => negb (includes ingredientIds depId)) dependencies with
      | Some depId =>
          match find_ingredient currentIngredients depId with
          | Some reqIng =>
              respond (Status400 (Invalid (Requires ingredientName (ing_name reqIng))))
          | None =>
              missingIngredients <- await (getIngredientsByIds [depId]);;
              let reqName := match missingIngredients with
                             | m :: _ => ing_name m
                             | [] => fallback_name depId
                             end in
              respond (Status400 (Invalid (Requires ingredientName reqName)))
          end
      | None => check_dependencies ingredientIds currentIngredients rest
      end
  end.

(** The incompatibility loop; the inner loop stops at the first [incompId]
    that [ingredientIds] includes. *)
Fixpoint check_incompatibilities (ingredientIds : list Z)
    (currentIngredients : list Ingredient) (ings : list Z) : Handler unit :=
  match ings with
  | [] => ret tt
  | ingredient :: rest =>
      let ingredientName := name_in currentIngredients ingredient in
      incompatibilities <- await (getIngredientIncompatibilities ingredient);;
      match find (includes ingredientIds) incompatibilities with
      | Some incompId =>
          respond (Status400 (Invalid
            (Incompatible_with ingredientName (name_in currentIngredients incompId))))
      | None => check_incompatibilities ingredientIds currentIngredients rest
      end
  end.

(** "Validate ingredients if present". *)
Definition validate_ingredients (order : OrderRequest) (sizeInfo : Size)
  : Handler unit :=
  match req_ingredients order with
  | [] => ret tt
  | _ =>
      let ingredientIds := req_ingredients order in
      currentIngredients <- await (getIngredientsByIds ingredientIds);;
      match existence_and_availability currentIngredients (req_ingredients order) with
      | Some v => respond (Status400 (Invalid v))
      | None =>
          if Z.of_nat (List.length (req_ingredients order)) >? max_ingredients sizeInfo
          then respond (Status400 (Invalid
                 (Size_limit (size_name sizeInfo) (max_ingredients sizeInfo))))
          else
            check_dependencies ingredientIds currentIngredients (req_ingredients order);;;
            check_incompatibilities ingredientIds currentIngredients (req_ingredients order)
      end
  end.

(** "Server-side logic validation": dish, size, then the ingredients. *)
Definition validate (order : OrderRequest) : Handler unit :=
  dishInfo <- await (getDishById (dishId order));;
  match dishInfo with
  | None => respond (Status400 (Invalid Invalid_dish_selected))
  | Some _ =>
      sizeInfo <- await (getSizeById (sizeId order));;
      match sizeInfo with
      | None => respond (Status400 (Invalid Invalid_size_selected))
      | Some sizeInfo => validate_ingredients order sizeInfo
      end
  end.

(** "Final availability check just before order creation". *)
Definition final_check (order : OrderRequest) : Handler unit :=
  match req_ingredients order with
  | [] => ret tt
  | _ =>
      let finalIngredientIds := req_ingredients order in
      finalIngredients <- await (getIngredientsByIds finalIngredientIds);;
      match existence_and_availability finalIngredients (req_ingredients order) with
      | Some v => respond (Status400 (Invalid v))
      | None => ret tt
      end
  end.

(** The [check(...)] chain of the route: [dishId] and [sizeId] integers from 1,
    [total] a float from 0 ([ingredients] is an array by its type here). *)
Definition validators (order : OrderRequest) : bool :=
  (1 <=? dishId order) && (1 <=? sizeId order) && Qle_bool 0 (req_total order).

(** What a request does once the final check has passed. *)
Definition persist (order : OrderRequest) : Handler Response :=
  id <- await_createOrder order;;
  ret (Status200 id).

Definition answer (r : (Response + Response) * Store) : Response * Store :=
  match r with
  | (inl x, s) => (x, s)
  | (inr x, s) => (x, s)
  end.

(** The handler of [POST /api/orders] for a logged-in user. *)
Definition post_orders (order : OrderRequest) (s : Store) : Response * Store :=
  if validators order
  then answer ((validate order;;; final_check order;;; persist order) s)
  else (Status422, s).

(** The part of the handler from the final check on: what runs at commit
    time. *)
Definition commit_phase (order : OrderRequest) (s : Store) : Response * Store :=
  answer ((final_check order;;; persist order) s).

(** The part before it: [inr tt] when every validation passed. *)
Definition validation_phase (order : OrderRequest) : Handler unit :=
  if validators order then validate order else respond Status422.

(** ** [index.js]: [DELETE /api/orders/:id] *)

Inductive DeleteResponse :=
| Delete422
| Delete404                      (* 'Order not found or unauthorized' *)
| Delete200 (changes : Z)        (* 'Order cancelled successfully' *)
| Delete400 (e : DaoError).

(** The handler for a user logged in with TOTP: [param('id').isInt({min: 1})],
    then [numChanges === 0] decides between 404 and 200.  Every rejection of
    [deleteOrder] has an [error] property, so [catch] answers 400. *)
Definition delete_orders (userId orderId : Z) (s : Store) : DeleteResponse * Store :=
  if 1 <=? orderId
  then match deleteOrder userId orderId s with
       | (Resolved numChanges, s1) =>
           if numChanges =? 0 then (Delete404, s1) else (Delete200 numChanges, s1)
       | (Rejected e, s1) => (Delete400 e, s1)
       end
  else (Delete422, s).

(** ** The listing functions of the DAO modules *)

(** How a promise of a listing function ends.  In [listOrders] and
    [listIngredients] the inner queries are awaited inside the [async]
    callback of the outer [db.all]: when one of them fails, the rejection
    escapes that callback and the promise the caller holds is neither
    resolved nor rejected. *)
Inductive Promise (A : Type) :=
| Fulfilled (a : A)
| Refused (e : SqlError)
| Unsettled.
Arguments Refused {A} e.
Arguments Unsettled {A}.

(** [rows.map(async row => ... await query(row) ...)]: every query is sent,
    in the order of the rows, whatever becomes of the others. *)
Fixpoint send_all (A B : Type) (q : A -> Sql B) (rows : list A) (s : Store)
  : list (SqlError + B) * Store :=
  match rows with
  | [] => ([], s)
  | row :: rest =>
      let (r, s1) := q row s in
      let (rs, s2) := send_all q rest s1 in
      (r :: rs, s2)
  end.

(** [Promise.all]: the values when every promise is fulfilled. *)
Fixpoint all_fulfilled (A : Type) (rs : list (SqlError + A)) : option (list A) :=
  match rs with
  | [] => Some []
  | inl _ :: _ => None
  | inr a :: rest =>
      match all_fulfilled rest with
      | Some l => Some (a :: l)
      | None => None
      end
  end.

(** A row of the first query of [listOrders]: an order joined with its dish
    and its size. *)
Record OrderJoin := mkOrderJoin
  { oj_id : Z;
    oj_dish_id : Z;
    oj_size_id : Z;
    oj_total : Q;
    dishName : string;
    sizeName : string;
    sizePrice : Q }.

(** An element of the array [listOrders] resolves with. *)
Record ListedOrder := mkListedOrder
  { lo_id : Z;
    lo_dish : string;
    lo_dishId : Z;
    lo_size : string;
    lo_sizeId : Z;
    lo_sizePrice : Q;
    lo_total : Q;
    lo_ingredients : list Ingredient }.

(** [SELECT ... FROM orders o JOIN basedishes b ON o.dish_id = b.id
     JOIN sizes s ON o.size_id = s.id WHERE o.user_id = ?] *)
Definition select_orders_of (userId : Z) : Sql (list OrderJoin) :=
  query (fun t =>
    flat_map (fun o =>
      flat_map (fun b =>
        map (fun z => mkOrderJoin (order_id o) (order_dish_id o) (order_size_id o)
                        (total o) (dish_name b) (size_name z) (size_price z))
            (filter (fun z => order_size_id o =? size_id z) (sizes t)))
        (filter (fun b => order_dish_id o =? dish_id b) (basedishes t)))
      (filter (fun o => user_id o =? userId) (orders t))).

(** The ingredient rows with one of the given ids, id by id. *)
Definition ingredients_with (t : Tables) (ids : list Z) : list Ingredient :=
  flat_map (fun id => filter (fun i => id =? ing_id i) (ingredients t)) ids.

(** [SELECT i.* FROM order_ingredients oi JOIN ingredients i
     ON oi.ingredient_id = i.id WHERE oi.order_id = ?] *)
Definition select_ingredients_of_order (orderId : Z) : Sql (list Ingredient) :=
  query (fun t => ingredients_with t (select_second orderId (order_ingredients t))).

(** [orders.sort((a, b) => b.id - a.id)]: the sort of arrays is stable; it is
    written as the insertion sort that gives the same array. *)
Fixpoint insert_by_id_desc (x : ListedOrder) (l : list ListedOrder)
  : list ListedOrder :=
  match l with
  | [] => [x]
  | y :: rest =>
      if lo_id y <=? lo_id x then x :: y :: rest
      else y :: insert_by_id_desc x rest
  end.

Definition sort_by_id_desc (l : list ListedOrder) : list ListedOrder :=
  fold_right insert_by_id_desc [] l.

Definition listed (order : OrderJoin) (ingredients : list Ingredient) : ListedOrder :=
  mkListedOrder (oj_id order) (dishName order) (oj_dish_id order)
    (sizeName order) (oj_size_id order) (sizePrice order) (oj_total order)
    ingredients.

(** [listOrders] of [dao-orders.js]. *)
Definition listOrders (userId : Z) (s : Store) : Promise (list ListedOrder) * Store :=
  match select_orders_of userId s with
  | (inl err, s1) => (Refused err, s1)
  | (inr rows, s1) =>
      let (results, s2) :=
        send_all (fun order => select_ingredients_of_order (oj_id order)) rows s1 in
      match all_fulfilled results with
      | Some ingredients =>
          (Fulfilled (sort_by_id_desc (map (fun p => listed (fst p) (snd p))
                                         (combine rows ingredients))), s2)
      | None => (Unsettled, s2)
      end
  end.

(** An element of the array [listIngredients] resolves with:
    [{ ...ing, dependencies, incompatibilities }], the two lists being
    names. *)
Record Item := mkItem
  { item_id : Z;
    item_name : string;
    item_price : Q;
    item_availability : option Z;
    dependencies : list string;
    incompatibilities : list string }.

(** The names of the ingredient rows with one of the given ids: the join of
    the two name queries of [listIngredients]. *)
Definition names_of (t : Tables) (ids : list Z) : list string :=
  map ing_name (ingredients_with t ids).

(** [SELECT i.name FROM ingredient_dependencies d JOIN ingredients i
     ON d.depends_on_id = i.id WHERE d.ingredient_id = ?] *)
Definition select_dependency_names (ingredientId : Z) : Sql (list string) :=
  query (fun t => names_of t (select_second ingredientId (ingredient_dependencies t))).

(** [SELECT i.name FROM ingredient_incompatibilities inc JOIN ingredients i
     ON inc.ingredient2_id = i.id WHERE inc.ingredient1_id = ?] *)
Definition select_incompatibility_names (ingredientId : Z) : Sql (list string) :=
  query (fun t =>
    names_of t (select_second ingredientId (ingredient_incompatibilities t))).

(** The second query of a row is sent when its first one has come back, and
    only if that one did not fail. *)
Fixpoint send_second (rows : list Ingredient)
    (firsts : list (SqlError + list string)) (s : Store)
  : list (SqlError + (list string * list string)) * Store :=
  match rows, firsts with
  | ing :: rows', inr deps :: firsts' =>
      let (r, s1) := select_incompatibility_names (ing_id ing) s in
      let (rs, s2) := send_second rows' firsts' s1 in
      (match r with
       | inl e => inl e
       | inr incs => inr (deps, incs)
       end :: rs, s2)
  | _ :: rows', inl e :: firsts' =>
      let (rs, s2) := send_second rows' firsts' s in
      (inl e :: rs, s2)
  | _, _ => ([], s)
  end.

Definition item_of (ing : Ingredient) (names : list string * list string) : Item :=
  mkItem (ing_id ing) (ing_name ing) (ing_price ing) (availability ing)
    (fst names) (snd names).

(** [listIngredients] of [dao-ingredients.js]. *)
Definition listIngredients (s : Store) : Promise (list Item) * Store :=
  match query ingredients s with
  | (inl err, s1) => (Refused err, s1)
  | (inr rows, s1) =>
      let (firsts, s2) :=
        send_all (fun ing => select_dependency_names (ing_id ing)) rows s1 in
      let (results, s3) := send_second rows firsts s2 in
      match all_fulfilled results with
      | Some names =>
          (Fulfilled (map (fun p => item_of (fst p) (snd p)) (combine rows names)), s3)
      | None => (Unsettled, s3)
      end
  end.

(** ** [index.js]: the GET routes *)

Inductive GetAnswer (A : Type) :=
| Json (a : A)
| Status500            (* 'Database error' *)
| NoAnswer.            (* the awaited promise never settles *)
Arguments Status500 {A}.
Arguments NoAnswer {A}.

Definition answer_of (A : Type) (p : Promise A) : GetAnswer A :=
  match p with
  | Fulfilled a => Json a
  | Refused _ => Status500
  | Unsettled => NoAnswer
  end.

(** [GET /api/orders] for a logged-in user. *)
Definition get_orders (userId : Z) (s : Store) : GetAnswer (list ListedOrder) * Store :=
  let (p, s1) := listOrders userId s in (answer_of p, s1).

(** [GET /api/ingredients]. *)
Definition get_ingredients (s : Store) : GetAnswer (list Item) * Store :=
  let (p, s1) := listIngredients s in (answer_of p, s1).

(** ** The order configurator of the client *)

(** The state of the [OrderConfigurator] component.  Its ingredients are
    elements of the array of GET /api/ingredients.  [price] is set by an
    effect from the size and the ingredients, in floating point; the state
    keeps whatever number the effect left. *)
Record Configurator := mkConfigurator
  { selectedDish : option Dish;
    selectedSize : option Size;
    selectedIngredients : list Item;
    price : Q;
    error : string;
    showModal : bool;
    modalMessage : string }.

Definition initial_configurator : Configurator :=
  mkConfigurator None None [] 0 "" false "".

Definition with_modal (st : Configurator) (message : string) : Configurator :=
  mkConfigurator (selectedDish st) (selectedSize st) (selectedIngredients st)
    (price st) (error st) true message.

Definition with_error (st : Configurator) (message : string) : Configurator :=
  mkConfigurator (selectedDish st) (selectedSize st) (selectedIngredients st)
    (price st) message (showModal st) (modalMessage st).

Definition with_selection (st : Configurator) (l : list Item) : Configurator :=
  mkConfigurator (selectedDish st) (selectedSize st) l
    (price st) "" (showModal st) (modalMessage st).

(** [handleDishSelect] *)
Definition handleDishSelect (dish : Dish) (st : Configurator) : Configurator :=
  mkConfigurator (Some dish) None [] (price st) "" (showModal st) (modalMessage st).

(** [handleSizeSelect] *)
Definition handleSizeSelect (size : Size) (st : Configurator) : Configurator :=
  let limit := max_ingredients size in
  if Z.of_nat (List.length (selectedIngredients st)) >? limit
  then with_modal st
         (size_name size ++ " dishes can only have up to " ++ show limit ++
          " ingredients. Please remove " ++
          show (Z.of_nat (List.length (selectedIngredients st)) - limit) ++
          " ingredient(s) first.")
  else mkConfigurator (selectedDish st) (Some size) (selectedIngredients st)
         (price st) "" (showModal st) (modalMessage st).

(** [currentIngredients.some(ing => ing.name === name)] *)
Definition some_named (currentIngredients : list Item) (name : string) : bool :=
  existsb (fun ing => (item_name ing =? name)%string) currentIngredients.

(** The result of [checkDependencies] and [checkIncompatibilities]:
    [{ valid: true }] or [{ valid: false, message }]. *)
Inductive Check :=
| Valid
| NotValid (message : string).

(** [checkDependencies] *)
Definition checkDependencies (ingredient : Item) (currentIngredients : list Item)
  : Check :=
  match dependencies ingredient with
  | [] => Valid
  | _ =>
      let missingDeps :=
        filter (fun dep => negb (some_named currentIngredients dep))
          (dependencies ingredient) in
      match missingDeps with
      | [] => Valid
      | _ => NotValid (item_name ingredient ++ " requires: " ++
                       String.concat ", " missingDeps)
      end
  end.

(** [checkIncompatibilities] *)
Definition checkIncompatibilities (ingredient : Item)
    (currentIngredients : list Item) : Check :=
  match incompatibilities ingredient with
  | [] => Valid
  | _ =>
      let conflicts :=
        filter (some_named currentIngredients) (incompatibilities ingredient) in
      match conflicts with
      | [] => Valid
      | _ => NotValid (item_name ingredient ++ " is incompatible with: " ++
                       String.concat ", " conflicts)
      end
  end.

(** [ing.dependencies.includes(name)] *)
Definition lists_name (names : list string) (name : string) : bool :=
  existsb (fun n => (n =? name)%string) names.

(** [checkIfRequiredByOthers]: [{ canRemove: true }] is [Valid]. *)
Definition checkIfRequiredByOthers (ingredient : Item)
    (currentIngredients : list Item) : Check :=
  let dependentIngredients :=
    filter (fun ing => lists_name (dependencies ing) (item_name ingredient))
      currentIngredients in
  match dependentIngredients with
  | [] => Valid
  | _ => NotValid ("Cannot remove " ++ item_name ingredient ++
                   " because it's required by: " ++
                   String.concat ", " (map item_name dependentIngredients))
  end.

(** [ingredient.availability !== null && ingredient.availability <= 0] *)
Definition out_of_stock (ingredient : Item) : bool :=
  match item_availability ingredient with
  | Some a => a <=? 0
  | None => false
  end.

(** [handleIngredientToggle].  [None] is the TypeError of
    [selectedSize.max_ingredients] when an ingredient is added while no size
    is selected. *)
Definition handleIngredientToggle (ingredient : Item) (st : Configurator)
  : option Configurator :=
  match find (fun i => item_id i =? item_id ingredient) (selectedIngredients st) with
  | Some _ =>
      match checkIfRequiredByOthers ingredient (selectedIngredients st) with
      | NotValid message => Some (with_modal st message)
      | Valid =>
          Some (with_selection st
                  (filter (fun i => negb (item_id i =? item_id ingredient))
                     (selectedIngredients st)))
      end
  | None =>
      if out_of_stock ingredient
      then Some (with_modal st
                   (item_name ingredient ++ " is not available (out of stock)"))
      else
        match selectedSize st with
        | None => None
        | Some size =>
            let limit := max_ingredients size in
            if Z.of_nat (List.length (selectedIngredients st)) >=? limit
            then Some (with_modal st
                         (size_name size ++ " dishes can only have up to " ++
                          show limit ++ " ingredients"))
            else
              match checkDependencies ingredient (selectedIngredients st) with
              | NotValid message => Some (with_modal st message)
              | Valid =>
                  match checkIncompatibilities ingredient (selectedIngredients st) with
                  | NotValid message => Some (with_modal st message)
                  | Valid =>
                      Some (with_selection st
                              (selectedIngredients st ++ [ingredient]))
                  end
              end
        end
  end.

(** The loop of [handleSubmitOrder] over the selected ingredients: the
    message of the first check that fails. *)
Fixpoint final_validation (rest currentIngredients : list Item) : option string :=
  match rest with
  | [] => None
  | ingredient :: rest' =>
      if out_of_stock ingredient
      then Some (item_name ingredient ++ " is no longer available")
      else
        match checkDependencies ingredient currentIngredients with
        | NotValid message => Some message
        | Valid =>
            match checkIncompatibilities ingredient currentIngredients with
            | NotValid message => Some message
            | Valid => final_validation rest' currentIngredients
            end
        end
  end.

(** The object [handleSubmitOrder] hands to [API.addOrder]. *)
Record Submission := mkSubmission
  { sub_dishId : Z;
    sub_dish : string;
    sub_sizeId : Z;
    sub_size : string;
    sub_ingredients : list Item;
    sub_total : Q }.

(** [handleSubmitOrder]: the state with an error message, or the order that
    is sent. *)
Definition handleSubmitOrder (st : Configurator) : Configurator + Submission :=
  match selectedDish st, selectedSize st with
  | Some dish, Some size =>
      match final_validation (selectedIngredients st) (selectedIngredients st) with
      | Some message => inl (with_error st message)
      | None =>
          inr (mkSubmission (dish_id dish) (dish_name dish) (size_id size)
                 (size_name size) (selectedIngredients st) (price st))
      end
  | _, _ => inl (with_error st "Please select a dish and size")
  end.

(** The body the server reads of a submission, for the user of the session:
    the ids of [order.ingredients], [dishId], [sizeId] and [total]. *)
Definition request_of (userId : Z) (sub : Submission) : OrderRequest :=
  mkRequest userId (sub_dishId sub) (sub_sizeId sub)
    (map item_id (sub_ingredients sub)) (sub_total sub).

(** ** The seed rows of [init_db.sql] *)

Definition seed : Tables :=
  {| basedishes := [mkDish 1 "Pizza"; mkDish 2 "Pasta"; mkDish 3 "Salad"];
     sizes := [mkSize 1 "Small" 5.00 3; mkSize 2 "Medium" 7.00 5;
               mkSize 3 "Large" 9.00 7];
     ingredients :=
       [mkIngredient 1 "Mozzarella" 1.00 (Some 3);
        mkIngredient 2 "Tomatoes" 0.50 None;
        mkIngredient 3 "Mushrooms" 0.80 (Some 3);
        mkIngredient 4 "Ham" 1.20 (Some 2);
        mkIngredient 5 "Olives" 0.70 None;
        mkIngredient 6 "Tuna" 1.50 (Some 2);
        mkIngredient 7 "Eggs" 1.00 None;
        mkIngredient 8 "Anchovies" 1.50 (Some 1);
        mkIngredient 9 "Parmesan" 1.20 None;
        mkIngredient 10 "Carrots" 0.40 None;
        mkIngredient 11 "Potatoes" 0.30 None];
     ingredient_dependencies := [(2, 5); (9, 1); (1, 2); (6, 5)];
     ingredient_incompatibilities :=
       [(7, 3); (3, 7); (7, 2); (2, 7); (4, 3); (3, 4); (5, 8); (8, 5)];
     orders := [mkOrder 1 1 1 1 6.20; mkOrder 2 1 2 1 6.50;
                mkOrder 3 2 2 2 9.70; mkOrder 4 2 3 3 11.60];
     order_ingredients :=
       [(1, 2); (1, 5); (2, 1); (2, 2); (3, 3); (3, 4); (3, 5);
        (4, 6); (4, 5); (4, 10)];
     orders_seq := 4 |}.

(** A connection outside any transaction, with the given fault plan. *)
Definition connect (t : Tables) (plan : list bool) : Store := mkStore t None plan.

(** ** What the two transactions leave behind *)

Definition reserve_all (ings : list Z) (rows : list Ingredient) : list Ingredient :=
  fold_left (fun rows ing => map (reserve_row ing) rows) ings rows.

Definition release_all (ings : list Z) (rows : list Ingredient) : list Ingredient :=
  fold_left (fun rows ing => map (release_row ing) rows) ings rows.

(** The tables after the ingredient loop of [createOrder] went through
    [ings] for order [orderId]. *)
Definition with_ingredients (orderId : Z) (ings : list Z) (t : Tables) : Tables :=
  mkTables (basedishes t) (sizes t) (reserve_all ings (ingredients t))
    (ingredient_dependencies t) (ingredient_incompatibilities t) (orders t)
    (order_ingredients t ++ map (pair orderId) ings) (orders_seq t).

(** The tables after a committed [createOrder]: the order row, one
    association row per ingredient, one conditional decrement per
    ingredient. *)
Definition created (order : OrderRequest) (t : Tables) : Tables :=
  let id := next_order_id t in
  with_ingredients id (req_ingredients order)
    (set_orders t
       (orders t ++ [mkOrder id (req_user_id order) (dishId order)
                       (sizeId order) (req_total order)]) id).

(** The tables after a committed [deleteOrder]. *)
Definition deleted (userId orderId : Z) (t : Tables) : Tables :=
  mkTables (basedishes t) (sizes t)
    (release_all (select_second orderId (order_ingredients t)) (ingredients t))
    (ingredient_dependencies t) (ingredient_incompatibilities t)
    (filter (fun o => negb (order_matches orderId userId o)) (orders t))
    (filter (fun r => negb (fst r =? orderId)) (order_ingredients t))
    (orders_seq t).

(** What the decrements, and the increments, of a list of ingredients do to
    one row. *)
Definition reserve_row_all (ings : list Z) (r : Ingredient) : Ingredient :=
  fold_left (fun r ing => reserve_row ing r) ings r.

Definition release_row_all (ings : list Z) (r : Ingredient) : Ingredient :=
  fold_left (fun r ing => release_row ing r) ings r.

(** ** Invariants of the tables *)

Definition nonneg (r : Ingredient) : Prop :=
  match availability r with
  | Some a => 0 <= a
  | None => True
  end.

(** No tracked availability is negative. *)
Definition availability_nonneg (t : Tables) : Prop :=
  Forall nonneg (ingredients t).

(** Row by row, same ingredient, and an unlimited one is the same row. *)
Definition unlimited_untouched (before after : list Ingredient) : Prop :=
  Forall2 (fun r r' => ing_id r' = ing_id r /\
                       (availability r = None -> r' = r)) before after.

(** [id] is the primary key of [ingredients]. *)
Definition ingredient_ids_unique (t : Tables) : Prop :=
  NoDup (map ing_id (ingredients t)).

(** Association rows only name order ids that were already handed out. *)
Definition associations_of_issued_orders (t : Tables) : Prop :=
  forall r, In r (order_ingredients t) -> fst r < next_order_id t.

(** The AUTOINCREMENT sequence is not behind the ids in [orders]. *)
Definition sequence_covers_orders (t : Tables) : Prop :=
  max_order_id (orders t) <= orders_seq t.

Definition well_formed (t : Tables) : Prop :=
  availability_nonneg t /\ ingredient_ids_unique t /\
  associations_of_issued_orders t /\ sequence_covers_orders t.

(** The connections the server can be in: it starts on the seed and serves
    requests one after the other. *)
Inductive reachable : Store -> Prop :=
| reachable_seed (plan : list bool) : reachable (connect seed plan)
| reachable_post (order : OrderRequest) (s : Store) :
    reachable s -> reachable (snd (post_orders order s))
| reachable_delete (userId orderId : Z) (s : Store) :
    reachable s -> reachable (snd (delete_orders userId orderId s)).

(** A handler step that only checks: it leaves the tables and the open
    transaction as they are, keeps an exhausted fault plan exhausted, and
    never answers 200. *)
Definition checks_only (A : Type) (h : Handler A) : Prop :=
  forall s, live (snd (h s)) = live s /\ saved (snd (h s)) = saved s /\
            (faults s = [] -> faults (snd (h s)) = []) /\
            (forall id, fst (h s) <> inl (Status200 id)).

(** Two connections that differ at most in the rows of [ingredients] (and
    in the snapshot of the open transaction, if there is one). *)
Definition same_but_ingredients (s s' : Store) : Prop :=
  faults s = faults s' /\
  (saved s = None <-> saved s' = None) /\
  orders (live s) = orders (live s') /\
  order_ingredients (live s) = order_ingredients (live s') /\
  orders_seq (live s) = orders_seq (live s').

(** The connection once a statement has left tables [t]. *)
Definition after (s : Store) (t : Tables) : Store :=
  mkStore t (saved s) (tl (faults s)).

(** The availability column of ingredient [id]. *)
Definition availability_of (id : Z) (t : Tables) : option (option Z) :=
  option_map availability (find_ingredient (ingredients t) id).

(** ** Tables used as examples *)

(** The seed once user 2 has ordered the last unit of Anchovies. *)
Definition anchovies_sold : Tables := created (mkRequest 2 1 1 [8] 6.50) seed.

(** The seed with another cap on the Small size. *)
Definition seed_with_small_of (limit : Z) : Tables :=
  mkTables (basedishes seed)
    [mkSize 1 "Small" 5.00 limit; mkSize 2 "Medium" 7.00 5; mkSize 3 "Large" 9.00 7]
    (ingredients seed) (ingredient_dependencies seed)
    (ingredient_incompatibilities seed) (orders seed) (order_ingredients seed)
    (orders_seq seed).

(** The price the specification gives an order, in its words: the price of
    the selected size plus the sum of the prices of the selected ingredients,
    as the catalog has them. *)
Definition catalog_total (t : Tables) (order : OrderRequest) : option Q :=
  match find (fun z => size_id z =? sizeId order) (sizes t) with
  | Some z =>
      Some (fold_left
              (fun sum id => match find_ingredient (ingredients t) id with
                             | Some ing => (sum + ing_price ing)%Q
                             | None => sum
                             end)
              (req_ingredients order) (size_price z))
  | None => None
  end.

(** ** What the checks of the validation ask of a request *)

Definition dish_known (t : Tables) (order : OrderRequest) : Prop :=
  find (fun d => dish_id d =? dishId order) (basedishes t) <> None.

Definition size_known (t : Tables) (order : OrderRequest) : Prop :=
  find (fun z => size_id z =? sizeId order) (sizes t) <> None.

(** Every candidate is a row of [ingredients] whose availability is not 0. *)
Definition all_in_stock (t : Tables) (order : OrderRequest) : Prop :=
  forall x, In x (req_ingredients order) ->
    exists r, find_ingredient (ingredients t) x = Some r /\
              availability r <> Some 0.

Definition fits_size (t : Tables) (order : OrderRequest) : Prop :=
  exists z, find (fun z => size_id z =? sizeId order) (sizes t) = Some z /\
            Z.of_nat (List.length (req_ingredients order)) <= max_ingredients z.

Definition dependencies_closed (t : Tables) (order : OrderRequest) : Prop :=
  forall a d, In a (req_ingredients order) ->
    In (a, d) (ingredient_dependencies t) -> In d (req_ingredients order).

Definition no_incompatible_pair (t : Tables) (order : OrderRequest) : Prop :=
  forall a b, In a (req_ingredients order) -> In b (req_ingredients order) ->
    ~ In (a, b) (ingredient_incompatibilities t).

(** [a] is the first candidate, in the order of the request, that does not
    pass [P]. *)
Definition first_candidate (ings : list Z) (P : Z -> Prop) (a : Z) : Prop :=
  exists before after,
    ings = (before ++ a :: after)%list /\
    (forall x, In x before -> P x) /\ ~ P a.

(** [d] is the smallest id with [P]. *)
Definition least (P : Z -> Prop) (d : Z) : Prop :=
  P d /\ forall d', P d' -> d <= d'.

Definition in_stock (t : Tables) (x : Z) : Prop :=
  exists r, find_ingredient (ingredients t) x = Some r /\
            availability r <> Some 0.

(** What a 400 answer of the validation says of the request: its own check
    fails on the tables and the checks before it hold; the ids and names of
    the message are those of the first candidate of the request that fails
    the check and, for a dependency or an incompatibility, of the smallest
    id that makes it fail. *)
Definition explained_by (t : Tables) (order : OrderRequest) (v : Violation) : Prop :=
  match v with
  | Invalid_dish_selected => ~ dish_known t order
  | Invalid_size_selected => dish_known t order /\ ~ size_known t order
  | Ingredient_not_found id =>
      dish_known t order /\ size_known t order /\
      first_candidate (req_ingredients order) (in_stock t) id /\
      find_ingredient (ingredients t) id = None
  | Not_available name =>
      dish_known t order /\ size_known t order /\
      exists id r, first_candidate (req_ingredients order) (in_stock t) id /\
                   find_ingredient (ingredients t) id = Some r /\
                   availability r = Some 0 /\ name = ing_name r
  | Size_limit sizeName limit =>
      dish_known t order /\ all_in_stock t order /\
      exists z, find (fun z => size_id z =? sizeId order) (sizes t) = Some z /\
                sizeName = size_name z /\ limit = max_ingredients z /\
                limit < Z.of_nat (List.length (req_ingredients order))
  | Requires ingredientName reqName =>
      dish_known t order /\ all_in_stock t order /\ fits_size t order /\
      exists a d,
        first_candidate (req_ingredients order)
          (fun x => forall d', In (x, d') (ingredient_dependencies t) ->
                               In d' (req_ingredients order)) a /\
        least (fun d' => In (a, d') (ingredient_dependencies t) /\
                         ~ In d' (req_ingredients order)) d /\
        ingredientName = name_in (ingredients t) a /\
        reqName = name_in (ingredients t) d
  | Incompatible_with ingredientName incompName =>
      dish_known t order /\ all_in_stock t order /\ fits_size t order /\
      dependencies_closed t order /\
      exists a b,
        first_candidate (req_ingredients order)
          (fun x => forall y, In y (req_ingredients order) ->
                              ~ In (x, y) (ingredient_incompatibilities t)) a /\
        least (fun b' => In (a, b') (ingredient_incompatibilities t) /\
                         In b' (req_ingredients order)) b /\
        ingredientName = name_in (ingredients t) a /\
        incompName = name_in (ingredients t) b
  end.

(** What a 400 answer of the route says.  A body of the validation is
    explained by the tables.  A body of the DAO comes only after every check
    has passed: it is the error [createOrder] rejects with on the same
    tables, and on a connection with no storage fault, outside a
    transaction and with association rows of issued orders only, only a
    repeated ingredient makes it reject. *)
Definition explained (order : OrderRequest) (s : Store) (body : ErrorBody) : Prop :=
  match body with
  | Invalid v => explained_by (live s) order v
  | Dao e =>
      dish_known (live s) order /\ size_known (live s) order /\
      all_in_stock (live s) order /\
      (req_ingredients order = [] \/ fits_size (live s) order) /\
      dependencies_closed (live s) order /\
      no_incompatible_pair (live s) order /\
      (exists sc, live sc = live s /\ saved sc = saved s /\
                  fst (createOrder order sc) = Rejected e) /\
      (faults s = [] -> saved s = None ->
       associations_of_issued_orders (live s) ->
       ~ NoDup (req_ingredients order))
  end.

(** ** What the engine leaves alone *)

(** The columns of an ingredient that no statement of the server writes. *)
Definition static_part (r : Ingredient) : Z * string * Q :=
  (ing_id r, ing_name r, ing_price r).

(** Same dishes, sizes, dependency and incompatibility rows, and the same
    ingredients up to their availability. *)
Definition same_catalog (t t' : Tables) : Prop :=
  basedishes t' = basedishes t /\ sizes t' = sizes t /\
  ingredient_dependencies t' = ingredient_dependencies t /\
  ingredient_incompatibilities t' = ingredient_incompatibilities t /\
  map static_part (ingredients t') = map static_part (ingredients t).

(** One conditional decrement, or one increment, of the rows whose id is in
    [ings]. *)
Definition reserve_once (ings : list Z) (r : Ingredient) : Ingredient :=
  if includes ings (ing_id r) then reserve_row (ing_id r) r else r.

Definition release_once (ings : list Z) (r : Ingredient) : Ingredient :=
  if includes ings (ing_id r) then release_row (ing_id r) r else r.

(** What the tables hold of one order: its row and its association rows. *)
Definition order_view (orderId : Z) (t : Tables) : list Order * list Z :=
  (filter (fun o => order_id o =? orderId) (orders t),
   select_second orderId (order_ingredients t)).

(** ** What the listings hold *)

(** The entry of [listOrders] for order row [o] with dish row [b] and size
    row [z], on tables [t]. *)
Definition entry_of (t : Tables) (o : Order) (b : Dish) (z : Size) : ListedOrder :=
  mkListedOrder (order_id o) (dish_name b) (order_dish_id o) (size_name z)
    (order_size_id o) (size_price z) (total o)
    (ingredients_with t (select_second (order_id o) (order_ingredients t))).

(** The item of [listIngredients] for ingredient row [ing], on tables [t]. *)
Definition item_on (t : Tables) (ing : Ingredient) : Item :=
  item_of ing
    (names_of t (select_second (ing_id ing) (ingredient_dependencies t)),
     names_of t (select_second (ing_id ing) (ingredient_incompatibilities t))).

(** The entries of a user, in the order the first query of [listOrders]
    brings them. *)
Definition own_entries (userId : Z) (t : Tables) : list ListedOrder :=
  flat_map (fun o =>
    flat_map (fun b =>
      map (fun z => entry_of t o b z)
        (filter (fun z => order_size_id o =? size_id z) (sizes t)))
      (filter (fun b => order_dish_id o =? dish_id b) (basedishes t)))
    (filter (fun o => user_id o =? userId) (orders t)).

(** The strings [getIngredientStatus] returns. *)
Inductive Status :=
| Selected        (* 'selected' *)
| Unavailable     (* 'unavailable' *)
| Disabled        (* 'disabled' *)
| Missing_deps    (* 'missing-deps' *)
| Incompatible    (* 'incompatible' *)
| Available.      (* 'available' *)

(** [getIngredientStatus] *)
Definition getIngredientStatus (ingredient : Item) (st : Configurator) : Status :=
  let isSelected :=
    find (fun i => item_id i =? item_id ingredient) (selectedIngredients st) in
  if out_of_stock ingredient then Unavailable
  else
    match isSelected with
    | Some _ => Selected
    | None =>
        match selectedSize st with
        | Some size =>
            let limit := max_ingredients size in
            if Z.of_nat (List.length (selectedIngredients st)) >=? limit
            then Disabled
            else
              match checkDependencies ingredient (selectedIngredients st) with
              | NotValid _ => Missing_deps
              | Valid =>
                  match checkIncompatibilities ingredient (selectedIngredients st) with
                  | NotValid _ => Incompatible
                  | Valid => Available
                  end
              end
        | None => Available
        end
    end.

(** [isDisabled] of the ingredient list: the entry does not answer clicks. *)
Definition isDisabled (status : Status) : bool :=
  match status with
  | Unavailable | Disabled | Missing_deps | Incompatible => true
  | Selected | Available => false
  end.

(** ** The states of the configurator *)

(** The effect that recomputes the price leaves some number [p]. *)
Definition with_price (st : Configurator) (p : Q) : Configurator :=
  mkConfigurator (selectedDish st) (selectedSize st) (selectedIngredients st)
    p (error st) (showModal st) (modalMessage st).

(** [setShowModal(false)] of the modal's buttons. *)
Definition hide_modal (st : Configurator) : Configurator :=
  mkConfigurator (selectedDish st) (selectedSize st) (selectedIngredients st)
    (price st) (error st) false (modalMessage st).

(** The [then] of [API.addOrder]: everything is reset. *)
Definition order_sent (st : Configurator) : Configurator :=
  mkConfigurator None None [] 0 "" (showModal st) (modalMessage st).

(** One event of the component, [ingredients] being the array of its props.
    The answer of a request may come at any later moment, so its two
    callbacks are steps of every state. *)
Inductive configurator_step (ingredients : list Item)
  : Configurator -> Configurator -> Prop :=
| dish_selected dish st :
    configurator_step ingredients st (handleDishSelect dish st)
| size_selected size st :
    configurator_step ingredients st (handleSizeSelect size st)
| ingredient_toggled ingredient st st' :
    In ingredient ingredients ->
    handleIngredientToggle ingredient st = Some st' ->
    configurator_step ingredients st st'
| submit_refused st st' :
    handleSubmitOrder st = inl st' ->
    configurator_step ingredients st st'
| request_fulfilled st :
    configurator_step ingredients st (order_sent st)
| request_refused st message :
    configurator_step ingredients st (with_error st message)
| price_computed st p :
    configurator_step ingredients st (with_price st p)
| modal_hidden st :
    configurator_step ingredients st (hide_modal st).

(** The states the component can be in. *)
Inductive configured (ingredients : list Item) : Configurator -> Prop :=
| configured_initial : configured ingredients initial_configurator
| configured_step st st' :
    configured ingredients st ->
    configurator_step ingredients st st' ->
    configured ingredients st'.

(** What the handlers keep of the selection. *)
Definition coherent (ingredients : list Item) (st : Configurator) : Prop :=
  incl (selectedIngredients st) ingredients /\
  NoDup (map item_id (selectedIngredients st)) /\
  (selectedSize st = None -> selectedIngredients st = []) /\
  (forall size, selectedSize st = Some size ->
     Z.of_nat (List.length (selectedIngredients st)) <= max_ingredients size) /\
  (forall i dep, In i (selectedIngredients st) -> In dep (dependencies i) ->
     some_named (selectedIngredients st) dep = true).

(** The final validation of [handleSubmitOrder] finds nothing to report. *)
Definition passes_final_validation (l : list Item) : Prop :=
  forall i, In i l ->
    out_of_stock i = false /\
    (forall dep, In dep (dependencies i) -> some_named l dep = true) /\
    (forall inc, In inc (incompatibilities i) -> some_named l inc = false).

(** Every dependency row names an ingredient row. *)
Definition dependency_targets_exist (t : Tables) : Prop :=
  forall a d, In (a, d) (ingredient_dependencies t) ->
    In d (map ing_id (ingredients t)).

(** ** A run of the configurator on the seed *)

(** The items [listIngredients] gives on the seed rows. *)
Definition seed_items : list Item := map (item_on seed) (ingredients seed).

(** A click on the ingredient of [items] with the given id. *)
Definition toggle_by_id (items : list Item) (st : option Configurator) (id : Z)
  : option Configurator :=
  match st, find (fun i => item_id i =? id) items with
  | Some st, Some i => handleIngredientToggle i st
  | _, _ => None
  end.

(** The user picks a dish, then a size, then clicks the ingredients with the
    given ids in turn. *)
Definition session (items : list Item) (dish : Dish) (size : Size) (ids : list Z)
  : option Configurator :=
  fold_left (toggle_by_id items) ids
    (Some (handleSizeSelect size (handleDishSelect dish initial_configurator))).

(** * Properties *)

(** ** The order of the primary-key index *)

Lemma insert_ascending_perm (x : Z) (l : list Z) :
  Permutation (insert_ascending x l) (x :: l).
Proof.
  induction l as [|y l IH]; simpl; [apply Permutation_refl|].
  destruct (x <=? y); [apply Permutation_refl|].
  apply perm_trans with (y :: x :: l); [apply perm_skip; exact IH | apply perm_swap].
Qed.

Lemma ascending_perm (l : list Z) : Permutation (ascending l) l.
Proof.
  induction l as [|x l IH]; simpl; [apply perm_nil|].
  apply perm_trans with (x :: ascending l);
    [apply insert_ascending_perm | apply perm_skip; exact IH].
Qed.

Lemma ascending_In (l : list Z) (x : Z) : In x (ascending l) <-> In x l.
Proof.
  split; apply Permutation_in;
    [apply ascending_perm | apply Permutation_sym; apply ascending_perm].
Qed.

Lemma ascending_NoDup (l : list Z) : NoDup l -> NoDup (ascending l).
Proof.
  apply Permutation_NoDup. apply Permutation_sym. apply ascending_perm.
Qed.

Lemma ascending_length (l : list Z) : List.length (ascending l) = List.length l.
Proof. apply Permutation_length. apply ascending_perm. Qed.

Lemma ascending_empty (l : list Z) : ascending l = [] <-> l = [].
Proof.
  split; [|intros ->; reflexivity].
  intros H. apply length_zero_iff_nil. rewrite <- ascending_length, H. reflexivity.
Qed.

Lemma insert_ascending_sorted (x : Z) (l : list Z) :
  Sorted Z.le l -> Sorted Z.le (insert_ascending x l).
Proof.
  induction l as [|y l IH]; simpl; intros Hs; [repeat constructor|].
  destruct (x <=? y) eqn:E.
  - apply Z.leb_le in E. constructor; [exact Hs | constructor; exact E].
  - apply Z.leb_gt in E. inversion Hs as [|y' l' Hl Hhd]; subst.
    constructor; [apply IH; exact Hl|].
    destruct l as [|z l]; simpl; [constructor; lia|].
    destruct (x <=? z); constructor; [lia|].
    inversion Hhd; subst. assumption.
Qed.

Lemma ascending_sorted (l : list Z) : Sorted Z.le (ascending l).
Proof.
  induction l as [|x l IH]; simpl; [constructor|].
  apply insert_ascending_sorted. exact IH.
Qed.

Lemma insert_ascending_head (x : Z) (l : list Z) :
  Sorted Z.le l -> (forall y, In y l -> x <= y) -> insert_ascending x l = x :: l.
Proof.
  destruct l as [|y l]; simpl; intros _ H; [reflexivity|].
  rewrite (proj2 (Z.leb_le x y) (H y (or_introl eq_refl))). reflexivity.
Qed.

(** A list already in ascending order is what the index gives. *)
Lemma ascending_of_sorted (l : list Z) : StronglySorted Z.le l -> ascending l = l.
Proof.
  induction 1 as [|x l Hs IH Hall]; simpl; [reflexivity|].
  rewrite IH. apply insert_ascending_head.
  - apply StronglySorted_Sorted. exact Hs.
  - intros y Hy. exact (proj1 (Forall_forall _ _) Hall y Hy).
Qed.


(** ** Statements *)

Lemma statement_run (A : Type) (f : Tables -> SqlError + (A * Tables)) (s : Store) :
  statement f s =
  if hd false (faults s) then (inl SQLITE_IOERR, after s (live s))
  else match f (live s) with
       | inl e => (inl e, after s (live s))
       | inr (a, t) => (inr a, after s t)
       end.
Proof.
  destruct s as [t sv [|b fs]]; unfold statement, after; simpl.
  - destruct (f t) as [e|[a t']]; reflexivity.
  - destruct b; [reflexivity|].
    destruct (f t) as [e|[a t']]; reflexivity.
Qed.

Lemma BEGIN_run (s : Store) :
  BEGIN_TRANSACTION s =
  if hd false (faults s) then (inl SQLITE_IOERR, after s (live s))
  else match saved s with
       | Some _ => (inl SQLITE_ERROR, after s (live s))
       | None => (inr tt, mkStore (live s) (Some (live s)) (tl (faults s)))
       end.
Proof.
  destruct s as [t sv [|b fs]]; unfold BEGIN_TRANSACTION, after; simpl.
  - destruct sv; reflexivity.
  - destruct b; [reflexivity|]. destruct sv; reflexivity.
Qed.

Lemma COMMIT_run (s : Store) :
  COMMIT s =
  if hd false (faults s) then (inl SQLITE_IOERR, after s (live s))
  else match saved s with
       | Some _ => (inr tt, mkStore (live s) None (tl (faults s)))
       | None => (inl SQLITE_ERROR, after s (live s))
       end.
Proof.
  destruct s as [t sv [|b fs]]; unfold COMMIT, after; simpl.
  - destruct sv; reflexivity.
  - destruct b; [reflexivity|]. destruct sv; reflexivity.
Qed.

Lemma query_run (A : Type) (f : Tables -> A) (s : Store) :
  query f s =
  if hd false (faults s) then (inl SQLITE_IOERR, after s (live s))
  else (inr (f (live s)), after s (live s)).
Proof. unfold query. rewrite statement_run. reflexivity. Qed.

(** ** The ingredient loop of [createOrder] *)

Lemma with_ingredients_nil (id : Z) (t : Tables) : with_ingredients id [] t = t.
Proof.
  destruct t; unfold with_ingredients; simpl. rewrite app_nil_r. reflexivity.
Qed.

Lemma with_ingredients_cons (id ing : Z) (rest : list Z) (t : Tables) :
  with_ingredients id rest
    (set_ingredients
       (set_order_ingredients t (order_ingredients t ++ [(id, ing)]))
       (map (reserve_row ing) (ingredients t)))
  = with_ingredients id (ing :: rest) t.
Proof.
  unfold with_ingredients; simpl. rewrite <- app_assoc. reflexivity.
Qed.

(** Inside the transaction opened on [t0], the loop either commits the
    association rows and decrements of all of [rest], or restores [t0]. *)
Lemma processNextIngredient_spec (id : Z) (rest : list Z) :
  forall (s : Store) (t0 : Tables),
    saved s = Some t0 ->
    match processNextIngredient id rest s with
    | (Resolved id', s') =>
        id' = id /\ live s' = with_ingredients id rest (live s) /\ saved s' = None
    | (Rejected _, s') => live s' = t0 /\ saved s' = None
    end.
Proof.
  induction rest as [|ing rest IH]; intros s t0 Hs; simpl.
  - rewrite COMMIT_run, Hs.
    destruct (hd false (faults s)); simpl.
    + unfold ROLLBACK; simpl. rewrite Hs. auto.
    + rewrite with_ingredients_nil. auto.
  - unfold insert_order_ingredient, decrement_availability.
    rewrite statement_run.
    destruct (hd false (faults s)); simpl.
    { unfold ROLLBACK; simpl. rewrite Hs. auto. }
    destruct (existsb _ _); simpl.
    { unfold ROLLBACK; simpl. rewrite Hs. auto. }
    rewrite statement_run; simpl.
    destruct (hd false (tl (faults s))); simpl.
    { unfold ROLLBACK; simpl. rewrite Hs. auto. }
    match goal with |- context [processNextIngredient id rest ?s2] =>
      specialize (IH s2 t0 Hs) end.
    destruct (processNextIngredient id rest _) as [[id'|e] s']; [|exact IH].
    destruct IH as (-> & Hl & Hsv). simpl in Hl.
    rewrite Hl, with_ingredients_cons. auto.
Qed.

Lemma createOrder_spec (order : OrderRequest) (s : Store) :
  match createOrder order s with
  | (Resolved id, s') =>
      id = next_order_id (live s) /\ live s' = created order (live s) /\
      saved s = None /\ saved s' = None
  | (Rejected _, s') => live s' = live s /\ saved s' = saved s
  end.
Proof.
  unfold createOrder. rewrite BEGIN_run.
  destruct (hd false (faults s)); simpl; [auto|].
  destruct (saved s) eqn:Hs; simpl; [auto|].
  unfold insert_order. rewrite statement_run; simpl.
  destruct (hd false (tl (faults s))); simpl; [auto|].
  destruct (req_ingredients order) as [|ing rest] eqn:Hi.
  - rewrite COMMIT_run; simpl.
    destruct (hd false (tl (tl (faults s)))); simpl; [auto|].
    unfold created. rewrite Hi, with_ingredients_nil. auto.
  - match goal with |- context [processNextIngredient ?i ?l ?s2] =>
      pose proof (@processNextIngredient_spec i l s2 (live s) eq_refl) as H end.
    destruct (processNextIngredient _ _ _) as [[id'|e] s']; [|exact H].
    destruct H as (-> & Hl & Hsv). simpl in Hl.
    unfold created. rewrite Hi. auto.
Qed.

(** ** The restore loop of [deleteOrder] *)

Lemma processNextRestore_spec (userId orderId : Z) (rest : list Z) :
  forall (s : Store) (t0 : Tables),
    saved s = Some t0 ->
    match processNextRestore userId orderId rest s with
    | (Resolved changes, s') =>
        let t := set_ingredients (live s) (release_all rest (ingredients (live s))) in
        changes = Z.of_nat (List.length (filter (order_matches orderId userId) (orders t))) /\
        live s' =
          set_orders
            (set_order_ingredients t
               (filter (fun r => negb (fst r =? orderId)) (order_ingredients t)))
            (filter (fun o => negb (order_matches orderId userId o)) (orders t))
            (orders_seq t) /\
        saved s' = None
    | (Rejected _, s') => live s' = t0 /\ saved s' = None
    end.
Proof.
  induction rest as [|ing rest IH]; intros s t0 Hs; simpl.
  - unfold delete_order_ingredients, delete_order_row.
    rewrite statement_run.
    destruct (hd false (faults s)); simpl.
    { unfold ROLLBACK; simpl. rewrite Hs. auto. }
    rewrite statement_run; simpl.
    destruct (hd false (tl (faults s))); simpl.
    { unfold ROLLBACK; simpl. rewrite Hs. auto. }
    rewrite COMMIT_run; simpl. rewrite Hs.
    destruct (hd false (tl (tl (faults s)))); simpl.
    { unfold ROLLBACK; simpl. rewrite Hs. auto. }
    destruct (live s); unfold set_orders, set_order_ingredients, set_ingredients;
      simpl; auto.
  - unfold increment_availability. rewrite statement_run.
    destruct (hd false (faults s)); simpl.
    { unfold ROLLBACK; simpl. rewrite Hs. auto. }
    match goal with |- context [processNextRestore userId orderId rest ?s1] =>
      specialize (IH s1 t0 Hs) end.
    destruct (processNextRestore _ _ _ _) as [[changes|e] s']; [|exact IH].
    simpl in IH. exact IH.
Qed.

Lemma deleteOrder_spec (userId orderId : Z) (s : Store) :
  match deleteOrder userId orderId s with
  | (Resolved changes, s') =>
      changes = Z.of_nat (List.length
                  (filter (order_matches orderId userId) (orders (live s)))) /\
      live s' = deleted userId orderId (live s) /\
      saved s = None /\ saved s' = None
  | (Rejected _, s') => live s' = live s /\ saved s' = saved s
  end.
Proof.
  unfold deleteOrder. rewrite BEGIN_run.
  destruct (hd false (faults s)); simpl; [auto|].
  destruct (saved s) eqn:Hs; simpl; [auto|].
  unfold select_order_ingredients. rewrite query_run; simpl.
  destruct (hd false (tl (faults s))); simpl; [auto|].
  match goal with |- context [processNextRestore ?u ?o ?l ?s2] =>
    pose proof (@processNextRestore_spec u o l s2 (live s) eq_refl) as H end.
  destruct (processNextRestore _ _ _ _) as [[changes|e] s']; [|exact H].
  simpl in H. destruct H as (-> & Hl & Hsv).
  rewrite Hl. unfold deleted. auto.
Qed.

(** ** Runs without storage faults *)

Lemma processNextRestore_quiet (userId orderId : Z) (rest : list Z) :
  forall (s : Store) (t0 : Tables),
    faults s = [] -> saved s = Some t0 ->
    exists changes s',
      processNextRestore userId orderId rest s = (Resolved changes, s') /\
      faults s' = [].
Proof.
  induction rest as [|ing rest IH]; intros s t0 Hf Hs; simpl.
  - unfold delete_order_ingredients, delete_order_row.
    rewrite statement_run, Hf; simpl.
    rewrite statement_run; simpl. rewrite Hf; simpl.
    rewrite COMMIT_run; simpl. rewrite Hf, Hs; simpl.
    eauto.
  - unfold increment_availability. rewrite statement_run, Hf; simpl.
    apply IH with (t0 := t0); simpl; [rewrite Hf; reflexivity | exact Hs].
Qed.

Lemma deleteOrder_quiet (userId orderId : Z) (s : Store) :
  faults s = [] -> saved s = None ->
  exists changes s',
    deleteOrder userId orderId s = (Resolved changes, s') /\ faults s' = [].
Proof.
  intros Hf Hs. unfold deleteOrder, select_order_ingredients.
  rewrite BEGIN_run, Hf, Hs; simpl.
  rewrite ?query_run; simpl.
  apply processNextRestore_quiet with (t0 := live s); reflexivity.
Qed.

(** Without faults the loop of [createOrder] can only stop on the primary
    key of [order_ingredients]. *)
Lemma processNextIngredient_quiet (id : Z) (rest : list Z) :
  forall (s : Store) (t0 : Tables) (e : DaoError) (s' : Store),
    faults s = [] -> saved s = Some t0 ->
    processNextIngredient id rest s = (Rejected e, s') ->
    e = Failed_to_add_ingredients SQLITE_CONSTRAINT.
Proof.
  induction rest as [|ing rest IH]; intros s t0 e s' Hf Hs; simpl.
  - rewrite COMMIT_run, Hf, Hs; simpl. discriminate.
  - unfold insert_order_ingredient, decrement_availability.
    rewrite statement_run, Hf; simpl.
    destruct (existsb _ _); simpl; [intros [= <- _]; reflexivity|].
    rewrite statement_run; simpl. rewrite Hf; simpl.
    apply IH with (t0 := t0); simpl; [rewrite Hf; reflexivity | exact Hs].
Qed.

Lemma createOrder_quiet (order : OrderRequest) (s : Store) (e : DaoError) (s' : Store) :
  faults s = [] -> saved s = None ->
  createOrder order s = (Rejected e, s') ->
  e = Failed_to_add_ingredients SQLITE_CONSTRAINT.
Proof.
  intros Hf Hs. unfold createOrder, insert_order.
  rewrite BEGIN_run, Hf, Hs; simpl.
  destruct (req_ingredients order) as [|ing rest]; [discriminate|].
  apply processNextIngredient_quiet with (t0 := live s); reflexivity.
Qed.

(** ** A repeated ingredient *)

Lemma existsb_pair_eqb (p : Z * Z) (l : list (Z * Z)) :
  existsb (pair_eqb p) l = true <-> In p l.
Proof.
  rewrite existsb_exists. split.
  - intros (q & Hq & Heq). unfold pair_eqb in Heq.
    apply andb_true_iff in Heq as [H1 H2].
    apply Z.eqb_eq in H1, H2. destruct p, q; simpl in *; subst; exact Hq.
  - intros Hin. exists p. split; [exact Hin|].
    unfold pair_eqb. rewrite !Z.eqb_refl. reflexivity.
Qed.

(** The loop is stopped when an ingredient still to come already has its
    association row, or when one comes twice. *)
Lemma processNextIngredient_repeated (id : Z) (rest : list Z) :
  forall s : Store,
    (exists x, In x rest /\ In (id, x) (order_ingredients (live s))) \/
    ~ NoDup rest ->
    exists e, fst (processNextIngredient id rest s) = Rejected e.
Proof.
  induction rest as [|ing rest IH]; intros s Hbad.
  - destruct Hbad as [(x & [] & _)|Hnd]. destruct Hnd; constructor.
  - simpl. unfold insert_order_ingredient, decrement_availability.
    rewrite statement_run.
    destruct (hd false (faults s)); simpl; [eauto|].
    destruct (existsb _ _) eqn:Hex; simpl; [eauto|].
    rewrite statement_run; simpl.
    destruct (hd false (tl (faults s))); simpl; [eauto|].
    apply IH; simpl.
    assert (Hnew : ~ In (id, ing) (order_ingredients (live s))).
    { intros Hin. apply existsb_pair_eqb in Hin. congruence. }
    destruct Hbad as [(x & [->|Hx] & Hin)|Hnd].
    + contradiction.
    + left. exists x. split; [exact Hx|]. apply in_or_app. left; exact Hin.
    + destruct (in_dec Z.eq_dec ing rest) as [Hin|Hout].
      * left. exists ing. split; [exact Hin|].
        apply in_or_app. right. left. reflexivity.
      * right. intros Hr. apply Hnd. constructor; assumption.
Qed.

Lemma createOrder_repeated (order : OrderRequest) (s : Store) :
  ~ NoDup (req_ingredients order) ->
  exists e, fst (createOrder order s) = Rejected e.
Proof.
  intros Hnd. unfold createOrder, insert_order. rewrite BEGIN_run.
  destruct (hd false (faults s)); simpl; [eauto|].
  destruct (saved s); simpl; [eauto|].
  rewrite statement_run; simpl.
  destruct (hd false (tl (faults s))); simpl; [eauto|].
  destruct (req_ingredients order) as [|ing rest] eqn:Hi.
  - destruct Hnd; constructor.
  - apply processNextIngredient_repeated. right; exact Hnd.
Qed.

(** ** Atomicity of [createOrder] *)

(** C6: [createOrder] is atomic.  Whatever the request, the connection and
    the storage faults met on the way, the call either resolves, and then the
    order row, one association row per ingredient and the conditional
    decrement of every ingredient are committed together, or it rejects
    (the insert of the order, an association insert, a decrement or the
    commit failed), and then the tables are those from before the call: no
    order row, no association row, no availability change. *)
Theorem createOrder_atomic (order : OrderRequest) (s : Store) :
  match createOrder order s with
  | (Resolved id, s') =>
      id = next_order_id (live s) /\
      live s' = created order (live s) /\
      saved s' = None
  | (Rejected _, s') =>
      live s' = live s /\ saved s' = saved s
  end.
Proof.
  pose proof (createOrder_spec order s) as H.
  destruct (createOrder order s) as [[id|e] s']; [|exact H].
  destruct H as (? & ? & _ & ?). auto.
Qed.

(** The three failures the loop can meet do occur: a fault on the insert of
    the order, on the second association insert, on the second decrement. *)
Example createOrder_rolls_back_on_each_failure :
  let order := mkRequest 1 1 2 [1; 2] 8.50 in
  createOrder order (connect seed [false; true])
    = (Rejected (Failed_to_create_order SQLITE_IOERR), connect seed []) /\
  createOrder order (connect seed [false; false; false; false; true])
    = (Rejected (Failed_to_add_ingredients SQLITE_IOERR), connect seed []) /\
  createOrder order (connect seed [false; false; false; false; false; true])
    = (Rejected (Failed_to_update_availability SQLITE_IOERR), connect seed []).
Proof. repeat split. Qed.

(** C10: a request that lists the same ingredient id twice is rejected by
    [createOrder] and nothing of it persists: the tables are those from
    before the call.  On a connection with no storage fault and no open
    transaction the rejection is the primary key of [order_ingredients]
    refusing an association insert. *)
Theorem createOrder_rejects_repeated_ingredient (order : OrderRequest) (s : Store) :
  ~ NoDup (req_ingredients order) ->
  exists e,
    fst (createOrder order s) = Rejected e /\
    live (snd (createOrder order s)) = live s /\
    saved (snd (createOrder order s)) = saved s /\
    (faults s = [] -> saved s = None ->
     e = Failed_to_add_ingredients SQLITE_CONSTRAINT).
Proof.
  intros Hnd. destruct (createOrder_repeated order s Hnd) as [e He].
  exists e. pose proof (createOrder_spec order s) as H.
  destruct (createOrder order s) as [[id|e'] s'] eqn:Hc; simpl in *;
    [discriminate|].
  injection He as ->. destruct H as [Hl Hs].
  repeat split; try assumption.
  intros Hf Hn. exact (createOrder_quiet order s Hf Hn Hc).
Qed.

Lemma createOrder_rejects_repeated_ingredient_witness :
  ~ NoDup [8; 8] /\
  exists e,
    fst (createOrder (mkRequest 1 1 1 [8; 8] 8.00) (connect seed [])) = Rejected e /\
    live (snd (createOrder (mkRequest 1 1 1 [8; 8] 8.00) (connect seed []))) = seed /\
    saved (snd (createOrder (mkRequest 1 1 1 [8; 8] 8.00) (connect seed []))) = None /\
    (@nil bool = [] -> @None Tables = None ->
     e = Failed_to_add_ingredients SQLITE_CONSTRAINT).
Proof.
  assert (H : ~ NoDup [8; 8]).
  { intros Hnd. apply NoDup_cons_iff in Hnd. destruct Hnd as [Hn _].
    apply Hn. left. reflexivity. }
  split; [exact H|].
  exact (createOrder_rejects_repeated_ingredient
           (mkRequest 1 1 1 [8; 8] 8.00) (connect seed []) H).
Defined.

(** ** The inventory invariant *)

Lemma reserve_row_nonneg (ing : Z) (r : Ingredient) :
  nonneg r -> nonneg (reserve_row ing r).
Proof.
  unfold nonneg, reserve_row. destruct (availability r) as [a|] eqn:Ha.
  - destruct ((ing_id r =? ing) && (a >? 0)) eqn:Hc; simpl.
    + apply andb_true_iff in Hc as [_ Hpos]. apply Z.gtb_lt in Hpos. lia.
    + rewrite Ha. auto.
  - rewrite Ha. auto.
Qed.

Lemma release_row_nonneg (ing : Z) (r : Ingredient) :
  nonneg r -> nonneg (release_row ing r).
Proof.
  unfold nonneg, release_row. destruct (availability r) as [a|] eqn:Ha.
  - destruct (ing_id r =? ing); simpl; [lia | rewrite Ha; auto].
  - rewrite Ha. auto.
Qed.

Lemma reserve_row_unlimited (ing : Z) (r : Ingredient) :
  ing_id (reserve_row ing r) = ing_id r /\
  (availability r = None -> reserve_row ing r = r).
Proof.
  unfold reserve_row. destruct (availability r) as [a|].
  - destruct ((ing_id r =? ing) && (a >? 0)); simpl; split; congruence.
  - auto.
Qed.

Lemma release_row_unlimited (ing : Z) (r : Ingredient) :
  ing_id (release_row ing r) = ing_id r /\
  (availability r = None -> release_row ing r = r).
Proof.
  unfold release_row. destruct (availability r) as [a|].
  - destruct (ing_id r =? ing); simpl; split; congruence.
  - auto.
Qed.

Section RowByRow.
(** A fold of row-wise updates, as both loops run them. *)
Variable step : Z -> Ingredient -> Ingredient.
Hypothesis step_nonneg : forall ing r, nonneg r -> nonneg (step ing r).
Hypothesis step_unlimited : forall ing r,
  ing_id (step ing r) = ing_id r /\ (availability r = None -> step ing r = r).

Lemma fold_rows_nonneg (ings : list Z) :
  forall rows, Forall nonneg rows -> Forall nonneg (fold_left (fun rows ing => map (step ing) rows) ings rows).
Proof.
  induction ings as [|ing ings IH]; intros rows H; simpl; [exact H|].
  apply IH. apply Forall_map. revert H. apply Forall_impl.
  intros r. apply step_nonneg.
Qed.

Lemma unlimited_untouched_refl (rows : list Ingredient) :
  unlimited_untouched rows rows.
Proof. induction rows; constructor; auto. Qed.

Lemma unlimited_untouched_step (ing : Z) (before rows : list Ingredient) :
  unlimited_untouched before rows ->
  unlimited_untouched before (map (step ing) rows).
Proof.
  induction 1 as [|r r' before rows [Hid Hnone] _ IH]; simpl; constructor.
  - destruct (step_unlimited ing r') as [Hid' Hnone']. split.
    + congruence.
    + intros Hr. specialize (Hnone Hr). subst r'. auto.
  - exact IH.
Qed.

Lemma fold_rows_unlimited (ings : list Z) :
  forall before rows,
    unlimited_untouched before rows ->
    unlimited_untouched before
      (fold_left (fun rows ing => map (step ing) rows) ings rows).
Proof.
  induction ings as [|ing ings IH]; intros before rows H; simpl; [exact H|].
  apply IH. apply unlimited_untouched_step. exact H.
Qed.
End RowByRow.

Lemma reserve_all_invariant (ings : list Z) (rows : list Ingredient) :
  (Forall nonneg rows -> Forall nonneg (reserve_all ings rows)) /\
  unlimited_untouched rows (reserve_all ings rows).
Proof.
  split.
  - apply (fold_rows_nonneg reserve_row reserve_row_nonneg).
  - apply (fold_rows_unlimited reserve_row reserve_row_unlimited).
    apply unlimited_untouched_refl.
Qed.

Lemma release_all_invariant (ings : list Z) (rows : list Ingredient) :
  (Forall nonneg rows -> Forall nonneg (release_all ings rows)) /\
  unlimited_untouched rows (release_all ings rows).
Proof.
  split.
  - apply (fold_rows_nonneg release_row release_row_nonneg).
  - apply (fold_rows_unlimited release_row release_row_unlimited).
    apply unlimited_untouched_refl.
Qed.

Lemma createOrder_ingredients (order : OrderRequest) (s : Store) :
  ingredients (live (snd (createOrder order s))) = ingredients (live s) \/
  ingredients (live (snd (createOrder order s)))
    = reserve_all (req_ingredients order) (ingredients (live s)).
Proof.
  pose proof (createOrder_spec order s) as H.
  destruct (createOrder order s) as [[id|e] s']; simpl.
  - right. destruct H as (_ & -> & _). reflexivity.
  - left. destruct H as [-> _]. reflexivity.
Qed.

Lemma deleteOrder_ingredients (userId orderId : Z) (s : Store) :
  ingredients (live (snd (deleteOrder userId orderId s))) = ingredients (live s) \/
  ingredients (live (snd (deleteOrder userId orderId s)))
    = release_all (select_second orderId (order_ingredients (live s)))
        (ingredients (live s)).
Proof.
  pose proof (deleteOrder_spec userId orderId s) as H.
  destruct (deleteOrder userId orderId s) as [[n|e] s']; simpl.
  - right. destruct H as (_ & -> & _). reflexivity.
  - left. destruct H as [-> _]. reflexivity.
Qed.

(** C7: both engine operations keep the inventory invariant.  From tables
    where no tracked availability is negative, [createOrder] and
    [deleteOrder] end (resolved or rejected, whatever the faults) in tables
    where none is negative either, and so does each of the two UPDATE
    statements on its own; and every unlimited ingredient (availability NULL)
    is the very same row afterwards: neither decremented by a reservation nor
    incremented by a release. *)
Theorem inventory_invariant_preserved
    (order : OrderRequest) (userId orderId ing : Z) (s : Store) :
  availability_nonneg (live s) ->
  let after_create := live (snd (createOrder order s)) in
  let after_delete := live (snd (deleteOrder userId orderId s)) in
  let after_decrement := live (snd (decrement_availability ing s)) in
  let after_increment := live (snd (increment_availability ing s)) in
  (availability_nonneg after_create /\
   unlimited_untouched (ingredients (live s)) (ingredients after_create)) /\
  (availability_nonneg after_delete /\
   unlimited_untouched (ingredients (live s)) (ingredients after_delete)) /\
  (availability_nonneg after_decrement /\
   unlimited_untouched (ingredients (live s)) (ingredients after_decrement)) /\
  (availability_nonneg after_increment /\
   unlimited_untouched (ingredients (live s)) (ingredients after_increment)).
Proof.
  unfold availability_nonneg. intros Hinv; cbv zeta.
  repeat apply conj.
  - destruct (createOrder_ingredients order s) as [-> | ->];
      [exact Hinv | apply reserve_all_invariant; exact Hinv].
  - destruct (createOrder_ingredients order s) as [-> | ->];
      [apply unlimited_untouched_refl | apply reserve_all_invariant].
  - destruct (deleteOrder_ingredients userId orderId s) as [-> | ->];
      [exact Hinv | apply release_all_invariant; exact Hinv].
  - destruct (deleteOrder_ingredients userId orderId s) as [-> | ->];
      [apply unlimited_untouched_refl | apply release_all_invariant].
  - unfold decrement_availability. rewrite statement_run.
    destruct (hd false (faults s)); simpl; [exact Hinv|].
    apply (reserve_all_invariant [ing]); exact Hinv.
  - unfold decrement_availability. rewrite statement_run.
    destruct (hd false (faults s)); simpl; [apply unlimited_untouched_refl|].
    apply (reserve_all_invariant [ing]).
  - unfold increment_availability. rewrite statement_run.
    destruct (hd false (faults s)); simpl; [exact Hinv|].
    apply (release_all_invariant [ing]); exact Hinv.
  - unfold increment_availability. rewrite statement_run.
    destruct (hd false (faults s)); simpl; [apply unlimited_untouched_refl|].
    apply (release_all_invariant [ing]).
Qed.

Lemma seed_availability_nonneg : availability_nonneg seed.
Proof.
  unfold availability_nonneg, seed; simpl.
  repeat constructor; unfold nonneg; simpl; lia.
Defined.

Lemma inventory_invariant_preserved_witness :
  availability_nonneg (live (connect seed [])) /\
  availability_nonneg
    (live (snd (createOrder (mkRequest 1 1 2 [1; 2] 8.50) (connect seed [])))).
Proof.
  split; [exact seed_availability_nonneg|].
  exact (proj1 (proj1 (inventory_invariant_preserved
                         (mkRequest 1 1 2 [1; 2] 8.50) 1 2 1 (connect seed [])
                         seed_availability_nonneg))).
Defined.

(** ** Deleting an order of another user *)

(** C1: the code at the failing input.  Order 3 of the seed belongs to user
    2 and holds Mushrooms, Ham and Olives.  [deleteOrder 1 3], user 1 asking,
    resolves with 0 rows affected, the handler answers 404, and the order row
    stays in place; yet the call has raised the availability of Mushrooms from
    3 to 4 and of Ham from 2 to 3, and has removed the three association rows
    of the order.  The claim asks for no change of either. *)
Theorem deleteOrder_of_another_user_releases_stock :
  let s' := snd (deleteOrder 1 3 (connect seed [])) in
  fst (deleteOrder 1 3 (connect seed [])) = Resolved 0 /\
  delete_orders 1 3 (connect seed []) = (Delete404, s') /\
  orders (live s') = orders seed /\
  (availability_of 3 seed = Some (Some 3) /\
   availability_of 3 (live s') = Some (Some 4)) /\
  (availability_of 4 seed = Some (Some 2) /\
   availability_of 4 (live s') = Some (Some 3)) /\
  (select_second 3 (order_ingredients seed) = [3; 4; 5] /\
   select_second 3 (order_ingredients (live s')) = []).
Proof. vm_compute. repeat split. Qed.

(** ** The handler's reads *)

Lemma bind_inr (A B : Type) (h : Handler A) (k : A -> Handler B)
    (s s' : Store) (b : B) :
  bind h k s = (inr b, s') ->
  exists a s1, h s = (inr a, s1) /\ k a s1 = (inr b, s').
Proof.
  unfold bind. destruct (h s) as [[r|a] s1]; [discriminate|]. eauto.
Qed.

Lemma await_query_run (A : Type) (f : Tables -> A) (s : Store) :
  await (query f) s =
  if hd false (faults s) then (inl Status503, after s (live s))
  else (inr (f (live s)), after s (live s)).
Proof.
  unfold await. rewrite query_run. destruct (hd false (faults s)); reflexivity.
Qed.

Lemma checks_only_ret (A : Type) (a : A) : checks_only (ret a).
Proof. intros s. simpl. repeat split; auto. discriminate. Qed.

Lemma checks_only_respond (A : Type) (r : Response) :
  (forall id, r <> Status200 id) -> checks_only (@respond A r).
Proof. intros Hr s. simpl. repeat split; auto. intros id [= E]. exact (Hr id E). Qed.

Lemma checks_only_await_query (A : Type) (f : Tables -> A) :
  checks_only (await (query f)).
Proof.
  intros s. rewrite await_query_run.
  destruct (hd false (faults s)); simpl; repeat split; auto;
    try discriminate; intros ->; reflexivity.
Qed.

Lemma checks_only_bind (A B : Type) (h : Handler A) (k : A -> Handler B) :
  checks_only h -> (forall a, checks_only (k a)) -> checks_only (bind h k).
Proof.
  intros Hh Hk s. unfold bind.
  destruct (Hh s) as (Hl & Hs & Hf & Hr).
  destruct (h s) as [[r|a] s1]; simpl in *.
  - repeat split; auto. intros id [= E]. exact (Hr id (f_equal inl E)).
  - destruct (Hk a s1) as (Hl' & Hs' & Hf' & Hr').
    repeat split; [congruence | congruence | auto | exact Hr'].
Qed.

Ltac answers_400 := apply checks_only_respond; intros ?; discriminate.

Lemma checks_only_check_dependencies (ids : list Z) (rows : list Ingredient)
    (ings : list Z) :
  checks_only (check_dependencies ids rows ings).
Proof.
  induction ings as [|ing ings IH]; simpl.
  - apply checks_only_ret.
  - apply checks_only_bind; [apply checks_only_await_query|].
    intros deps. destruct (find _ deps) as [depId|]; [|exact IH].
    destruct (find_ingredient rows depId).
    + answers_400.
    + apply checks_only_bind; [apply checks_only_await_query|].
      intros missing. answers_400.
Qed.

Lemma checks_only_check_incompatibilities (ids : list Z) (rows : list Ingredient)
    (ings : list Z) :
  checks_only (check_incompatibilities ids rows ings).
Proof.
  induction ings as [|ing ings IH]; simpl.
  - apply checks_only_ret.
  - apply checks_only_bind; [apply checks_only_await_query|].
    intros incs. destruct (find _ incs); [answers_400 | exact IH].
Qed.

Lemma checks_only_validate_ingredients (order : OrderRequest) (sizeInfo : Size) :
  checks_only (validate_ingredients order sizeInfo).
Proof.
  unfold validate_ingredients.
  destruct (req_ingredients order) as [|i l] eqn:Hi; [apply checks_only_ret|].
  apply checks_only_bind; [apply checks_only_await_query|].
  intros rows. destruct (existence_and_availability rows (i :: l));
    [answers_400|].
  destruct (_ >? _); [answers_400|].
  apply checks_only_bind;
    [apply checks_only_check_dependencies
    |intros _; apply checks_only_check_incompatibilities].
Qed.

Lemma checks_only_validate (order : OrderRequest) : checks_only (validate order).
Proof.
  unfold validate.
  apply checks_only_bind; [apply checks_only_await_query|].
  intros [d|]; [|answers_400].
  apply checks_only_bind; [apply checks_only_await_query|].
  intros [z|]; [|answers_400].
  apply checks_only_validate_ingredients.
Qed.

Lemma checks_only_final_check (order : OrderRequest) :
  checks_only (final_check order).
Proof.
  unfold final_check.
  destruct (req_ingredients order) as [|i l]; [apply checks_only_ret|].
  apply checks_only_bind; [apply checks_only_await_query|].
  intros rows. destruct (existence_and_availability rows (i :: l));
    [answers_400 | apply checks_only_ret].
Qed.

(** ** The existence and availability loop *)

Lemma find_ingredient_filter (ids : list Z) (rows : list Ingredient) (x : Z) :
  In x ids ->
  find_ingredient (filter (fun r => includes ids (ing_id r)) rows) x
  = find_ingredient rows x.
Proof.
  intros Hx. unfold find_ingredient.
  induction rows as [|r rows IH]; simpl; [reflexivity|].
  destruct (ing_id r =? x) eqn:Heq.
  - apply Z.eqb_eq in Heq.
    assert (Hinc : includes ids (ing_id r) = true).
    { unfold includes. apply existsb_exists. exists x. split; [exact Hx|].
      apply Z.eqb_eq. exact Heq. }
    rewrite Hinc. simpl. apply Z.eqb_eq in Heq. rewrite Heq. reflexivity.
  - destruct (includes ids (ing_id r)); simpl; [rewrite Heq|]; exact IH.
Qed.

Lemma existence_and_availability_filter (ids : list Z) (rows : list Ingredient)
    (ings : list Z) :
  incl ings ids ->
  existence_and_availability (filter (fun r => includes ids (ing_id r)) rows) ings
  = existence_and_availability rows ings.
Proof.
  induction ings as [|x ings IH]; intros Hincl; simpl; [reflexivity|].
  rewrite find_ingredient_filter by (apply Hincl; left; reflexivity).
  rewrite IH by (intros y Hy; apply Hincl; right; exact Hy).
  reflexivity.
Qed.

(** The fetched rows give the loop what the whole table would. *)
Lemma fetched_rows_suffice (t : Tables) (ings : list Z) :
  existence_and_availability
    (filter (fun r => includes ings (ing_id r)) (ingredients t)) ings
  = existence_and_availability (ingredients t) ings.
Proof. apply existence_and_availability_filter. apply incl_refl. Qed.

Lemma final_check_run (order : OrderRequest) (s : Store) :
  final_check order s =
  match req_ingredients order with
  | [] => (inr tt, s)
  | _ =>
      if hd false (faults s) then (inl Status503, after s (live s))
      else match existence_and_availability (ingredients (live s))
                   (req_ingredients order) with
           | Some v => (inl (Status400 (Invalid v)), after s (live s))
           | None => (inr tt, after s (live s))
           end
  end.
Proof.
  unfold final_check.
  destruct (req_ingredients order) as [|i l] eqn:Hi; [reflexivity|].
  unfold bind, getIngredientsByIds. rewrite await_query_run.
  destruct (hd false (faults s)); [reflexivity|].
  rewrite fetched_rows_suffice.
  destruct (existence_and_availability _ _); reflexivity.
Qed.

(** What a passed loop says of each candidate. *)
Lemma existence_and_availability_passed (rows : list Ingredient) (ings : list Z) :
  existence_and_availability rows ings = None <->
  forall x, In x ings ->
    exists r, find_ingredient rows x = Some r /\ availability r <> Some 0.
Proof.
  induction ings as [|y ings IH]; simpl.
  - split; [intros _ x []|reflexivity].
  - destruct (find_ingredient rows y) as [r|] eqn:Hf.
    + assert (Hgo : availability r <> Some 0 ->
                    (existence_and_availability rows ings = None <->
                     forall x, y = x \/ In x ings ->
                       exists r0, find_ingredient rows x = Some r0 /\
                                  availability r0 <> Some 0)).
      { intros Hr. rewrite IH. split.
        - intros H x [<-|Hx]; [exists r; auto | auto].
        - intros H x Hx. apply H. right; exact Hx. }
      assert (Hstop : availability r = Some 0 ->
                      ~ (forall x, y = x \/ In x ings ->
                           exists r0, find_ingredient rows x = Some r0 /\
                                      availability r0 <> Some 0)).
      { intros Hr H. destruct (H y (or_introl eq_refl)) as (r' & Hr1 & Hr2).
        rewrite Hf in Hr1. injection Hr1 as <-. contradiction. }
      destruct (availability r) as [[|p|p]|].
      * split; [discriminate|]. intros H. destruct (Hstop eq_refl H).
      * apply Hgo. discriminate.
      * apply Hgo. discriminate.
      * apply Hgo. discriminate.
    + split; [discriminate|]. intros H.
      destruct (H y (or_introl eq_refl)) as (r' & Hr' & _). congruence.
Qed.

(** ** What a passed validation says *)

Lemma await_query_inr (A : Type) (f : Tables -> A) (s s1 : Store) (a : A) :
  await (query f) s = (inr a, s1) ->
  a = f (live s) /\ live s1 = live s /\ saved s1 = saved s.
Proof.
  rewrite await_query_run. destruct (hd false (faults s)); [discriminate|].
  intros [= <- <-]. auto.
Qed.

Lemma includes_In (ids : list Z) (x : Z) : includes ids x = true <-> In x ids.
Proof.
  unfold includes. rewrite existsb_exists. split.
  - intros (y & Hy & Heq). apply Z.eqb_eq in Heq. subst; exact Hy.
  - intros Hx. exists x. split; [exact Hx | apply Z.eqb_refl].
Qed.

Lemma select_second_In (key v : Z) (rows : list (Z * Z)) :
  In v (select_second key rows) <-> In (key, v) rows.
Proof.
  unfold select_second. rewrite ascending_In, in_map_iff. split.
  - intros ([k v'] & Hv & Hin). apply filter_In in Hin as [Hin Hk].
    simpl in *. apply Z.eqb_eq in Hk. subst. exact Hin.
  - intros Hin. exists (key, v). split; [reflexivity|].
    apply filter_In. split; [exact Hin | apply Z.eqb_refl].
Qed.

Lemma check_incompatibilities_passed (ids : list Z) (rows : list Ingredient)
    (ings : list Z) :
  forall s s',
    check_incompatibilities ids rows ings s = (inr tt, s') ->
    forall a b, In a ings -> In b ids ->
      ~ In (a, b) (ingredient_incompatibilities (live s)).
Proof.
  induction ings as [|ing ings IH]; intros s s' Hrun a b Ha Hb; [destruct Ha|].
  simpl in Hrun. apply bind_inr in Hrun as (incs & s1 & Hq & Hrest).
  apply await_query_inr in Hq as (-> & Hl & _).
  destruct (find _ _) as [incompId|] eqn:Hfind; [discriminate|].
  destruct Ha as [<-|Ha].
  - intros Hrow. apply select_second_In in Hrow.
    pose proof (find_none _ _ Hfind _ Hrow) as Hno.
    apply includes_In in Hb. congruence.
  - rewrite <- Hl. exact (IH _ _ Hrest a b Ha Hb).
Qed.

Lemma check_dependencies_passed (ids : list Z) (rows : list Ingredient)
    (ings : list Z) :
  forall s s',
    check_dependencies ids rows ings s = (inr tt, s') ->
    forall a d, In a ings -> In (a, d) (ingredient_dependencies (live s)) ->
      In d ids.
Proof.
  induction ings as [|ing ings IH]; intros s s' Hrun a d Ha Hd; [destruct Ha|].
  simpl in Hrun. apply bind_inr in Hrun as (deps & s1 & Hq & Hrest).
  apply await_query_inr in Hq as (-> & Hl & _).
  destruct (find _ _) as [depId|] eqn:Hfind.
  - destruct (find_ingredient rows depId); [discriminate|].
    apply bind_inr in Hrest as (m & s2 & _ & Hr). discriminate.
  - destruct Ha as [<-|Ha].
    + apply select_second_In in Hd.
      pose proof (find_none _ _ Hfind _ Hd) as Hno.
      apply negb_false_iff in Hno. apply includes_In. exact Hno.
    + rewrite <- Hl in Hd. exact (IH _ _ Hrest a d Ha Hd).
Qed.

(** A passed validation found the dish and the size and, for a request with
    ingredients, ran the four ingredient checks on the tables of [s]. *)
Lemma validate_passed (order : OrderRequest) (s s' : Store) :
  validate order s = (inr tt, s') ->
  exists dishInfo sizeInfo,
    find (fun d => dish_id d =? dishId order) (basedishes (live s)) = Some dishInfo /\
    find (fun z => size_id z =? sizeId order) (sizes (live s)) = Some sizeInfo /\
    (req_ingredients order = [] \/
     exists rows sd si,
       existence_and_availability (ingredients (live s)) (req_ingredients order) = None /\
       Z.of_nat (List.length (req_ingredients order)) <= max_ingredients sizeInfo /\
       live sd = live s /\ live si = live s /\
       check_dependencies (req_ingredients order) rows (req_ingredients order) sd
         = (inr tt, si) /\
       check_incompatibilities (req_ingredients order) rows (req_ingredients order) si
         = (inr tt, s')).
Proof.
  unfold validate, getDishById, getSizeById. intros Hrun.
  apply bind_inr in Hrun as (dishInfo & s1 & Hq1 & Hrun).
  apply await_query_inr in Hq1 as (-> & Hl1 & _).
  destruct (find _ (basedishes (live s))) as [d|] eqn:Hd; [|discriminate].
  apply bind_inr in Hrun as (sizeInfo & s2 & Hq2 & Hrun).
  apply await_query_inr in Hq2 as (-> & Hl2 & _).
  rewrite Hl1 in *.
  destruct (find _ (sizes (live s))) as [z|] eqn:Hz; [|discriminate].
  exists d, z. repeat split.
  unfold validate_ingredients in Hrun.
  destruct (req_ingredients order) as [|i l] eqn:Hi; [left; reflexivity|right].
  apply bind_inr in Hrun as (rows & s3 & Hq3 & Hrun).
  unfold getIngredientsByIds in Hq3.
  apply await_query_inr in Hq3 as (Hrows & Hl3 & _).
  destruct (existence_and_availability rows (i :: l)) eqn:He; [discriminate|].
  destruct (_ >? _) eqn:Hsize; [discriminate|].
  apply bind_inr in Hrun as ([] & s4 & Hdeps & Hinc).
  exists rows, s3, s4. repeat split; try assumption.
  - rewrite <- He, Hrows, Hl2. symmetry. apply fetched_rows_suffice.
  - rewrite Z.gtb_ltb in Hsize. apply Z.ltb_ge in Hsize. exact Hsize.
  - congruence.
  - pose proof (checks_only_check_dependencies (i :: l) rows (i :: l) s3) as H.
    rewrite Hdeps in H. simpl in H. destruct H as (H & _). congruence.
Qed.

(** C9: incompatibility is enforced as an undirected relation.  When the
    validation of a request passes, then for any two ingredients [a] and [b]
    of the request the catalog holds neither the row [(a, b)] nor the row
    [(b, a)] of [ingredient_incompatibilities]: every candidate has its own
    [ingredient1_id] rows looked up, so each direction is met when the loop
    reaches its first component, whatever the order of the list. *)
Theorem accepted_candidates_have_no_incompatible_pair
    (order : OrderRequest) (s s' : Store) :
  validate order s = (inr tt, s') ->
  forall a b,
    In a (req_ingredients order) -> In b (req_ingredients order) ->
    ~ In (a, b) (ingredient_incompatibilities (live s)) /\
    ~ In (b, a) (ingredient_incompatibilities (live s)).
Proof.
  intros Hrun a b Ha Hb.
  destruct (validate_passed order s Hrun) as (d & z & _ & _ & [Hnil|Hchecks]).
  - rewrite Hnil in Ha. destruct Ha.
  - destruct Hchecks as (rows & sd & si & _ & _ & _ & Hl & _ & Hinc).
    rewrite <- Hl. split.
    + exact (check_incompatibilities_passed _ _ _ _ Hinc a b Ha Hb).
    + exact (check_incompatibilities_passed _ _ _ _ Hinc b a Hb Ha).
Qed.

Lemma accepted_candidates_have_no_incompatible_pair_witness :
  validate (mkRequest 1 1 2 [1; 2; 5] 9.20) (connect seed [])
    = (inr tt, connect seed []) /\
  forall a b,
    In a [1; 2; 5] -> In b [1; 2; 5] ->
    ~ In (a, b) (ingredient_incompatibilities seed) /\
    ~ In (b, a) (ingredient_incompatibilities seed).
Proof.
  split; [reflexivity|].
  exact (accepted_candidates_have_no_incompatible_pair
           (mkRequest 1 1 2 [1; 2; 5] 9.20) (connect seed []) eq_refl).
Defined.

(** ** An accepted request *)

(** The only way to a 200 answer: validators, validation and final check
    passed on the tables of [s], then [createOrder] resolved on them. *)
Lemma post_orders_accepted (order : OrderRequest) (s s' : Store) (id : Z) :
  post_orders order s = (Status200 id, s') ->
  exists s1 s2,
    validators order = true /\
    validate order s = (inr tt, s1) /\
    final_check order s1 = (inr tt, s2) /\
    createOrder order s2 = (Resolved id, s') /\
    live s1 = live s /\ live s2 = live s /\
    (faults s = [] -> faults s2 = []).
Proof.
  unfold post_orders. destruct (validators order); [|discriminate].
  unfold bind, persist, await_createOrder, ret.
  destruct (checks_only_validate order s) as (Hl1 & _ & Hf1 & Hr1).
  destruct (validate order s) as [[r|[]] s1] eqn:Hv1; simpl in *.
  { intros [= -> _]. destruct (Hr1 id eq_refl). }
  destruct (checks_only_final_check order s1) as (Hl2 & _ & Hf2 & Hr2).
  destruct (final_check order s1) as [[r|[]] s2] eqn:Hv2; simpl in *.
  { intros [= -> _]. destruct (Hr2 id eq_refl). }
  unfold bind. destruct (createOrder order s2) as [[id'|e] s3] eqn:Hc; simpl.
  - intros [= -> ->]. exists s1, s2. repeat split; auto; congruence.
  - discriminate.
Qed.

Lemma commit_phase_accepted (order : OrderRequest) (s s' : Store) (id : Z) :
  commit_phase order s = (Status200 id, s') ->
  exists s2,
    final_check order s = (inr tt, s2) /\
    createOrder order s2 = (Resolved id, s') /\
    live s2 = live s.
Proof.
  unfold commit_phase, bind, persist, await_createOrder, ret.
  destruct (checks_only_final_check order s) as (Hl2 & _ & _ & Hr2).
  destruct (final_check order s) as [[r|[]] s2] eqn:Hv2; simpl in *.
  { intros [= -> _]. destruct (Hr2 id eq_refl). }
  unfold bind. destruct (createOrder order s2) as [[id'|e] s3] eqn:Hc; simpl.
  - intros [= -> ->]. exists s2. auto.
  - discriminate.
Qed.

(** ** The total of an order *)

(** C3, as stated, fails: for dish 1, size Small and the ingredients Tomatoes
    and Olives the catalog gives 5.00 + 0.50 + 0.70, yet a request with total
    0 is accepted and the order row keeps total 0. *)
Lemma persisted_total_is_not_the_catalog_total :
  let order := mkRequest 1 1 1 [2; 5] 0 in
  let answered := post_orders order (connect seed []) in
  fst answered = Status200 5 /\
  orders (live (snd answered)) = (orders seed ++ [mkOrder 5 1 1 1 0])%list /\
  exists price, catalog_total seed order = Some price /\
                (price == 6.20)%Q /\ ~ (0 == price)%Q.
Proof.
  cbv zeta. repeat split.
  eexists. split; [reflexivity|]. split; [reflexivity|].
  intros H. vm_compute in H. discriminate.
Qed.

(** C3, amended: for every request the handler accepts, the order row that
    is persisted carries the total sent in the request, a number from 0 on;
    the server does not derive it from the catalog. *)
Theorem accepted_order_stores_the_requested_total
    (order : OrderRequest) (s s' : Store) (id : Z) :
  post_orders order s = (Status200 id, s') ->
  orders (live s')
    = (orders (live s) ++
       [mkOrder id (req_user_id order) (dishId order) (sizeId order)
          (req_total order)])%list /\
  (0 <= req_total order)%Q.
Proof.
  intros Hrun.
  destruct (post_orders_accepted order s Hrun)
    as (s1 & s2 & Hv & _ & _ & Hc & _ & Hl2 & _).
  pose proof (createOrder_spec order s2) as H. rewrite Hc in H.
  destruct H as (-> & -> & _). rewrite Hl2. split; [reflexivity|].
  unfold validators in Hv. apply andb_true_iff in Hv as [_ Hq].
  apply Qle_bool_iff. exact Hq.
Qed.

Lemma accepted_order_stores_the_requested_total_witness :
  post_orders (mkRequest 1 1 2 [1; 2; 5] 9.20) (connect seed [])
    = (Status200 5, connect (created (mkRequest 1 1 2 [1; 2; 5] 9.20) seed) []) /\
  orders (created (mkRequest 1 1 2 [1; 2; 5] 9.20) seed)
    = (orders seed ++ [mkOrder 5 1 1 2 9.20])%list /\
  (0 <= 9.20)%Q.
Proof.
  assert (H : post_orders (mkRequest 1 1 2 [1; 2; 5] 9.20) (connect seed [])
              = (Status200 5,
                 connect (created (mkRequest 1 1 2 [1; 2; 5] 9.20) seed) []))
    by (vm_compute; reflexivity).
  split; [exact H|].
  exact (accepted_order_stores_the_requested_total _ _ H).
Defined.

(** ** What is checked again at commit time *)

(** C2, as stated, fails: from the final check on, the handler does not look
    at the size cap, the dependencies or the incompatibilities.  A request of
    four ingredients for the Small size passed the validation while the cap
    was 4; with the cap at 3 (the seed) the validation answers that Small
    dishes can only have up to 3 ingredients, yet the commit-time part of the
    handler persists the order.  Likewise Mozzarella without Tomatoes, and
    Eggs with Mushrooms, are persisted by it. *)
Lemma commit_phase_skips_size_dependency_incompatibility :
  let four := mkRequest 1 1 1 [2; 5; 10; 11] 6.90 in
  let lonely := mkRequest 1 1 1 [1] 6.00 in
  let clash := mkRequest 1 1 1 [7; 3] 6.80 in
  (validation_phase four (connect (seed_with_small_of 4) [])
     = (inr tt, connect (seed_with_small_of 4) []) /\
   fst (validate four (connect seed []))
     = inl (Status400 (Invalid (Size_limit "Small" 3))) /\
   commit_phase four (connect seed [])
     = (Status200 5, connect (created four seed) [])) /\
  (fst (validate lonely (connect seed []))
     = inl (Status400 (Invalid (Requires "Mozzarella" "Tomatoes"))) /\
   commit_phase lonely (connect seed [])
     = (Status200 5, connect (created lonely seed) [])) /\
  (fst (validate clash (connect seed []))
     = inl (Status400 (Invalid (Incompatible_with "Eggs" "Mushrooms"))) /\
   commit_phase clash (connect seed [])
     = (Status200 5, connect (created clash seed) [])).
Proof. vm_compute. repeat split. Qed.

(** The two reasons the loop can stop with. *)
Lemma existence_and_availability_stopped (rows : list Ingredient) (ings : list Z)
    (v : Violation) :
  existence_and_availability rows ings = Some v ->
  (exists id, In id ings /\ find_ingredient rows id = None /\
              v = Ingredient_not_found id) \/
  (exists id r, In id ings /\ find_ingredient rows id = Some r /\
                availability r = Some 0 /\ v = Not_available (ing_name r)).
Proof.
  induction ings as [|y ings IH]; simpl; [discriminate|].
  destruct (find_ingredient rows y) as [r|] eqn:Hf.
  - assert (Hgo : existence_and_availability rows ings = Some v ->
                  (exists id, (y = id \/ In id ings) /\
                              find_ingredient rows id = None /\
                              v = Ingredient_not_found id) \/
                  (exists id r0, (y = id \/ In id ings) /\
                                 find_ingredient rows id = Some r0 /\
                                 availability r0 = Some 0 /\
                                 v = Not_available (ing_name r0))).
    { intros H. destruct (IH H) as [(id & Hin & Hrest)|(id & r0 & Hin & Hrest)].
      - left. exists id. auto.
      - right. exists id, r0. auto. }
    destruct (availability r) as [[|p|p]|] eqn:Ha; try exact Hgo.
    intros [= <-]. right. exists y, r. auto.
  - intros [= <-]. left. exists y. auto.
Qed.

(** C2, amended: at commit time the handler runs the existence and the
    availability check again, and only these two, against the tables as they
    are then.  When a candidate of the request is not in [ingredients], or is
    there with availability 0, the commit-time part of the handler answers
    400 with that reason (or 503 on a storage fault), never 200, and the
    tables are left as they were: the order is not persisted. *)
Theorem commit_phase_rechecks_existence_and_availability
    (order : OrderRequest) (s : Store) (x : Z) :
  In x (req_ingredients order) ->
  (forall r, find_ingredient (ingredients (live s)) x = Some r ->
             availability r = Some 0) ->
  (fst (commit_phase order s) = Status503 \/
   exists v, fst (commit_phase order s) = Status400 (Invalid v) /\
             ((exists id, v = Ingredient_not_found id) \/
              (exists name, v = Not_available name))) /\
  live (snd (commit_phase order s)) = live s /\
  saved (snd (commit_phase order s)) = saved s.
Proof.
  intros Hx Hbad.
  destruct (existence_and_availability (ingredients (live s))
              (req_ingredients order)) as [v|] eqn:He.
  - assert (Hv : (exists id, v = Ingredient_not_found id) \/
                 (exists name, v = Not_available name)).
    { destruct (existence_and_availability_stopped _ _ He)
        as [(id & _ & _ & ->)|(id & r & _ & _ & _ & ->)]; eauto. }
    unfold commit_phase, bind. rewrite final_check_run.
    destruct (req_ingredients order) as [|i l] eqn:Hi; [destruct Hx|].
    destruct (hd false (faults s)); [simpl; auto|].
    rewrite He. simpl. split; [|auto]. right. exists v. auto.
  - exfalso.
    destruct (proj1 (existence_and_availability_passed _ _) He x Hx)
      as (r & Hr & Hnz).
    exact (Hnz (Hbad r Hr)).
Qed.

Lemma commit_phase_rechecks_existence_and_availability_witness :
  In 8 [10; 8] /\
  (forall r, find_ingredient (ingredients anchovies_sold) 8 = Some r ->
             availability r = Some 0) /\
  fst (commit_phase (mkRequest 1 1 1 [10; 8] 6.90) (connect anchovies_sold []))
    = Status400 (Invalid (Not_available "Anchovies")) /\
  live (snd (commit_phase (mkRequest 1 1 1 [10; 8] 6.90) (connect anchovies_sold [])))
    = anchovies_sold.
Proof.
  assert (Hin : In 8 [10; 8]) by (right; left; reflexivity).
  assert (Hout : forall r, find_ingredient (ingredients anchovies_sold) 8 = Some r ->
                           availability r = Some 0).
  { intros r. vm_compute. intros [= <-]. reflexivity. }
  split; [exact Hin|]. split; [exact Hout|].
  split; [vm_compute; reflexivity|].
  exact (proj1 (proj2 (commit_phase_rechecks_existence_and_availability
                         (mkRequest 1 1 1 [10; 8] 6.90)
                         (connect anchovies_sold []) 8 Hin Hout))).
Defined.

(** ** Which violation is reported *)

(** C5, as stated, fails: with Anchovies sold out, a request for Anchovies
    and for the unknown id 99, in this order, is answered "Anchovies is not
    available", not "Ingredient with id 99 not found". *)
Lemma out_of_stock_reported_before_unknown :
  let order := mkRequest 1 1 1 [8; 99] 6.50 in
  let s := connect anchovies_sold [] in
  availability_of 99 (live s) = None /\
  availability_of 8 (live s) = Some (Some 0) /\
  fst (post_orders order s) = Status400 (Invalid (Not_available "Anchovies")) /\
  message (Not_available "Anchovies") = "Anchovies is not available" /\
  forall id, fst (post_orders order s) <> Status400 (Invalid (Ingredient_not_found id)).
Proof.
  vm_compute. repeat split. intros id. discriminate.
Qed.

Lemma existence_and_availability_first (rows : list Ingredient)
    (pre : list Z) (x : Z) (post : list Z) :
  (forall y, In y pre ->
     exists r, find_ingredient rows y = Some r /\ availability r <> Some 0) ->
  existence_and_availability rows (pre ++ x :: post)
  = existence_and_availability rows (x :: post).
Proof.
  induction pre as [|y pre IH]; intros Hpre; [reflexivity|].
  destruct (Hpre y (or_introl eq_refl)) as (r & Hr & Hnz).
  change (existence_and_availability rows ((y :: pre) ++ x :: post))
    with (match find_ingredient rows y with
          | None => Some (Ingredient_not_found y)
          | Some dbIng =>
              match availability dbIng with
              | Some 0 => Some (Not_available (ing_name dbIng))
              | _ => existence_and_availability rows (pre ++ x :: post)
              end
          end).
  rewrite Hr, IH by (intros z Hz; apply Hpre; right; exact Hz).
  destruct (availability r) as [[|p|p]|]; congruence.
Qed.

Lemma validate_ingredients_stopped (order : OrderRequest) (sizeInfo : Size)
    (s : Store) (v : Violation) :
  hd false (faults s) = false ->
  existence_and_availability (ingredients (live s)) (req_ingredients order) = Some v ->
  validate_ingredients order sizeInfo s
  = (inl (Status400 (Invalid v)), after s (live s)).
Proof.
  intros Hf He. unfold validate_ingredients.
  destruct (req_ingredients order) as [|i l] eqn:Hi; [discriminate|].
  unfold bind, getIngredientsByIds. rewrite await_query_run, Hf.
  rewrite fetched_rows_suffice, He. reflexivity.
Qed.

(** With no storage fault, a known dish and a known size, the validation
    answers with what the existence and availability loop stops on. *)
Lemma validate_stopped (order : OrderRequest) (s : Store) (v : Violation) :
  faults s = [] ->
  find (fun d => dish_id d =? dishId order) (basedishes (live s)) <> None ->
  find (fun z => size_id z =? sizeId order) (sizes (live s)) <> None ->
  existence_and_availability (ingredients (live s)) (req_ingredients order) = Some v ->
  fst (validate order s) = inl (Status400 (Invalid v)).
Proof.
  intros Hf Hd Hz He. unfold validate, bind, getDishById, getSizeById.
  rewrite await_query_run, Hf. simpl hd. cbv iota.
  destruct (find _ (basedishes (live s))) as [d|]; [|contradiction].
  rewrite await_query_run. simpl. rewrite Hf. simpl hd. cbv iota.
  destruct (find _ (sizes (live s))) as [z|]; [|contradiction].
  rewrite validate_ingredients_stopped with (v := v);
    [reflexivity | simpl; rewrite Hf; reflexivity | exact He].
Qed.

(** C5, amended: existence and availability are checked together, one
    candidate after the other in the order of the request, before the size,
    dependency and incompatibility checks.  With no storage fault, a known
    dish and a known size, the violation reported is that of the first
    candidate that is unknown or out of stock: "not found" when that
    candidate is unknown, "not available" when it is out of stock, whatever
    follows it in the list. *)
Theorem first_failing_candidate_is_reported
    (order : OrderRequest) (s : Store) (pre : list Z) (x : Z) (post : list Z) :
  validators order = true ->
  faults s = [] ->
  find (fun d => dish_id d =? dishId order) (basedishes (live s)) <> None ->
  find (fun z => size_id z =? sizeId order) (sizes (live s)) <> None ->
  req_ingredients order = (pre ++ x :: post)%list ->
  (forall y, In y pre ->
     exists r, find_ingredient (ingredients (live s)) y = Some r /\
               availability r <> Some 0) ->
  (find_ingredient (ingredients (live s)) x = None ->
   fst (post_orders order s) = Status400 (Invalid (Ingredient_not_found x))) /\
  (forall r, find_ingredient (ingredients (live s)) x = Some r ->
             availability r = Some 0 ->
   fst (post_orders order s) = Status400 (Invalid (Not_available (ing_name r)))).
Proof.
  intros Hv Hf Hd Hz Hi Hpre.
  assert (Hgo : forall v,
             existence_and_availability (ingredients (live s)) (x :: post) = Some v ->
             fst (post_orders order s) = Status400 (Invalid v)).
  { intros v He. unfold post_orders. rewrite Hv. unfold bind.
    assert (Hval : fst (validate order s) = inl (Status400 (Invalid v))).
    { apply validate_stopped; try assumption.
      rewrite Hi, existence_and_availability_first; assumption. }
    destruct (validate order s) as [[r|[]] s1]; simpl in *; congruence. }
  split.
  - intros Hx. apply Hgo. simpl. rewrite Hx. reflexivity.
  - intros r Hx Ha. apply Hgo. simpl. rewrite Hx, Ha. reflexivity.
Qed.

Lemma first_failing_candidate_is_reported_witness :
  validators (mkRequest 1 1 1 [10; 99; 8] 6.90) = true /\
  find (fun d => dish_id d =? 1) (basedishes anchovies_sold) <> None /\
  find (fun z => size_id z =? 1) (sizes anchovies_sold) <> None /\
  (forall y, In y [10] ->
     exists r, find_ingredient (ingredients anchovies_sold) y = Some r /\
               availability r <> Some 0) /\
  find_ingredient (ingredients anchovies_sold) 99 = None /\
  fst (post_orders (mkRequest 1 1 1 [10; 99; 8] 6.90) (connect anchovies_sold []))
    = Status400 (Invalid (Ingredient_not_found 99)).
Proof.
  assert (Hd : find (fun d => dish_id d =? 1) (basedishes anchovies_sold) <> None)
    by (vm_compute; discriminate).
  assert (Hz : find (fun z => size_id z =? 1) (sizes anchovies_sold) <> None)
    by (vm_compute; discriminate).
  assert (Hpre : forall y, In y [10] ->
            exists r, find_ingredient (ingredients anchovies_sold) y = Some r /\
                      availability r <> Some 0).
  { intros y [<-|[]]. eexists. split; [vm_compute; reflexivity|].
    simpl. discriminate. }
  assert (Hx : find_ingredient (ingredients anchovies_sold) 99 = None)
    by (vm_compute; reflexivity).
  repeat (split; [first [reflexivity | assumption]|]).
  exact (proj1 (first_failing_candidate_is_reported
                  (mkRequest 1 1 1 [10; 99; 8] 6.90) (connect anchovies_sold [])
                  [10] 99 [8] eq_refl eq_refl Hd Hz eq_refl Hpre) Hx).
Defined.

(** ** Reserving, then releasing *)

Lemma reserve_all_rowwise (ings : list Z) :
  forall rows, reserve_all ings rows = map (reserve_row_all ings) rows.
Proof.
  induction ings as [|ing ings IH]; intros rows; simpl.
  - symmetry. apply map_id.
  - unfold reserve_all in *. simpl. rewrite IH, map_map. reflexivity.
Qed.

Lemma release_all_rowwise (ings : list Z) :
  forall rows, release_all ings rows = map (release_row_all ings) rows.
Proof.
  induction ings as [|ing ings IH]; intros rows; simpl.
  - symmetry. apply map_id.
  - unfold release_all in *. simpl. rewrite IH, map_map. reflexivity.
Qed.

Lemma reserve_row_other (ing : Z) (r : Ingredient) :
  ing_id r <> ing -> reserve_row ing r = r.
Proof.
  intros Hne. unfold reserve_row. destruct (availability r); [|reflexivity].
  apply Z.eqb_neq in Hne. rewrite Hne. reflexivity.
Qed.

Lemma release_row_other (ing : Z) (r : Ingredient) :
  ing_id r <> ing -> release_row ing r = r.
Proof.
  intros Hne. unfold release_row. destruct (availability r); [|reflexivity].
  apply Z.eqb_neq in Hne. rewrite Hne. reflexivity.
Qed.

Lemma reserve_row_all_others (ings : list Z) :
  forall r, ~ In (ing_id r) ings -> reserve_row_all ings r = r.
Proof.
  induction ings as [|ing ings IH]; intros r Hout; [reflexivity|].
  unfold reserve_row_all in *. simpl.
  rewrite reserve_row_other by (intros E; apply Hout; left; auto).
  apply IH. intros Hin. apply Hout. right; exact Hin.
Qed.

Lemma release_row_all_others (ings : list Z) :
  forall r, ~ In (ing_id r) ings -> release_row_all ings r = r.
Proof.
  induction ings as [|ing ings IH]; intros r Hout; [reflexivity|].
  unfold release_row_all in *. simpl.
  rewrite release_row_other by (intros E; apply Hout; left; auto).
  apply IH. intros Hin. apply Hout. right; exact Hin.
Qed.

(** An ingredient listed once, in stock, loses exactly one unit. *)
Lemma reserve_row_all_once (ings : list Z) :
  forall r a,
    NoDup ings -> In (ing_id r) ings -> availability r = Some a -> 0 < a ->
    reserve_row_all ings r
    = mkIngredient (ing_id r) (ing_name r) (ing_price r) (Some (a - 1)).
Proof.
  induction ings as [|ing ings IH]; intros r a Hnd Hin Ha Hpos; [destruct Hin|].
  apply NoDup_cons_iff in Hnd as [Hfresh Hnd].
  unfold reserve_row_all in *. simpl.
  destruct (Z.eq_dec (ing_id r) ing) as [E|E].
  - assert (Hstep : reserve_row ing r
                    = mkIngredient (ing_id r) (ing_name r) (ing_price r) (Some (a - 1))).
    { unfold reserve_row. rewrite Ha.
      apply Z.eqb_eq in E. rewrite E.
      apply Z.gtb_lt in Hpos. rewrite Hpos. reflexivity. }
    rewrite Hstep. apply reserve_row_all_others. simpl. congruence.
  - rewrite reserve_row_other by exact E.
    apply IH; try assumption. destruct Hin as [E'|Hin]; [congruence|exact Hin].
Qed.

(** An ingredient listed once, tracked, gains exactly one unit. *)
Lemma release_row_all_once (ings : list Z) :
  forall r a,
    NoDup ings -> In (ing_id r) ings -> availability r = Some a ->
    release_row_all ings r
    = mkIngredient (ing_id r) (ing_name r) (ing_price r) (Some (a + 1)).
Proof.
  induction ings as [|ing ings IH]; intros r a Hnd Hin Ha; [destruct Hin|].
  apply NoDup_cons_iff in Hnd as [Hfresh Hnd].
  unfold release_row_all in *. simpl.
  destruct (Z.eq_dec (ing_id r) ing) as [E|E].
  - assert (Hstep : release_row ing r
                    = mkIngredient (ing_id r) (ing_name r) (ing_price r) (Some (a + 1))).
    { unfold release_row. rewrite Ha.
      apply Z.eqb_eq in E. rewrite E. reflexivity. }
    rewrite Hstep. apply release_row_all_others. simpl. congruence.
  - rewrite release_row_other by exact E.
    apply IH; try assumption. destruct Hin as [E'|Hin]; [congruence|exact Hin].
Qed.

Lemma release_after_reserve_row (ings : list Z) (r : Ingredient) :
  NoDup ings -> nonneg r ->
  (In (ing_id r) ings -> availability r <> Some 0) ->
  release_row_all ings (reserve_row_all ings r) = r.
Proof.
  intros Hnd Hnn Hstock.
  destruct (in_dec Z.eq_dec (ing_id r) ings) as [Hin|Hout].
  - destruct (availability r) as [a|] eqn:Ha.
    + assert (Hpos : 0 < a).
      { unfold nonneg in Hnn. rewrite Ha in Hnn.
        specialize (Hstock Hin).
        assert (a <> 0) by congruence. lia. }
      rewrite (reserve_row_all_once r Hnd Hin Ha Hpos).
      rewrite (@release_row_all_once ings
                 (mkIngredient (ing_id r) (ing_name r) (ing_price r) (Some (a - 1)))
                 (a - 1) Hnd Hin eq_refl).
      simpl. destruct r as [i n p av]; simpl in *. subst av.
      f_equal. f_equal. lia.
    + assert (Hsame : forall l, reserve_row_all l r = r /\ release_row_all l r = r).
      { induction l as [|ing l [IH1 IH2]]; [split; reflexivity|].
        unfold reserve_row_all, release_row_all in *. simpl.
        rewrite (proj2 (reserve_row_unlimited ing r) Ha).
        rewrite (proj2 (release_row_unlimited ing r) Ha). auto. }
      destruct (Hsame ings) as [-> ->]. reflexivity.
  - rewrite (reserve_row_all_others ings r Hout).
    apply release_row_all_others. exact Hout.
Qed.

Lemma find_ingredient_unique (rows : list Ingredient) (r : Ingredient) :
  NoDup (map ing_id rows) -> In r rows ->
  find_ingredient rows (ing_id r) = Some r.
Proof.
  unfold find_ingredient.
  induction rows as [|r0 rows IH]; intros Hnd Hin; [destruct Hin|].
  simpl in Hnd. apply NoDup_cons_iff in Hnd as [Hfresh Hnd]. simpl.
  destruct Hin as [->|Hin].
  - rewrite Z.eqb_refl. reflexivity.
  - destruct (ing_id r0 =? ing_id r) eqn:E.
    + apply Z.eqb_eq in E. exfalso. apply Hfresh. rewrite E.
      apply in_map. exact Hin.
    + apply IH; assumption.
Qed.

(** The ingredients table after the decrements of an accepted request and
    the increments of its deletion. *)
Lemma release_after_reserve (ings : list Z) (rows : list Ingredient) :
  NoDup ings -> Forall nonneg rows -> NoDup (map ing_id rows) ->
  existence_and_availability rows ings = None ->
  release_all ings (reserve_all ings rows) = rows.
Proof.
  intros Hnd Hnn Hids Hok.
  rewrite reserve_all_rowwise, release_all_rowwise, map_map.
  rewrite <- (map_id rows) at 2. apply map_ext_in.
  intros r Hr. apply release_after_reserve_row; [exact Hnd | |].
  - rewrite Forall_forall in Hnn. apply Hnn. exact Hr.
  - intros Hin.
    destruct (proj1 (existence_and_availability_passed rows ings) Hok _ Hin)
      as (r0 & Hfind & Hnz).
    rewrite (find_ingredient_unique rows r Hids Hr) in Hfind.
    injection Hfind as <-. exact Hnz.
Qed.

(** ** Creating, then deleting *)

Lemma max_order_id_bound (l : list Order) (o : Order) :
  In o l -> order_id o <= max_order_id l.
Proof.
  induction l as [|o' l IH]; intros Hin; [destruct Hin|].
  simpl. destruct Hin as [->|Hin]; [lia|]. specialize (IH Hin). lia.
Qed.

Lemma filter_all (A : Type) (f : A -> bool) (l : list A) :
  (forall x, In x l -> f x = true) -> filter f l = l.
Proof.
  induction l as [|x l IH]; intros H; simpl; [reflexivity|].
  rewrite (H x (or_introl eq_refl)), IH; [reflexivity|].
  intros y Hy. apply H. right; exact Hy.
Qed.

Lemma filter_none (A : Type) (f : A -> bool) (l : list A) :
  (forall x, In x l -> f x = false) -> filter f l = [].
Proof.
  induction l as [|x l IH]; intros H; simpl; [reflexivity|].
  rewrite (H x (or_introl eq_refl)), IH; [reflexivity|].
  intros y Hy. apply H. right; exact Hy.
Qed.

(** The releases of [deleteOrder] do not depend on the order of the rows. *)
Lemma release_row_comm (a b : Z) (r : Ingredient) :
  release_row a (release_row b r) = release_row b (release_row a r).
Proof.
  unfold release_row. destruct (availability r) as [v|] eqn:Ea.
  - destruct (ing_id r =? b) eqn:Eb, (ing_id r =? a) eqn:Ea';
      simpl; rewrite ?Ea; simpl; rewrite ?Ea', ?Eb; reflexivity.
  - rewrite Ea. reflexivity.
Qed.

Lemma release_row_all_perm (l l' : list Z) :
  Permutation l l' -> forall r, release_row_all l r = release_row_all l' r.
Proof.
  unfold release_row_all.
  induction 1 as [|x l l' Hp IH|x y l|l l' l'' Hp1 IH1 Hp2 IH2]; intros r; simpl.
  - reflexivity.
  - apply IH.
  - rewrite release_row_comm. reflexivity.
  - rewrite IH1. apply IH2.
Qed.

Lemma release_all_perm (l l' : list Z) (rows : list Ingredient) :
  Permutation l l' -> release_all l rows = release_all l' rows.
Proof.
  intros Hp. rewrite !release_all_rowwise. apply map_ext. intros r.
  apply release_row_all_perm. exact Hp.
Qed.

Section FreshOrder.
(** The association rows of an order whose id no earlier row carries. *)
Variables (id : Z) (old : list (Z * Z)) (ings : list Z).
Hypothesis fresh : forall r, In r old -> fst r < id.

Lemma old_rows_differ (r : Z * Z) : In r old -> (fst r =? id) = false.
Proof. intros Hin. apply Z.eqb_neq. specialize (fresh r Hin). lia. Qed.

Lemma new_rows_match (r : Z * Z) :
  In r (map (pair id) ings) -> (fst r =? id) = true.
Proof.
  intros Hin. apply in_map_iff in Hin as (x & <- & _). apply Z.eqb_refl.
Qed.

Lemma select_new_rows :
  select_second id (old ++ map (pair id) ings) = ascending ings.
Proof.
  unfold select_second. rewrite filter_app.
  rewrite (filter_none _ old) by exact old_rows_differ.
  rewrite (filter_all _ (map (pair id) ings)) by exact new_rows_match.
  simpl. rewrite map_map. simpl. rewrite map_id. reflexivity.
Qed.

Lemma drop_new_rows :
  filter (fun r => negb (fst r =? id)) (old ++ map (pair id) ings) = old.
Proof.
  rewrite filter_app.
  rewrite (filter_all _ old)
    by (intros r Hr; rewrite (old_rows_differ r Hr); reflexivity).
  rewrite (filter_none _ (map (pair id) ings))
    by (intros r Hr; rewrite (new_rows_match r Hr); reflexivity).
  apply app_nil_r.
Qed.
End FreshOrder.

Lemma order_row_round_trip (t : Tables) (user dish size : Z) (tot : Q) :
  let id := next_order_id t in
  let row := mkOrder id user dish size tot in
  filter (order_matches id user) (orders t ++ [row]) = [row] /\
  filter (fun o => negb (order_matches id user o)) (orders t ++ [row]) = orders t.
Proof.
  cbv zeta.
  assert (Hold : forall o, In o (orders t) ->
                   order_matches (next_order_id t) user o = false).
  { intros o Ho. unfold order_matches, next_order_id.
    apply max_order_id_bound in Ho.
    apply andb_false_iff. left. apply Z.eqb_neq. lia. }
  assert (Hnew : order_matches (next_order_id t) user
                   (mkOrder (next_order_id t) user dish size tot) = true).
  { unfold order_matches. simpl. rewrite !Z.eqb_refl. reflexivity. }
  rewrite !filter_app. simpl. rewrite Hnew. simpl.
  rewrite (filter_none _ (orders t)) by exact Hold.
  rewrite (filter_all _ (orders t))
    by (intros o Ho; rewrite (Hold o Ho); reflexivity).
  rewrite app_nil_r. auto.
Qed.

(** The tables after a committed order is deleted again by its owner: those
    from before, with the id used up. *)
Lemma deleted_after_created (order : OrderRequest) (t : Tables) :
  NoDup (req_ingredients order) ->
  availability_nonneg t -> ingredient_ids_unique t ->
  associations_of_issued_orders t ->
  existence_and_availability (ingredients t) (req_ingredients order) = None ->
  deleted (req_user_id order) (next_order_id t) (created order t)
  = set_orders t (orders t) (next_order_id t) /\
  filter (order_matches (next_order_id t) (req_user_id order))
    (orders (created order t))
  = [mkOrder (next_order_id t) (req_user_id order) (dishId order)
       (sizeId order) (req_total order)].
Proof.
  intros Hnd Hnn Hids Hassoc Hok.
  destruct (order_row_round_trip t (req_user_id order) (dishId order)
              (sizeId order) (req_total order)) as [Hhit Hdrop].
  split; [|exact Hhit].
  unfold deleted, created, with_ingredients, set_orders. simpl.
  rewrite (@select_new_rows (next_order_id t) (order_ingredients t)
             (req_ingredients order) Hassoc).
  rewrite (@drop_new_rows (next_order_id t) (order_ingredients t)
             (req_ingredients order) Hassoc).
  rewrite Hdrop.
  rewrite (release_all_perm _ (ascending_perm (req_ingredients order))).
  rewrite (release_after_reserve Hnd Hnn Hids Hok).
  reflexivity.
Qed.

Lemma createOrder_resolved_NoDup (order : OrderRequest) (s s' : Store) (id : Z) :
  createOrder order s = (Resolved id, s') -> NoDup (req_ingredients order).
Proof.
  intros Hc. destruct (ListDec.NoDup_dec Z.eq_dec (req_ingredients order))
    as [Hnd|Hnd]; [exact Hnd|].
  destruct (createOrder_repeated order s Hnd) as [e He].
  rewrite Hc in He. discriminate.
Qed.

Lemma final_check_passed (order : OrderRequest) (s s2 : Store) :
  final_check order s = (inr tt, s2) ->
  existence_and_availability (ingredients (live s)) (req_ingredients order) = None.
Proof.
  rewrite final_check_run.
  destruct (req_ingredients order) as [|i l]; [reflexivity|].
  destruct (hd false (faults s)); [discriminate|].
  destruct (existence_and_availability (ingredients (live s)) (i :: l));
    [discriminate | reflexivity].
Qed.

(** The round trip from the final check on. *)
Lemma round_trip_after_final_check
    (order : OrderRequest) (s sc s1 : Store) (id : Z) :
  availability_nonneg (live s) ->
  ingredient_ids_unique (live s) ->
  associations_of_issued_orders (live s) ->
  final_check order s = (inr tt, sc) ->
  createOrder order sc = (Resolved id, s1) ->
  faults s1 = [] ->
  exists s2,
    deleteOrder (req_user_id order) id s1 = (Resolved 1, s2) /\
    ingredients (live s2) = ingredients (live s) /\
    order_ingredients (live s2) = order_ingredients (live s) /\
    select_second id (order_ingredients (live s2)) = [] /\
    orders (live s2) = orders (live s).
Proof.
  intros Hnn Hids Hassoc Hfinal Hc Hquiet.
  assert (Hl : live sc = live s).
  { destruct (checks_only_final_check order s) as (H & _).
    rewrite Hfinal in H. exact H. }
  apply final_check_passed in Hfinal.
  pose proof (createOrder_resolved_NoDup order sc Hc) as Hnd.
  pose proof (createOrder_spec order sc) as Hcreated. rewrite Hc in Hcreated.
  destruct Hcreated as (Hid & Hlive1 & _ & Hsaved1). rewrite Hl in Hid, Hlive1.
  destruct (deleteOrder_quiet (req_user_id order) id s1 Hquiet Hsaved1)
    as (changes & s2 & Hdel & _).
  pose proof (deleteOrder_spec (req_user_id order) id s1) as Hdeleted.
  rewrite Hdel in Hdeleted. destruct Hdeleted as (Hchanges & Hlive2 & _).
  destruct (deleted_after_created order Hnd Hnn Hids Hassoc Hfinal)
    as [Htables Hrow].
  rewrite Hlive1, Hid in Hchanges, Hlive2.
  rewrite Hrow in Hchanges. rewrite Htables in Hlive2. simpl in Hchanges.
  exists s2. subst changes. split; [exact Hdel|].
  rewrite Hlive2. simpl. repeat split.
  unfold select_second. rewrite filter_none; [reflexivity|].
  intros r Hr. rewrite Hid.
  exact (@old_rows_differ (next_order_id (live s)) (order_ingredients (live s))
           Hassoc r Hr).
Qed.

(** C8: round trip.  Take tables with no negative availability, unique
    ingredient ids and association rows of issued orders only (the tables the
    server reaches from the seed are such).  When the handler accepts and
    commits a request, be it run as a whole or from its final check on, and
    [deleteOrder] is then called for the same user with the returned id and
    meets no storage fault, it resolves with 1 row affected and the
    ingredients table is exactly the one from before the creation (every
    touched availability is back at its value), no association row of the
    order is left (the association table is the one from before), and the
    order row is gone. *)
Theorem create_then_delete_restores
    (order : OrderRequest) (s s1 : Store) (id : Z) :
  availability_nonneg (live s) ->
  ingredient_ids_unique (live s) ->
  associations_of_issued_orders (live s) ->
  post_orders order s = (Status200 id, s1) \/
  commit_phase order s = (Status200 id, s1) ->
  faults s1 = [] ->
  exists s2,
    deleteOrder (req_user_id order) id s1 = (Resolved 1, s2) /\
    ingredients (live s2) = ingredients (live s) /\
    order_ingredients (live s2) = order_ingredients (live s) /\
    select_second id (order_ingredients (live s2)) = [] /\
    orders (live s2) = orders (live s).
Proof.
  intros Hnn Hids Hassoc [Hrun|Hrun] Hquiet.
  - destruct (post_orders_accepted order s Hrun)
      as (sv & sc & _ & _ & Hfinal & Hc & Hlv & _).
    rewrite <- Hlv in *.
    exact (round_trip_after_final_check order sv Hnn Hids Hassoc Hfinal Hc Hquiet).
  - destruct (commit_phase_accepted order s Hrun) as (sc & Hfinal & Hc & _).
    exact (round_trip_after_final_check order s Hnn Hids Hassoc Hfinal Hc Hquiet).
Qed.

Lemma seed_ingredient_ids_unique : ingredient_ids_unique seed.
Proof.
  unfold ingredient_ids_unique, seed; simpl.
  repeat (constructor; [simpl; intuition discriminate|]). constructor.
Defined.

Lemma seed_associations_of_issued_orders : associations_of_issued_orders seed.
Proof.
  intros r Hr. change (next_order_id seed) with 5.
  simpl in Hr. repeat (destruct Hr as [<-|Hr]; [simpl; lia|]). destruct Hr.
Defined.

Lemma create_then_delete_restores_witness :
  availability_nonneg seed /\
  ingredient_ids_unique seed /\
  associations_of_issued_orders seed /\
  post_orders (mkRequest 1 1 2 [1; 2; 5] 9.20) (connect seed [])
    = (Status200 5, connect (created (mkRequest 1 1 2 [1; 2; 5] 9.20) seed) []) /\
  availability_of 1 (created (mkRequest 1 1 2 [1; 2; 5] 9.20) seed) = Some (Some 2) /\
  exists s2,
    deleteOrder 1 5 (connect (created (mkRequest 1 1 2 [1; 2; 5] 9.20) seed) [])
      = (Resolved 1, s2) /\
    ingredients (live s2) = ingredients seed /\
    order_ingredients (live s2) = order_ingredients seed /\
    select_second 5 (order_ingredients (live s2)) = [] /\
    orders (live s2) = orders seed.
Proof.
  assert (H : post_orders (mkRequest 1 1 2 [1; 2; 5] 9.20) (connect seed [])
              = (Status200 5,
                 connect (created (mkRequest 1 1 2 [1; 2; 5] 9.20) seed) []))
    by (vm_compute; reflexivity).
  split; [exact seed_availability_nonneg|].
  split; [exact seed_ingredient_ids_unique|].
  split; [exact seed_associations_of_issued_orders|].
  split; [exact H|].
  split; [vm_compute; reflexivity|].
  exact (create_then_delete_restores
           (mkRequest 1 1 2 [1; 2; 5] 9.20) (connect seed [])
           seed_availability_nonneg seed_ingredient_ids_unique
           seed_associations_of_issued_orders (or_introl H) eq_refl).
Defined.

(** What holds of C1: when no association row and no order row of the user
    carries the id, [deleteOrder] resolves with 0, or rejects on a storage
    fault, and the tables are as before. *)
Lemma deleteOrder_unknown_order (userId orderId : Z) (s : Store) :
  select_second orderId (order_ingredients (live s)) = [] ->
  filter (order_matches orderId userId) (orders (live s)) = [] ->
  (fst (deleteOrder userId orderId s) = Resolved 0 \/
   exists e, fst (deleteOrder userId orderId s) = Rejected e) /\
  live (snd (deleteOrder userId orderId s)) = live s.
Proof.
  intros Hrows Hnone.
  pose proof (deleteOrder_spec userId orderId s) as H.
  destruct (deleteOrder userId orderId s) as [[n|e] s']; simpl.
  - destruct H as (-> & -> & _). rewrite Hnone. split; [left; reflexivity|].
    unfold deleted. rewrite Hrows. simpl.
    assert (Hkeep : filter (fun r => negb (fst r =? orderId))
                      (order_ingredients (live s)) = order_ingredients (live s)).
    { apply filter_all. intros r Hr.
      destruct (fst r =? orderId) eqn:E; [|reflexivity].
      assert (Hin : In (snd r) (select_second orderId (order_ingredients (live s)))).
      { unfold select_second. apply ascending_In. apply in_map.
        apply filter_In. auto. }
      rewrite Hrows in Hin. destruct Hin. }
    assert (Hord : filter (fun o => negb (order_matches orderId userId o))
                     (orders (live s)) = orders (live s)).
    { apply filter_all. intros o Ho.
      destruct (order_matches orderId userId o) eqn:E; [|reflexivity].
      assert (Hin : In o (filter (order_matches orderId userId) (orders (live s))))
        by (apply filter_In; auto).
      rewrite Hnone in Hin. destruct Hin. }
    rewrite Hkeep, Hord. destruct (live s); reflexivity.
  - split; [right; eauto|]. destruct H as [-> _]. reflexivity.
Qed.

(** ** The last unit of an ingredient *)

Lemma processNextIngredient_ignores_availability (id : Z) (rest : list Z) :
  forall s s',
    same_but_ingredients s s' ->
    fst (processNextIngredient id rest s) = fst (processNextIngredient id rest s').
Proof.
  induction rest as [|ing rest IH]; intros s s' (Hf & Hs & Ho & Hoi & Hq); simpl.
  - rewrite !COMMIT_run, Hf.
    destruct (hd false (faults s')); [reflexivity|].
    destruct (saved s) as [t|], (saved s') as [t'|]; try reflexivity.
    + destruct Hs as [_ Hs]. specialize (Hs eq_refl). discriminate.
    + destruct Hs as [Hs _]. specialize (Hs eq_refl). discriminate.
  - unfold insert_order_ingredient, decrement_availability.
    rewrite !statement_run, Hf, Hoi.
    destruct (hd false (faults s')); [reflexivity|].
    destruct (existsb _ _); [reflexivity|]. simpl.
    rewrite !statement_run. simpl. rewrite Hf.
    destruct (hd false (tl (faults s'))); [reflexivity|].
    apply IH. unfold same_but_ingredients; simpl.
    rewrite ?Hf, ?Ho, ?Hoi, ?Hq. auto.
Qed.

(** Whether [createOrder] resolves, and with which id or error, does not
    depend on any row of [ingredients]: no stock level makes it refuse. *)
Lemma createOrder_ignores_availability (order : OrderRequest) (s : Store)
    (rows : list Ingredient) :
  fst (createOrder order s)
  = fst (createOrder order
           (mkStore (set_ingredients (live s) rows) (saved s) (faults s))).
Proof.
  unfold createOrder. rewrite !BEGIN_run. simpl.
  destruct (hd false (faults s)); [reflexivity|].
  destruct (saved s); [reflexivity|].
  unfold insert_order. rewrite !statement_run. simpl.
  destruct (hd false (tl (faults s))); [reflexivity|].
  change (next_order_id (set_ingredients (live s) rows))
    with (next_order_id (live s)).
  destruct (req_ingredients order) as [|ing rest].
  - rewrite !COMMIT_run. simpl.
    destruct (hd false (tl (tl (faults s)))); reflexivity.
  - apply processNextIngredient_ignores_availability.
    unfold same_but_ingredients; simpl.
    repeat split; try reflexivity; discriminate.
Qed.

(** A [createOrder] that is called while a transaction is open on the
    connection is refused by its [BEGIN TRANSACTION] and changes nothing. *)
Lemma createOrder_inside_transaction (order : OrderRequest) (s : Store)
    (t : Tables) :
  saved s = Some t -> hd false (faults s) = false ->
  createOrder order s
  = (Rejected (Failed_to_start_transaction SQLITE_ERROR), after s (live s)).
Proof.
  intros Hs Hf. unfold createOrder. rewrite BEGIN_run, Hf, Hs. reflexivity.
Qed.

Lemma find_ingredient_map (f : Ingredient -> Ingredient) (rows : list Ingredient)
    (x : Z) :
  (forall r, ing_id (f r) = ing_id r) ->
  find_ingredient (map f rows) x = option_map f (find_ingredient rows x).
Proof.
  intros Hid. unfold find_ingredient.
  induction rows as [|r rows IH]; simpl; [reflexivity|].
  rewrite Hid. destruct (ing_id r =? x); [reflexivity | exact IH].
Qed.

Lemma reserve_row_id (ing : Z) (r : Ingredient) :
  ing_id (reserve_row ing r) = ing_id r.
Proof.
  unfold reserve_row. destruct (availability r) as [a|]; [|reflexivity].
  destruct ((ing_id r =? ing) && (a >? 0)); reflexivity.
Qed.

Lemma reserve_row_all_id (ings : list Z) :
  forall r, ing_id (reserve_row_all ings r) = ing_id r.
Proof.
  unfold reserve_row_all.
  induction ings as [|ing ings IH]; intros r; simpl; [reflexivity|].
  rewrite IH. apply reserve_row_id.
Qed.

(** [createOrder] called directly on tables where an ingredient is at 0,
    which the route never does (it runs the final check first): the order is
    committed, nothing is reserved, and its deletion still releases a
    unit. *)
Example release_without_reservation :
  let order := mkRequest 1 1 1 [8] 6.50 in
  let s1 := snd (createOrder order (connect anchovies_sold [])) in
  let s2 := snd (deleteOrder 1 6 s1) in
  availability_of 8 anchovies_sold = Some (Some 0) /\
  fst (createOrder order (connect anchovies_sold [])) = Resolved 6 /\
  availability_of 8 (live s1) = Some (Some 0) /\
  fst (deleteOrder 1 6 s1) = Resolved 1 /\
  availability_of 8 (live s2) = Some (Some 1).
Proof. vm_compute. repeat split. Qed.

(** ** The tables the server can reach *)

Lemma unlimited_untouched_ids (before rows : list Ingredient) :
  unlimited_untouched before rows -> map ing_id rows = map ing_id before.
Proof.
  induction 1 as [|r r' before rows [Hid _] _ IH]; simpl; congruence.
Qed.

Lemma max_order_id_nonneg (l : list Order) : 0 <= max_order_id l.
Proof. induction l as [|o l IH]; simpl; lia. Qed.

Lemma max_order_id_app (l : list Order) (o : Order) :
  max_order_id (l ++ [o]) = Z.max (max_order_id l) (Z.max (order_id o) 0).
Proof. induction l as [|o' l IH]; simpl; [lia|]. rewrite IH. lia. Qed.

Lemma max_order_id_filter (f : Order -> bool) (l : list Order) :
  max_order_id (filter f l) <= max_order_id l.
Proof.
  induction l as [|o l IH]; simpl; [lia|].
  destruct (f o); simpl; lia.
Qed.

Lemma well_formed_seed : well_formed seed.
Proof.
  repeat split.
  - exact seed_availability_nonneg.
  - exact seed_ingredient_ids_unique.
  - exact seed_associations_of_issued_orders.
  - unfold sequence_covers_orders. vm_compute. discriminate.
Qed.

Lemma well_formed_created (order : OrderRequest) (t : Tables) :
  well_formed t -> well_formed (created order t).
Proof.
  intros (Hnn & Hids & Hassoc & Hseq).
  destruct (reserve_all_invariant (req_ingredients order) (ingredients t))
    as [Hnn' Hsame].
  pose proof (max_order_id_nonneg (orders t)) as H0.
  unfold sequence_covers_orders in Hseq.
  assert (Hnext : next_order_id (created order t) = next_order_id t + 1).
  { unfold next_order_id, created, with_ingredients, set_orders; simpl.
    rewrite max_order_id_app. simpl. unfold next_order_id. lia. }
  repeat split.
  - unfold availability_nonneg. simpl. apply Hnn'. exact Hnn.
  - unfold ingredient_ids_unique. simpl.
    rewrite (unlimited_untouched_ids Hsame). exact Hids.
  - intros r Hr. rewrite Hnext. simpl in Hr.
    apply in_app_or in Hr as [Hr|Hr].
    + specialize (Hassoc r Hr). lia.
    + apply in_map_iff in Hr as (x & <- & _). simpl. lia.
  - unfold sequence_covers_orders, created, with_ingredients, set_orders; simpl.
    rewrite max_order_id_app. simpl. unfold next_order_id. lia.
Qed.

Lemma well_formed_deleted (userId orderId : Z) (t : Tables) :
  well_formed t -> well_formed (deleted userId orderId t).
Proof.
  intros (Hnn & Hids & Hassoc & Hseq).
  destruct (release_all_invariant
              (select_second orderId (order_ingredients t)) (ingredients t))
    as [Hnn' Hsame].
  unfold sequence_covers_orders in Hseq.
  pose proof (max_order_id_filter
                (fun o => negb (order_matches orderId userId o)) (orders t)) as Hle.
  pose proof (max_order_id_nonneg
                (filter (fun o => negb (order_matches orderId userId o)) (orders t)))
    as H0.
  assert (Hnext : next_order_id (deleted userId orderId t) = next_order_id t).
  { unfold next_order_id, deleted; simpl. lia. }
  repeat split.
  - unfold availability_nonneg. simpl. apply Hnn'. exact Hnn.
  - unfold ingredient_ids_unique. simpl.
    rewrite (unlimited_untouched_ids Hsame). exact Hids.
  - intros r Hr. rewrite Hnext. simpl in Hr.
    apply filter_In in Hr as [Hr _]. exact (Hassoc r Hr).
  - unfold sequence_covers_orders, deleted; simpl. lia.
Qed.

(** Every connection the server reaches from the seed holds well-formed
    tables, whatever the requests and the storage faults. *)
Lemma reachable_well_formed (s : Store) : reachable s -> well_formed (live s).
Proof.
  induction 1 as [plan|order s _ IH|userId orderId s _ IH].
  - exact well_formed_seed.
  - unfold post_orders. destruct (validators order); [|exact IH].
    unfold bind, persist, await_createOrder, ret.
    destruct (checks_only_validate order s) as (Hl1 & _).
    destruct (validate order s) as [[r|[]] s1]; simpl in *; [congruence|].
    destruct (checks_only_final_check order s1) as (Hl2 & _).
    destruct (final_check order s1) as [[r|[]] s2]; simpl in *; [congruence|].
    pose proof (createOrder_spec order s2) as Hc. unfold bind.
    destruct (createOrder order s2) as [[id|e] s3]; simpl.
    + destruct Hc as (_ & -> & _). apply well_formed_created. congruence.
    + destruct Hc as [-> _]. congruence.
  - unfold delete_orders. destruct (1 <=? orderId); [|exact IH].
    pose proof (deleteOrder_spec userId orderId s) as Hd.
    destruct (deleteOrder userId orderId s) as [[n|e] s1].
    + destruct Hd as (_ & Hl & _).
      assert (Hwf : well_formed (live s1))
        by (rewrite Hl; apply well_formed_deleted; exact IH).
      destruct (n =? 0); exact Hwf.
    + destruct Hd as [Hl _]. simpl. rewrite Hl. exact IH.
Qed.

(** * Further properties of the server *)

(** ** The order of the checks *)

Lemma bind_inl (A B : Type) (h : Handler A) (k : A -> Handler B)
    (s s' : Store) (r : Response) :
  bind h k s = (inl r, s') ->
  h s = (inl r, s') \/ exists a s1, h s = (inr a, s1) /\ k a s1 = (inl r, s').
Proof.
  unfold bind. destruct (h s) as [[r0|a] s1].
  - intros [= -> ->]. left; reflexivity.
  - intros H. right; eauto.
Qed.

Lemma await_query_inl (A : Type) (f : Tables -> A) (s s' : Store) (r : Response) :
  await (query f) s = (inl r, s') -> r = Status503.
Proof.
  rewrite await_query_run. destruct (hd false (faults s)); [|discriminate].
  intros [= <- _]. reflexivity.
Qed.

Lemma accepted_checks
    (order : OrderRequest) (s s' : Store) (id : Z) :
  post_orders order s = (Status200 id, s') ->
  dish_known (live s) order /\ size_known (live s) order /\
  all_in_stock (live s) order /\
  (req_ingredients order = [] \/ fits_size (live s) order) /\
  dependencies_closed (live s) order /\
  NoDup (req_ingredients order).
Proof.
  intros Hrun.
  destruct (post_orders_accepted order s Hrun)
    as (s1 & s2 & _ & Hval & Hfinal & Hc & Hl1 & _).
  destruct (validate_passed order s Hval) as (d & z & Hd & Hz & Hchecks).
  assert (Hstock : all_in_stock (live s) order).
  { apply final_check_passed in Hfinal. rewrite Hl1 in Hfinal.
    exact (proj1 (existence_and_availability_passed _ _) Hfinal). }
  repeat split.
  - unfold dish_known. rewrite Hd. discriminate.
  - unfold size_known. rewrite Hz. discriminate.
  - exact Hstock.
  - destruct Hchecks as [E|(rows & sd & si & _ & Hcap & _)]; [left; exact E|].
    right. exists z. auto.
  - destruct Hchecks as [E|(rows & sd & si & _ & _ & Hld & _ & Hdeps & _)].
    + intros a dd Ha. rewrite E in Ha. destruct Ha.
    + intros a dd Ha Hrow. rewrite <- Hld in Hrow.
      exact (check_dependencies_passed _ _ _ _ Hdeps a dd Ha Hrow).
  - exact (createOrder_resolved_NoDup order s2 Hc).
Qed.

(** X2: a request the handler accepts passed every check on the tables it
    was sent against, and lists no ingredient twice: the dish and the size
    exist, every candidate exists with an availability other than 0, the
    candidates fit the cap of the size (a check that is skipped, like the
    others on ingredients, when the list is empty), and every dependency of a
    candidate is a candidate. *)
Theorem accepted_order_passed_every_check
    (order : OrderRequest) (s s' : Store) (id : Z) :
  post_orders order s = (Status200 id, s') ->
  dish_known (live s) order /\ size_known (live s) order /\
  all_in_stock (live s) order /\
  (req_ingredients order = [] \/ fits_size (live s) order) /\
  dependencies_closed (live s) order /\
  NoDup (req_ingredients order).
Proof. exact (@accepted_checks order s s' id). Qed.

Lemma accepted_order_passed_every_check_witness :
  post_orders (mkRequest 1 1 2 [1; 2; 5] 9.20) (connect seed [])
    = (Status200 5, connect (created (mkRequest 1 1 2 [1; 2; 5] 9.20) seed) []) /\
  dependencies_closed seed (mkRequest 1 1 2 [1; 2; 5] 9.20) /\
  NoDup [1; 2; 5].
Proof.
  assert (H : post_orders (mkRequest 1 1 2 [1; 2; 5] 9.20) (connect seed [])
              = (Status200 5,
                 connect (created (mkRequest 1 1 2 [1; 2; 5] 9.20) seed) []))
    by (vm_compute; reflexivity).
  split; [exact H|].
  exact (proj2 (proj2 (proj2 (proj2
           (@accepted_order_passed_every_check
              (mkRequest 1 1 2 [1; 2; 5] 9.20) (connect seed []) _ _ H))))).
Defined.

(** The effect of the handler on the tables, answer by answer. *)
Lemma post_orders_effect (order : OrderRequest) (s : Store) :
  match post_orders order s with
  | (Status200 id, s') =>
      id = next_order_id (live s) /\ live s' = created order (live s)
  | (_, s') => live s' = live s /\ saved s' = saved s
  end.
Proof.
  unfold post_orders. destruct (validators order); [|auto].
  unfold bind.
  destruct (checks_only_validate order s) as (Hl1 & Hs1 & _ & Hr1).
  destruct (validate order s) as [[r|[]] s1]; simpl in *.
  { destruct r; auto. destruct (Hr1 id eq_refl). }
  destruct (checks_only_final_check order s1) as (Hl2 & Hs2 & _ & Hr2).
  destruct (final_check order s1) as [[r|[]] s2]; simpl in *.
  { destruct r; try (split; congruence). destruct (Hr2 id eq_refl). }
  unfold persist, bind, await_createOrder, ret.
  pose proof (createOrder_spec order s2) as Hc.
  destruct (createOrder order s2) as [[id|e] s3]; simpl.
  - destruct Hc as (-> & -> & _). split; congruence.
  - destruct Hc as [-> ->]. split; congruence.
Qed.

(** X3: the handler of POST /api/orders changes the tables only when it
    answers 200, and then by exactly one committed order: whatever it answers
    otherwise (422, any 400, 503), and whatever storage faults it meets, the
    tables are those from before the request. *)
Theorem post_orders_writes_only_on_200 (order : OrderRequest) (s : Store) :
  match post_orders order s with
  | (Status200 id, s') =>
      id = next_order_id (live s) /\ live s' = created order (live s)
  | (_, s') => live s' = live s /\ saved s' = saved s
  end.
Proof. exact (post_orders_effect order s). Qed.

(** ** Requests that pass every check *)

Lemma after_quiet (s : Store) : faults s = [] -> after s (live s) = s.
Proof. destruct s as [t sv fs]. simpl. intros ->. reflexivity. Qed.

Lemma await_query_quiet (A : Type) (f : Tables -> A) (s : Store) :
  faults s = [] -> await (query f) s = (inr (f (live s)), s).
Proof.
  intros Hf. rewrite await_query_run, Hf. simpl. rewrite after_quiet by exact Hf.
  reflexivity.
Qed.

Lemma check_dependencies_passes (ids : list Z) (rows : list Ingredient)
    (ings : list Z) (s : Store) :
  faults s = [] ->
  (forall a d, In a ings -> In (a, d) (ingredient_dependencies (live s)) ->
               In d ids) ->
  check_dependencies ids rows ings s = (inr tt, s).
Proof.
  intros Hf. induction ings as [|ing ings IH]; intros Hclosed; [reflexivity|].
  simpl. unfold bind, getIngredientDependencies.
  rewrite await_query_quiet by exact Hf.
  destruct (find _ _) as [depId|] eqn:Hfind.
  - apply find_some in Hfind as [Hin Hmiss].
    apply select_second_In in Hin. apply negb_true_iff in Hmiss.
    specialize (Hclosed ing depId (or_introl eq_refl) Hin).
    apply includes_In in Hclosed. congruence.
  - apply IH. intros a d Ha. apply Hclosed. right; exact Ha.
Qed.

Lemma check_incompatibilities_passes (ids : list Z) (rows : list Ingredient)
    (ings : list Z) (s : Store) :
  faults s = [] ->
  (forall a b, In a ings -> In b ids ->
               ~ In (a, b) (ingredient_incompatibilities (live s))) ->
  check_incompatibilities ids rows ings s = (inr tt, s).
Proof.
  intros Hf. induction ings as [|ing ings IH]; intros Hnone; [reflexivity|].
  simpl. unfold bind, getIngredientIncompatibilities.
  rewrite await_query_quiet by exact Hf.
  destruct (find _ _) as [incompId|] eqn:Hfind.
  - apply find_some in Hfind as [Hin Hhit].
    apply select_second_In in Hin. apply includes_In in Hhit.
    destruct (Hnone ing incompId (or_introl eq_refl) Hhit Hin).
  - apply IH. intros a b Ha. apply Hnone. right; exact Ha.
Qed.

Lemma validate_passes (order : OrderRequest) (s : Store) :
  faults s = [] ->
  dish_known (live s) order -> size_known (live s) order ->
  all_in_stock (live s) order ->
  (req_ingredients order = [] \/ fits_size (live s) order) ->
  dependencies_closed (live s) order ->
  no_incompatible_pair (live s) order ->
  validate order s = (inr tt, s).
Proof.
  intros Hf Hdish Hsize Hstock Hfits Hdeps Hinc.
  unfold validate, bind, getDishById, getSizeById.
  rewrite await_query_quiet by exact Hf.
  unfold dish_known in Hdish.
  destruct (find _ (basedishes (live s))) as [d|]; [|contradiction].
  rewrite await_query_quiet by exact Hf.
  unfold size_known in Hsize.
  destruct (find _ (sizes (live s))) as [z|] eqn:Hz; [|contradiction].
  unfold validate_ingredients.
  destruct (req_ingredients order) as [|i l] eqn:Hi; [reflexivity|].
  rewrite <- Hi. unfold bind.
  assert (Hq : await (getIngredientsByIds (req_ingredients order)) s
               = (inr (filter (fun r => includes (req_ingredients order) (ing_id r))
                         (ingredients (live s))), s)).
  { rewrite Hi at 1. unfold getIngredientsByIds. rewrite <- Hi.
    apply await_query_quiet. exact Hf. }
  rewrite Hq, fetched_rows_suffice.
  rewrite (proj2 (existence_and_availability_passed _ _) Hstock).
  destruct Hfits as [E|(z' & Hz' & Hcap)]; [congruence|].
  rewrite Hz in Hz'. injection Hz' as <-.
  assert (Hle : (Z.of_nat (List.length (req_ingredients order))
                 >? max_ingredients z) = false).
  { rewrite Z.gtb_ltb. apply Z.ltb_ge. exact Hcap. }
  rewrite Hle.
  rewrite check_dependencies_passes by assumption.
  apply check_incompatibilities_passes; assumption.
Qed.

(** Without faults and without a row in its way, the loop of [createOrder]
    goes through a list without repetition. *)
Lemma processNextIngredient_resolves (id : Z) (rest : list Z) :
  forall (s : Store) (t0 : Tables),
    faults s = [] -> saved s = Some t0 -> NoDup rest ->
    (forall x, In x rest -> ~ In (id, x) (order_ingredients (live s))) ->
    fst (processNextIngredient id rest s) = Resolved id.
Proof.
  induction rest as [|ing rest IH]; intros s t0 Hf Hs Hnd Hfree; simpl.
  - rewrite COMMIT_run, Hf, Hs. reflexivity.
  - unfold insert_order_ingredient, decrement_availability.
    rewrite statement_run, Hf. simpl.
    destruct (existsb _ _) eqn:Hex.
    { apply existsb_pair_eqb in Hex.
      destruct (Hfree ing (or_introl eq_refl) Hex). }
    simpl. rewrite statement_run. simpl. rewrite Hf. simpl.
    apply NoDup_cons_iff in Hnd as [Hfresh Hnd].
    apply IH with (t0 := t0); simpl;
      [rewrite ?Hf; reflexivity | exact Hs | exact Hnd |].
    intros x Hx Hin. apply in_app_or in Hin as [Hin|[E|[]]].
    + exact (Hfree x (or_intror Hx) Hin).
    + injection E as ->. contradiction.
Qed.

Lemma createOrder_resolves (order : OrderRequest) (s : Store) :
  faults s = [] -> saved s = None ->
  NoDup (req_ingredients order) ->
  associations_of_issued_orders (live s) ->
  fst (createOrder order s) = Resolved (next_order_id (live s)).
Proof.
  intros Hf Hs Hnd Hassoc. unfold createOrder, insert_order.
  rewrite BEGIN_run, Hf, Hs. simpl.
  destruct (req_ingredients order) as [|ing rest] eqn:Hi; [reflexivity|].
  apply processNextIngredient_resolves with (t0 := live s); simpl;
    [reflexivity | reflexivity | exact Hnd |].
  intros x _ Hin. specialize (Hassoc _ Hin). simpl in Hassoc. lia.
Qed.

Lemma final_check_passes (order : OrderRequest) (s : Store) :
  faults s = [] -> all_in_stock (live s) order ->
  final_check order s = (inr tt, s).
Proof.
  intros Hf Hstock. rewrite final_check_run.
  pose proof (proj2 (existence_and_availability_passed _ _) Hstock) as He.
  destruct (req_ingredients order) as [|i l]; [reflexivity|].
  rewrite Hf, He. cbn [hd]. rewrite after_quiet by exact Hf. reflexivity.
Qed.

Lemma valid_request_accepted (order : OrderRequest) (s : Store) :
  validators order = true ->
  faults s = [] -> saved s = None ->
  associations_of_issued_orders (live s) ->
  dish_known (live s) order -> size_known (live s) order ->
  all_in_stock (live s) order ->
  (req_ingredients order = [] \/ fits_size (live s) order) ->
  dependencies_closed (live s) order ->
  no_incompatible_pair (live s) order ->
  NoDup (req_ingredients order) ->
  fst (post_orders order s) = Status200 (next_order_id (live s)).
Proof.
  intros Hv Hf Hs Hassoc Hdish Hsize Hstock Hfits Hdeps Hinc Hnd.
  unfold post_orders. rewrite Hv. unfold bind.
  rewrite validate_passes by assumption.
  rewrite final_check_passes by assumption.
  unfold persist, bind, await_createOrder, ret.
  pose proof (createOrder_resolves order s Hf Hs Hnd Hassoc) as Hc.
  destruct (createOrder order s) as [[id|e] s1]; simpl in *; congruence.
Qed.

(** X4: the validation turns down nothing it should accept.  On a
    connection with no storage fault and no open transaction, a request with
    valid fields whose dish and size exist, whose candidates all exist with
    an availability other than 0, fit the cap of the size, include their
    dependencies, hold no incompatible pair and are listed once each, is
    answered 200 with the next order id. *)
Theorem valid_request_is_accepted (order : OrderRequest) (s : Store) :
  validators order = true ->
  faults s = [] -> saved s = None ->
  associations_of_issued_orders (live s) ->
  dish_known (live s) order -> size_known (live s) order ->
  all_in_stock (live s) order ->
  (req_ingredients order = [] \/ fits_size (live s) order) ->
  dependencies_closed (live s) order ->
  no_incompatible_pair (live s) order ->
  NoDup (req_ingredients order) ->
  fst (post_orders order s) = Status200 (next_order_id (live s)).
Proof. exact (@valid_request_accepted order s). Qed.

Lemma valid_request_is_accepted_witness :
  validators (mkRequest 1 1 2 [1; 2; 5] 9.20) = true /\
  all_in_stock seed (mkRequest 1 1 2 [1; 2; 5] 9.20) /\
  fits_size seed (mkRequest 1 1 2 [1; 2; 5] 9.20) /\
  dependencies_closed seed (mkRequest 1 1 2 [1; 2; 5] 9.20) /\
  no_incompatible_pair seed (mkRequest 1 1 2 [1; 2; 5] 9.20) /\
  fst (post_orders (mkRequest 1 1 2 [1; 2; 5] 9.20) (connect seed [])) = Status200 5.
Proof.
  assert (Hdish : dish_known seed (mkRequest 1 1 2 [1; 2; 5] 9.20))
    by (vm_compute; discriminate).
  assert (Hsize : size_known seed (mkRequest 1 1 2 [1; 2; 5] 9.20))
    by (vm_compute; discriminate).
  assert (Hstock : all_in_stock seed (mkRequest 1 1 2 [1; 2; 5] 9.20)).
  { intros x [<-|[<-|[<-|[]]]]; eexists;
      (split; [vm_compute; reflexivity | simpl; discriminate]). }
  assert (Hfits : fits_size seed (mkRequest 1 1 2 [1; 2; 5] 9.20)).
  { exists (mkSize 2 "Medium" 7.00 5). split; [reflexivity | simpl; lia]. }
  assert (Hdeps : dependencies_closed seed (mkRequest 1 1 2 [1; 2; 5] 9.20)).
  { intros a d _ Hd. simpl in Hd.
    repeat (destruct Hd as [Hd|Hd]; [injection Hd as <- <-; simpl; auto|]).
    destruct Hd. }
  assert (Hinc : no_incompatible_pair seed (mkRequest 1 1 2 [1; 2; 5] 9.20)).
  { intros a b Ha Hb Hrow. simpl in Ha, Hb, Hrow.
    repeat (destruct Hrow as [Hrow|Hrow];
            [injection Hrow as <- <-; intuition discriminate|]).
    destruct Hrow. }
  assert (Hnd : NoDup [1; 2; 5]).
  { repeat (constructor; [simpl; intuition discriminate|]). constructor. }
  repeat (split; [first [reflexivity | assumption]|]).
  exact (@valid_request_is_accepted
           (mkRequest 1 1 2 [1; 2; 5] 9.20) (connect seed [])
           eq_refl eq_refl eq_refl seed_associations_of_issued_orders
           Hdish Hsize Hstock (or_intror Hfits) Hdeps Hinc Hnd).
Defined.

(** ** What the engine leaves alone *)

Lemma reserve_row_static (ing : Z) (r : Ingredient) :
  static_part (reserve_row ing r) = static_part r.
Proof.
  unfold reserve_row, static_part. destruct (availability r) as [a|]; [|reflexivity].
  destruct ((ing_id r =? ing) && (a >? 0)); reflexivity.
Qed.

Lemma release_row_static (ing : Z) (r : Ingredient) :
  static_part (release_row ing r) = static_part r.
Proof.
  unfold release_row, static_part. destruct (availability r) as [a|]; [|reflexivity].
  destruct (ing_id r =? ing); reflexivity.
Qed.

Lemma reserve_all_static (ings : list Z) :
  forall rows, map static_part (reserve_all ings rows) = map static_part rows.
Proof.
  induction ings as [|ing ings IH]; intros rows; [reflexivity|].
  unfold reserve_all in *. simpl. rewrite IH, map_map.
  apply map_ext. intros r. apply reserve_row_static.
Qed.

Lemma release_all_static (ings : list Z) :
  forall rows, map static_part (release_all ings rows) = map static_part rows.
Proof.
  induction ings as [|ing ings IH]; intros rows; [reflexivity|].
  unfold release_all in *. simpl. rewrite IH, map_map.
  apply map_ext. intros r. apply release_row_static.
Qed.

Lemma same_catalog_refl (t : Tables) : same_catalog t t.
Proof. repeat split. Qed.

Lemma same_catalog_created (order : OrderRequest) (t : Tables) :
  same_catalog t (created order t).
Proof.
  repeat split. unfold created, with_ingredients; simpl. apply reserve_all_static.
Qed.

Lemma same_catalog_deleted (userId orderId : Z) (t : Tables) :
  same_catalog t (deleted userId orderId t).
Proof.
  repeat split. unfold deleted; simpl. apply release_all_static.
Qed.

(** X5: neither handler ever writes to the catalog.  Whatever the request,
    the connection and the storage faults, after POST /api/orders and after
    DELETE /api/orders/:id the dishes, the sizes, the dependency and the
    incompatibility rows are the same, and the ingredient rows are the same
    rows in the same order with the same id, name and price: availability is
    the only column of the catalog that changes. *)
Theorem handlers_never_write_the_catalog
    (order : OrderRequest) (userId orderId : Z) (s : Store) :
  same_catalog (live s) (live (snd (post_orders order s))) /\
  same_catalog (live s) (live (snd (delete_orders userId orderId s))).
Proof.
  split.
  - pose proof (post_orders_effect order s) as H.
    destruct (post_orders order s) as [[| |id|] s']; simpl;
      try (destruct H as [-> _]; apply same_catalog_refl).
    destruct H as (_ & ->). apply same_catalog_created.
  - unfold delete_orders. destruct (1 <=? orderId); [|apply same_catalog_refl].
    pose proof (deleteOrder_spec userId orderId s) as H.
    destruct (deleteOrder userId orderId s) as [[n|e] s'].
    + destruct H as (_ & Hl & _).
      assert (Hsame : same_catalog (live s) (live s'))
        by (rewrite Hl; apply same_catalog_deleted).
      destruct (n =? 0); exact Hsame.
    + destruct H as [Hl _]. simpl. rewrite Hl. apply same_catalog_refl.
Qed.

(** ** One unit per ingredient *)

Lemma fold_left_fixed (step : Z -> Ingredient -> Ingredient) (r : Ingredient)
    (ings : list Z) :
  (forall ing, step ing r = r) ->
  fold_left (fun r ing => step ing r) ings r = r.
Proof.
  intros Hfix. induction ings as [|ing ings IH]; simpl; [reflexivity|].
  rewrite Hfix. exact IH.
Qed.

Lemma reserve_row_all_NoDup (ings : list Z) (r : Ingredient) :
  NoDup ings -> reserve_row_all ings r = reserve_once ings r.
Proof.
  intros Hnd. unfold reserve_once.
  destruct (includes ings (ing_id r)) eqn:Hinc.
  - apply includes_In in Hinc.
    destruct (availability r) as [a|] eqn:Ha.
    + destruct (Z_lt_le_dec 0 a) as [Hpos|Hle].
      * rewrite (reserve_row_all_once r Hnd Hinc Ha Hpos).
        unfold reserve_row. rewrite Ha, Z.eqb_refl.
        apply Z.gtb_lt in Hpos. rewrite Hpos. reflexivity.
      * assert (Hfix : forall ing, reserve_row ing r = r).
        { intros ing. unfold reserve_row. rewrite Ha.
          assert (E : (a >? 0) = false) by (rewrite Z.gtb_ltb; apply Z.ltb_ge; exact Hle).
          rewrite E, andb_false_r. reflexivity. }
        unfold reserve_row_all. rewrite (@fold_left_fixed reserve_row r ings Hfix).
        symmetry. apply Hfix.
    + assert (Hfix : forall ing, reserve_row ing r = r)
        by (intros ing; apply reserve_row_unlimited; exact Ha).
      unfold reserve_row_all. rewrite (@fold_left_fixed reserve_row r ings Hfix).
      symmetry. apply Hfix.
  - apply reserve_row_all_others. intros Hin. apply includes_In in Hin. congruence.
Qed.

Lemma release_row_all_NoDup (ings : list Z) (r : Ingredient) :
  NoDup ings -> release_row_all ings r = release_once ings r.
Proof.
  intros Hnd. unfold release_once.
  destruct (includes ings (ing_id r)) eqn:Hinc.
  - apply includes_In in Hinc.
    destruct (availability r) as [a|] eqn:Ha.
    + rewrite (release_row_all_once r Hnd Hinc Ha).
      unfold release_row. rewrite Ha, Z.eqb_refl. reflexivity.
    + assert (Hfix : forall ing, release_row ing r = r)
        by (intros ing; apply release_row_unlimited; exact Ha).
      unfold release_row_all. rewrite (@fold_left_fixed release_row r ings Hfix).
      symmetry. apply Hfix.
  - apply release_row_all_others. intros Hin. apply includes_In in Hin. congruence.
Qed.

(** X6: a committed order takes one unit, and one only, of each of its
    ingredients that is tracked and in stock.  When [createOrder] resolves,
    the ingredients table is the one from before where every row whose id is
    a candidate has gone through the conditional decrement once (tracked with
    stock: one unit less; tracked at 0 or unlimited: unchanged) and every
    other row is untouched. *)
Theorem committed_order_reserves_one_unit_each
    (order : OrderRequest) (s s' : Store) (id : Z) :
  createOrder order s = (Resolved id, s') ->
  ingredients (live s')
  = map (reserve_once (req_ingredients order)) (ingredients (live s)).
Proof.
  intros Hc.
  pose proof (createOrder_resolved_NoDup order s Hc) as Hnd.
  pose proof (createOrder_spec order s) as H. rewrite Hc in H.
  destruct H as (_ & -> & _).
  unfold created, with_ingredients; simpl.
  rewrite reserve_all_rowwise. apply map_ext.
  intros r. apply reserve_row_all_NoDup. exact Hnd.
Qed.

Lemma committed_order_reserves_one_unit_each_witness :
  createOrder (mkRequest 1 1 2 [1; 2; 5] 9.20) (connect seed [])
    = (Resolved 5, connect (created (mkRequest 1 1 2 [1; 2; 5] 9.20) seed) []) /\
  ingredients (created (mkRequest 1 1 2 [1; 2; 5] 9.20) seed)
    = map (reserve_once [1; 2; 5]) (ingredients seed).
Proof.
  assert (H : createOrder (mkRequest 1 1 2 [1; 2; 5] 9.20) (connect seed [])
              = (Resolved 5,
                 connect (created (mkRequest 1 1 2 [1; 2; 5] 9.20) seed) []))
    by (vm_compute; reflexivity).
  split; [exact H|].
  exact (@committed_order_reserves_one_unit_each
           (mkRequest 1 1 2 [1; 2; 5] 9.20) (connect seed []) _ 5 H).
Defined.

Lemma select_second_NoDup (key : Z) (rows : list (Z * Z)) :
  NoDup rows -> NoDup (select_second key rows).
Proof.
  unfold select_second. intros Hnd. apply ascending_NoDup. revert Hnd.
  induction rows as [|[k v] rows IH]; intros Hnd; simpl; [constructor|].
  apply NoDup_cons_iff in Hnd as [Hfresh Hnd].
  destruct (k =? key) eqn:E; simpl; [|exact (IH Hnd)].
  constructor; [|exact (IH Hnd)].
  intros Hin. apply Z.eqb_eq in E. subst k.
  apply ascending_In in Hin.
  apply (proj1 (select_second_In key v rows)) in Hin. contradiction.
Qed.

(** X7: a resolved [deleteOrder] gives back one unit, and one only, to each
    tracked ingredient that has an association row with the order id, and
    touches no other row.  The rows are taken by order id alone: the user
    plays no part in what is released. *)
Theorem resolved_delete_releases_one_unit_each
    (userId orderId : Z) (s s' : Store) (changes : Z) :
  NoDup (order_ingredients (live s)) ->
  deleteOrder userId orderId s = (Resolved changes, s') ->
  ingredients (live s')
  = map (release_once (select_second orderId (order_ingredients (live s))))
      (ingredients (live s)).
Proof.
  intros Hpk Hd.
  pose proof (deleteOrder_spec userId orderId s) as H. rewrite Hd in H.
  destruct H as (_ & -> & _).
  unfold deleted; simpl.
  rewrite release_all_rowwise. apply map_ext.
  intros r. apply release_row_all_NoDup. apply select_second_NoDup. exact Hpk.
Qed.

Lemma seed_order_ingredients_NoDup : NoDup (order_ingredients seed).
Proof.
  unfold seed; simpl.
  repeat (constructor; [simpl; intuition discriminate|]). constructor.
Defined.

Lemma resolved_delete_releases_one_unit_each_witness :
  NoDup (order_ingredients seed) /\
  deleteOrder 2 3 (connect seed [])
    = (Resolved 1, connect (deleted 2 3 seed) []) /\
  ingredients (deleted 2 3 seed) = map (release_once [3; 4; 5]) (ingredients seed).
Proof.
  assert (H : deleteOrder 2 3 (connect seed [])
              = (Resolved 1, connect (deleted 2 3 seed) []))
    by (vm_compute; reflexivity).
  split; [exact seed_order_ingredients_NoDup|]. split; [exact H|].
  exact (@resolved_delete_releases_one_unit_each 2 3 (connect seed []) _ 1
           seed_order_ingredients_NoDup H).
Defined.

(** ** Other orders *)

Lemma order_view_created (order : OrderRequest) (t : Tables) (other : Z) :
  other <> next_order_id t ->
  order_view other (created order t) = order_view other t.
Proof.
  intros Hne. unfold order_view, created, with_ingredients, select_second; simpl.
  rewrite !filter_app. simpl.
  assert (E : (next_order_id t =? other) = false) by (apply Z.eqb_neq; auto).
  rewrite E. rewrite app_nil_r.
  rewrite (filter_none _ (map (pair (next_order_id t)) (req_ingredients order))).
  - rewrite app_nil_r. reflexivity.
  - intros r Hr. apply in_map_iff in Hr as (x & <- & _). exact E.
Qed.

Lemma filter_filter_other (A : Type) (f g : A -> bool) (l : list A) :
  (forall x, f x = true -> g x = true) ->
  filter f (filter g l) = filter f l.
Proof.
  intros Himp. induction l as [|x l IH]; simpl; [reflexivity|].
  destruct (g x) eqn:Hg; simpl.
  - rewrite IH. reflexivity.
  - destruct (f x) eqn:Hf; [|exact IH].
    rewrite (Himp x Hf) in Hg. discriminate.
Qed.

Lemma order_view_deleted (userId orderId : Z) (t : Tables) (other : Z) :
  other <> orderId ->
  order_view other (deleted userId orderId t) = order_view other t.
Proof.
  intros Hne. unfold order_view, deleted, select_second; simpl.
  rewrite !filter_filter_other; [reflexivity| |].
  - intros r Hr. apply Z.eqb_eq in Hr. apply negb_true_iff. apply Z.eqb_neq.
    congruence.
  - intros o Ho. apply Z.eqb_eq in Ho. apply negb_true_iff.
    unfold order_matches. apply andb_false_iff. left. apply Z.eqb_neq. congruence.
Qed.

(** X8: an operation on one order leaves every other order as it is.  After
    POST /api/orders, and after DELETE /api/orders/:id, the row and the
    association rows of any order other than the one created (the next id),
    respectively the one named in the request, are the ones from before,
    whatever the answer and the storage faults. *)
Theorem handlers_spare_other_orders
    (order : OrderRequest) (userId orderId other : Z) (s : Store) :
  other <> next_order_id (live s) ->
  other <> orderId ->
  order_view other (live (snd (post_orders order s))) = order_view other (live s) /\
  order_view other (live (snd (delete_orders userId orderId s)))
    = order_view other (live s).
Proof.
  intros Hnew Hdel. split.
  - pose proof (post_orders_effect order s) as H.
    destruct (post_orders order s) as [[| |id|] s']; simpl;
      try (destruct H as [-> _]; reflexivity).
    destruct H as (_ & ->). apply order_view_created. exact Hnew.
  - unfold delete_orders. destruct (1 <=? orderId); [|reflexivity].
    pose proof (deleteOrder_spec userId orderId s) as H.
    destruct (deleteOrder userId orderId s) as [[n|e] s'].
    + destruct H as (_ & Hl & _).
      assert (Hsame : order_view other (live s') = order_view other (live s))
        by (rewrite Hl; apply order_view_deleted; exact Hdel).
      destruct (n =? 0); exact Hsame.
    + destruct H as [Hl _]. simpl. rewrite Hl. reflexivity.
Qed.

Lemma handlers_spare_other_orders_witness :
  2 <> next_order_id seed /\ 2 <> 3 /\
  order_view 2 (live (snd (post_orders (mkRequest 1 1 2 [1; 2; 5] 9.20)
                             (connect seed []))))
    = ([mkOrder 2 1 2 1 6.50], [1; 2]) /\
  order_view 2 (live (snd (delete_orders 2 3 (connect seed []))))
    = ([mkOrder 2 1 2 1 6.50], [1; 2]).
Proof.
  assert (H1 : 2 <> next_order_id seed) by (vm_compute; discriminate).
  assert (H2 : 2 <> 3) by discriminate.
  split; [exact H1|]. split; [exact H2|].
  exact (handlers_spare_other_orders (mkRequest 1 1 2 [1; 2; 5] 9.20) 2
           (connect seed []) H1 H2).
Defined.

(** ** The answer of DELETE /api/orders/:id *)

Lemma matching_rows_of_unique_ids (orderId userId : Z) (l : list Order) :
  NoDup (map order_id l) ->
  List.length (filter (order_matches orderId userId) l)
  = if existsb (order_matches orderId userId) l then 1%nat else 0%nat.
Proof.
  induction l as [|o l IH]; intros Hnd; simpl; [reflexivity|].
  simpl in Hnd. apply NoDup_cons_iff in Hnd as [Hfresh Hnd].
  destruct (order_matches orderId userId o) eqn:Hm; simpl; [|exact (IH Hnd)].
  rewrite filter_none; [reflexivity|].
  intros o' Ho'. unfold order_matches in *.
  apply andb_true_iff in Hm as [Hid _]. apply Z.eqb_eq in Hid.
  apply andb_false_iff. left. apply Z.eqb_neq. intros E.
  apply Hfresh. rewrite Hid, <- E. apply in_map. exact Ho'.
Qed.

(** X9: with unique order ids, no storage fault and no open transaction,
    DELETE /api/orders/:id for an id from 1 on answers 200 with changes = 1
    exactly when the order exists and belongs to the asking user, and 404
    otherwise; either way no association row with that order id and no order
    row of that user with that id is left. *)
Theorem delete_orders_answer (userId orderId : Z) (s : Store) :
  NoDup (map order_id (orders (live s))) ->
  faults s = [] -> saved s = None -> 1 <= orderId ->
  fst (delete_orders userId orderId s)
    = (if existsb (order_matches orderId userId) (orders (live s))
       then Delete200 1 else Delete404) /\
  select_second orderId
    (order_ingredients (live (snd (delete_orders userId orderId s)))) = [] /\
  existsb (order_matches orderId userId)
    (orders (live (snd (delete_orders userId orderId s)))) = false.
Proof.
  intros Hids Hf Hs Hpos. unfold delete_orders.
  apply Z.leb_le in Hpos. rewrite Hpos.
  destruct (deleteOrder_quiet userId orderId s Hf Hs) as (n & s' & Hd & _).
  pose proof (deleteOrder_spec userId orderId s) as H. rewrite Hd in H. rewrite Hd.
  destruct H as (Hn & Hl & _).
  rewrite (matching_rows_of_unique_ids orderId userId _ Hids) in Hn.
  assert (Hrows : select_second orderId (order_ingredients (live s')) = []).
  { rewrite Hl. unfold deleted, select_second; simpl.
    rewrite filter_none; [reflexivity|].
    intros r Hr. apply filter_In in Hr as [_ Hr].
    apply negb_true_iff in Hr. exact Hr. }
  assert (Hgone : existsb (order_matches orderId userId) (orders (live s')) = false).
  { rewrite Hl. unfold deleted; simpl.
    apply not_true_is_false. intros E.
    apply existsb_exists in E as (o & Ho & Hm).
    apply filter_In in Ho as [_ Ho]. rewrite Hm in Ho. discriminate. }
  destruct (existsb (order_matches orderId userId) (orders (live s)));
    subst n; simpl; auto.
Qed.

Lemma seed_order_ids_unique : NoDup (map order_id (orders seed)).
Proof.
  unfold seed; simpl.
  repeat (constructor; [simpl; intuition discriminate|]). constructor.
Defined.

Lemma delete_orders_answer_witness :
  NoDup (map order_id (orders seed)) /\ 1 <= 3 /\
  fst (delete_orders 2 3 (connect seed [])) = Delete200 1 /\
  select_second 3
    (order_ingredients (live (snd (delete_orders 2 3 (connect seed []))))) = [] /\
  existsb (order_matches 3 2)
    (orders (live (snd (delete_orders 2 3 (connect seed []))))) = false.
Proof.
  assert (Hpos : 1 <= 3) by lia.
  split; [exact seed_order_ids_unique|]. split; [exact Hpos|].
  exact (@delete_orders_answer 2 3 (connect seed [])
           seed_order_ids_unique eq_refl eq_refl Hpos).
Defined.

(** * The listing functions *)

(** ** Queries sent for every row *)

Lemma send_all_live (A B : Type) (g : A -> Tables -> B) (rows : list A) :
  forall s,
    live (snd (send_all (fun a => query (g a)) rows s)) = live s /\
    saved (snd (send_all (fun a => query (g a)) rows s)) = saved s.
Proof.
  induction rows as [|row rows IH]; intros s; simpl; [auto|].
  rewrite query_run.
  destruct (hd false (faults s)).
  - specialize (IH (after s (live s))).
    destruct (send_all _ rows (after s (live s))) as [rs s2]. exact IH.
  - specialize (IH (after s (live s))).
    destruct (send_all _ rows (after s (live s))) as [rs s2]. exact IH.
Qed.

(** When every query came back, each brought what the tables hold. *)
Lemma send_all_fulfilled (A B : Type) (g : A -> Tables -> B) (rows : list A) :
  forall s l,
    all_fulfilled (fst (send_all (fun a => query (g a)) rows s)) = Some l ->
    l = map (fun a => g a (live s)) rows.
Proof.
  induction rows as [|row rows IH]; intros s l; simpl.
  - intros [= <-]. reflexivity.
  - rewrite query_run.
    destruct (hd false (faults s)).
    + destruct (send_all _ rows (after s (live s))) as [rs s2]. discriminate.
    + specialize (IH (after s (live s))).
      destruct (send_all _ rows (after s (live s))) as [rs s2]. simpl in *.
      destruct (all_fulfilled rs) as [l'|]; [|discriminate].
      intros [= <-]. rewrite (IH l' eq_refl). reflexivity.
Qed.

(** A fault on one of the queries keeps [Promise.all] from being
    fulfilled. *)
Lemma send_all_fault (A B : Type) (g : A -> Tables -> B) (rows : list A) :
  forall s,
    In true (firstn (List.length rows) (faults s)) ->
    all_fulfilled (fst (send_all (fun a => query (g a)) rows s)) = None.
Proof.
  induction rows as [|row rows IH]; intros s Hin; [destruct Hin|].
  simpl. rewrite query_run.
  destruct (faults s) as [|b fs] eqn:Hf; [destruct Hin|].
  simpl in Hin. simpl hd. destruct b.
  - destruct (send_all _ rows _) as [rs s2]. reflexivity.
  - destruct Hin as [E|Hin]; [discriminate|].
    specialize (IH (after s (live s))).
    assert (Hfs : faults (after s (live s)) = fs) by (simpl; rewrite Hf; reflexivity).
    rewrite Hfs in IH. specialize (IH Hin).
    destruct (send_all _ rows (after s (live s))) as [rs s2]. simpl in *.
    rewrite IH. reflexivity.
Qed.

Lemma send_all_quiet (A B : Type) (g : A -> Tables -> B) (rows : list A) (s : Store) :
  faults s = [] ->
  send_all (fun a => query (g a)) rows s
  = (map (fun a => inr (g a (live s))) rows, s).
Proof.
  intros Hf. induction rows as [|row rows IH]; simpl; [reflexivity|].
  rewrite query_run, Hf. simpl. rewrite after_quiet by exact Hf.
  rewrite IH. reflexivity.
Qed.

Lemma all_fulfilled_inr (A B : Type) (f : A -> B) (rows : list A) :
  all_fulfilled (map (fun a => @inr SqlError B (f a)) rows) = Some (map f rows).
Proof.
  induction rows as [|row rows IH]; simpl; [reflexivity|]. rewrite IH. reflexivity.
Qed.

Lemma combine_map_self (A B : Type) (f : A -> B) (rows : list A) :
  combine rows (map f rows) = map (fun a => (a, f a)) rows.
Proof. induction rows as [|row rows IH]; simpl; [reflexivity|]. rewrite IH. reflexivity. Qed.

(** ** The sort of [listOrders] *)

Lemma insert_by_id_desc_perm (x : ListedOrder) (l : list ListedOrder) :
  Permutation (insert_by_id_desc x l) (x :: l).
Proof.
  induction l as [|y l IH]; simpl; [apply Permutation_refl|].
  destruct (lo_id y <=? lo_id x); [apply Permutation_refl|].
  apply perm_trans with (y :: x :: l); [apply perm_skip; exact IH | apply perm_swap].
Qed.

Lemma sort_by_id_desc_perm (l : list ListedOrder) :
  Permutation (sort_by_id_desc l) l.
Proof.
  induction l as [|x l IH]; simpl; [apply perm_nil|].
  apply perm_trans with (x :: sort_by_id_desc l);
    [apply insert_by_id_desc_perm | apply perm_skip; exact IH].
Qed.

Lemma insert_by_id_desc_sorted (x : ListedOrder) (l : list ListedOrder) :
  StronglySorted (fun a b => lo_id b <= lo_id a) l ->
  StronglySorted (fun a b => lo_id b <= lo_id a) (insert_by_id_desc x l).
Proof.
  induction 1 as [|y l Hs IH Hall]; simpl.
  - constructor; constructor.
  - destruct (lo_id y <=? lo_id x) eqn:E.
    + apply Z.leb_le in E. constructor.
      * constructor; assumption.
      * constructor; [exact E|].
        rewrite Forall_forall in *. intros z Hz. specialize (Hall z Hz). lia.
    + apply Z.leb_gt in E. constructor; [exact IH|].
      rewrite Forall_forall in *. intros z Hz.
      apply (Permutation_in _ (insert_by_id_desc_perm x l)) in Hz.
      destruct Hz as [<-|Hz]; [lia | exact (Hall z Hz)].
Qed.

Lemma sort_by_id_desc_sorted (l : list ListedOrder) :
  StronglySorted (fun a b => lo_id b <= lo_id a) (sort_by_id_desc l).
Proof.
  induction l as [|x l IH]; simpl; [constructor|].
  apply insert_by_id_desc_sorted. exact IH.
Qed.

(** An element with the largest id, appended last, is sorted first. *)
Lemma sort_by_id_desc_newest (l : list ListedOrder) (x : ListedOrder) :
  (forall y, In y l -> lo_id y < lo_id x) ->
  sort_by_id_desc (l ++ [x]) = x :: sort_by_id_desc l.
Proof.
  induction l as [|y l IH]; intros Hmax; simpl; [reflexivity|].
  rewrite IH by (intros z Hz; apply Hmax; right; exact Hz).
  simpl. specialize (Hmax y (or_introl eq_refl)).
  assert (E : (lo_id x <=? lo_id y) = false) by (apply Z.leb_gt; exact Hmax).
  rewrite E. reflexivity.
Qed.

(** ** [listOrders] *)

(** The array before it is sorted. *)
Lemma listOrders_fulfilled (userId : Z) (s s' : Store) (L : list ListedOrder) :
  listOrders userId s = (Fulfilled L, s') ->
  live s' = live s /\
  L = sort_by_id_desc
        (flat_map (fun o =>
           flat_map (fun b =>
             map (fun z => entry_of (live s) o b z)
               (filter (fun z => order_size_id o =? size_id z) (sizes (live s))))
             (filter (fun b => order_dish_id o =? dish_id b) (basedishes (live s))))
           (filter (fun o => user_id o =? userId) (orders (live s)))).
Proof.
  unfold listOrders, select_orders_of, select_ingredients_of_order.
  rewrite query_run. destruct (hd false (faults s)); [discriminate|].
  match goal with |- context [send_all ?q ?rows ?s1] =>
    pose proof (@send_all_live _ _
                  (fun order t => ingredients_with t
                     (select_second (oj_id order) (order_ingredients t))) rows s1) as Hl;
    pose proof (@send_all_fulfilled _ _
                  (fun order t => ingredients_with t
                     (select_second (oj_id order) (order_ingredients t))) rows s1) as Hr;
    destruct (send_all q rows s1) as [results s2] eqn:Hsend
  end.
  simpl in Hl, Hr.
  destruct (all_fulfilled results) as [ings|]; [|discriminate].
  intros [= <- <-]. split; [exact (proj1 Hl)|].
  rewrite (Hr ings eq_refl), combine_map_self, map_map.
  f_equal. rewrite !flat_map_concat_map, !concat_map, !map_map.
  f_equal. apply map_ext. intros o.
  rewrite !flat_map_concat_map, !concat_map, !map_map.
  f_equal. apply map_ext. intros b. rewrite map_map. reflexivity.
Qed.

(** The ingredient rows of an entry come in ascending order of their ids. *)
Lemma StronglySorted_app (l1 l2 : list Z) :
  StronglySorted Z.le l1 -> StronglySorted Z.le l2 ->
  (forall a b, In a l1 -> In b l2 -> a <= b) ->
  StronglySorted Z.le (l1 ++ l2).
Proof.
  induction l1 as [|x l1 IH]; simpl; intros H1 H2 H; [exact H2|].
  inversion H1 as [|x' l' Hs Hall]; subst. constructor.
  - apply IH; [exact Hs | exact H2 | intros a b Ha Hb; apply H; auto].
  - apply Forall_forall. intros y Hy. apply in_app_or in Hy as [Hy|Hy].
    + exact (proj1 (Forall_forall _ _) Hall y Hy).
    + apply H; [left; reflexivity | exact Hy].
Qed.

Lemma StronglySorted_constant (x : Z) (l : list Z) :
  (forall a, In a l -> a = x) -> StronglySorted Z.le l.
Proof.
  induction l as [|y l IH]; intros H; constructor.
  - apply IH. intros a Ha. apply H. right. exact Ha.
  - apply Forall_forall. intros a Ha.
    rewrite (H y (or_introl eq_refl)), (H a (or_intror Ha)). lia.
Qed.

Lemma ingredients_with_In (t : Tables) (ids : list Z) (r : Ingredient) :
  In r (ingredients_with t ids) <-> In r (ingredients t) /\ In (ing_id r) ids.
Proof.
  unfold ingredients_with. rewrite in_flat_map. split.
  - intros (id & Hid & Hr). apply filter_In in Hr as [Hr E].
    apply Z.eqb_eq in E. subst id. auto.
  - intros [Hr Hid]. exists (ing_id r). split; [exact Hid|].
    apply filter_In. split; [exact Hr | apply Z.eqb_refl].
Qed.

Lemma ingredients_with_sorted (t : Tables) (ids : list Z) :
  StronglySorted Z.le ids ->
  StronglySorted Z.le (map ing_id (ingredients_with t ids)).
Proof.
  induction 1 as [|x l Hs IH Hall]; [constructor|].
  change (ingredients_with t (x :: l))
    with (filter (fun i => x =? ing_id i) (ingredients t) ++ ingredients_with t l)%list.
  rewrite map_app. apply StronglySorted_app; [|exact IH|].
  - apply StronglySorted_constant with x. intros a Ha.
    apply in_map_iff in Ha as (r & <- & Hr). apply filter_In in Hr as [_ E].
    apply Z.eqb_eq in E. auto.
  - intros a b Ha Hb.
    apply in_map_iff in Ha as (r & <- & Hr). apply filter_In in Hr as [_ E].
    apply Z.eqb_eq in E. rewrite <- E.
    apply in_map_iff in Hb as (r' & <- & Hr').
    apply ingredients_with_In in Hr' as [_ Hr'].
    exact (proj1 (Forall_forall _ _) Hall _ Hr').
Qed.

Lemma select_second_sorted (key : Z) (rows : list (Z * Z)) :
  StronglySorted Z.le (select_second key rows).
Proof.
  unfold select_second. apply Sorted_StronglySorted.
  - intros x y z. apply Z.le_trans.
  - apply ascending_sorted.
Qed.

(** X10: [listOrders] shows a user their own orders and nothing else.  When
    it resolves, the array is sorted by order id, largest first, and holds
    exactly the entries made of an order row of that user, the dish row and
    the size row it names (an order whose dish or size row is missing is
    left out), with the stored total and the ingredient rows of its
    association rows, which come in ascending order of the ingredient ids
    (the order of the primary-key index, not that of the insertions); the
    tables are not changed. *)
Theorem listOrders_lists_own_orders
    (userId : Z) (s s' : Store) (L : list ListedOrder) :
  listOrders userId s = (Fulfilled L, s') ->
  live s' = live s /\
  StronglySorted (fun a b => lo_id b <= lo_id a) L /\
  forall entry,
    In entry L <->
    exists o b z,
      In o (orders (live s)) /\ user_id o = userId /\
      In b (basedishes (live s)) /\ dish_id b = order_dish_id o /\
      In z (sizes (live s)) /\ size_id z = order_size_id o /\
      entry = entry_of (live s) o b z /\
      StronglySorted Z.le (map ing_id (lo_ingredients entry)) /\
      forall r, In r (lo_ingredients entry) <->
                In r (ingredients (live s)) /\
                In (order_id o, ing_id r) (order_ingredients (live s)).
Proof.
  intros Hrun. destruct (listOrders_fulfilled userId s Hrun) as [Hl ->].
  split; [exact Hl|]. split; [apply sort_by_id_desc_sorted|].
  assert (Hentry : forall o b z,
             StronglySorted Z.le
               (map ing_id (lo_ingredients (entry_of (live s) o b z))) /\
             forall r, In r (lo_ingredients (entry_of (live s) o b z)) <->
                       In r (ingredients (live s)) /\
                       In (order_id o, ing_id r) (order_ingredients (live s))).
  { intros o b z. unfold entry_of. cbn [lo_ingredients]. split.
    - apply ingredients_with_sorted. apply select_second_sorted.
    - intros r. rewrite ingredients_with_In, select_second_In. reflexivity. }
  intros entry. split.
  - intros Hin. apply (Permutation_in _ (sort_by_id_desc_perm _)) in Hin.
    apply in_flat_map in Hin as (o & Ho & Hin).
    apply in_flat_map in Hin as (b & Hb & Hin).
    apply in_map_iff in Hin as (z & <- & Hz).
    apply filter_In in Ho as [Ho Hu]. apply filter_In in Hb as [Hb Hd].
    apply filter_In in Hz as [Hz Hsz].
    apply Z.eqb_eq in Hu, Hd, Hsz.
    exists o, b, z. destruct (Hentry o b z) as [Hsorted Hrows].
    repeat split; auto; apply Hrows; assumption.
  - intros (o & b & z & Ho & Hu & Hb & Hd & Hz & Hsz & -> & _).
    apply (Permutation_in _ (Permutation_sym (sort_by_id_desc_perm _))).
    apply in_flat_map. exists o. split.
    { apply filter_In. split; [exact Ho | apply Z.eqb_eq; exact Hu]. }
    apply in_flat_map. exists b. split.
    { apply filter_In. split; [exact Hb | apply Z.eqb_eq; auto]. }
    apply in_map. apply filter_In. split; [exact Hz | apply Z.eqb_eq; auto].
Qed.

Lemma listOrders_lists_own_orders_witness :
  exists L,
    listOrders 2 (connect seed []) = (Fulfilled L, connect seed []) /\
    map (fun e => (lo_id e, map ing_id (lo_ingredients e))) L
      = [(4, [5; 6; 10]); (3, [3; 4; 5])] /\
    StronglySorted (fun a b => lo_id b <= lo_id a) L.
Proof.
  assert (H : exists L,
             listOrders 2 (connect seed []) = (Fulfilled L, connect seed []) /\
             map (fun e => (lo_id e, map ing_id (lo_ingredients e))) L
               = [(4, [5; 6; 10]); (3, [3; 4; 5])])
    by (eexists; split; vm_compute; reflexivity).
  destruct H as (L & Hrun & Hids). exists L.
  split; [exact Hrun|]. split; [exact Hids|].
  exact (proj1 (proj2 (@listOrders_lists_own_orders 2 (connect seed []) _ _ Hrun))).
Defined.

(** ** A failed inner query *)

Lemma flat_map_length_ext (A B C : Type) (f : A -> list B) (g : A -> list C)
    (l : list A) :
  (forall x, List.length (f x) = List.length (g x)) ->
  List.length (flat_map f l) = List.length (flat_map g l).
Proof.
  intros H. induction l as [|x l IH]; simpl; [reflexivity|].
  rewrite !length_app, H, IH. reflexivity.
Qed.

(** X11: a storage fault on the ingredients query of any of the user's
    orders leaves GET /api/orders without an answer.  When the first query of
    [listOrders] goes through and one of the queries sent for its rows fails,
    the promise is neither resolved nor rejected: the handler neither sends
    the orders nor the 500 it sends when the first query fails. *)
Theorem failed_ingredients_query_leaves_get_orders_unanswered
    (userId : Z) (s : Store) :
  hd false (faults s) = false ->
  In true (firstn (List.length (own_entries userId (live s))) (tl (faults s))) ->
  fst (get_orders userId s) = NoAnswer.
Proof.
  intros Hfirst Hfault.
  unfold get_orders, listOrders, select_orders_of, select_ingredients_of_order.
  rewrite query_run, Hfirst.
  match goal with |- context [send_all ?q ?rows ?s1] =>
    pose proof (@send_all_fault _ _
                  (fun order t => ingredients_with t
                     (select_second (oj_id order) (order_ingredients t))) rows s1) as Hnone;
    destruct (send_all q rows s1) as [results s2] eqn:Hsend
  end.
  simpl in Hnone. rewrite Hnone; [reflexivity|].
  erewrite flat_map_length_ext; [exact Hfault|].
  intros o. apply flat_map_length_ext. intros b. rewrite !length_map. reflexivity.
Qed.

Lemma failed_ingredients_query_leaves_get_orders_unanswered_witness :
  In true (firstn (List.length (own_entries 1 seed)) [false; true]) /\
  fst (get_orders 1 (connect seed [false; false; true])) = NoAnswer /\
  fst (get_orders 1 (connect seed [true])) = Status500.
Proof.
  assert (H : In true (firstn (List.length (own_entries 1 seed)) [false; true]))
    by (right; left; reflexivity).
  split; [exact H|]. split; [|reflexivity].
  exact (@failed_ingredients_query_leaves_get_orders_unanswered 1
           (connect seed [false; false; true]) eq_refl H).
Defined.

(** ** [listIngredients] *)

Lemma send_all_faults (A B : Type) (g : A -> Tables -> B) (rows : list A) :
  forall s,
    faults (snd (send_all (fun a => query (g a)) rows s))
    = skipn (List.length rows) (faults s).
Proof.
  induction rows as [|row rows IH]; intros s; simpl; [reflexivity|].
  rewrite query_run.
  destruct (hd false (faults s)).
  - specialize (IH (after s (live s))).
    destruct (send_all _ rows (after s (live s))) as [rs s2]. simpl in *.
    rewrite IH. destruct (faults s); [destruct (List.length rows)|]; reflexivity.
  - specialize (IH (after s (live s))).
    destruct (send_all _ rows (after s (live s))) as [rs s2]. simpl in *.
    rewrite IH. destruct (faults s); [destruct (List.length rows)|]; reflexivity.
Qed.

Lemma send_all_length (A B : Type) (q : A -> Sql B) (rows : list A) :
  forall s, List.length (fst (send_all q rows s)) = List.length rows.
Proof.
  induction rows as [|row rows IH]; intros s; simpl; [reflexivity|].
  destruct (q row s) as [r s1]. specialize (IH s1).
  destruct (send_all q rows s1) as [rs s2]. simpl in *. rewrite IH. reflexivity.
Qed.

(** A first query that failed, or a fault on a second one, keeps
    [Promise.all] from being fulfilled. *)
Lemma send_second_unfulfilled (rows : list Ingredient) :
  forall firsts s,
    List.length firsts = List.length rows ->
    all_fulfilled firsts = None \/
    In true (firstn (List.length rows) (faults s)) ->
    all_fulfilled (fst (send_second rows firsts s)) = None.
Proof.
  induction rows as [|ing rows IH]; intros firsts s Hlen Hbad.
  - destruct firsts; [|discriminate]. destruct Hbad as [E|[]]. discriminate.
  - destruct firsts as [|[e|deps] firsts]; [discriminate| |];
      simpl in Hlen; injection Hlen as Hlen; simpl.
    + destruct (send_second rows firsts s) as [rs s2]. reflexivity.
    + unfold select_incompatibility_names. rewrite query_run.
      destruct (faults s) as [|b fs] eqn:Hf.
      * simpl hd. cbv iota.
        assert (Hrest : all_fulfilled firsts = None).
        { destruct Hbad as [E|[]]. simpl in E.
          destruct (all_fulfilled firsts); [discriminate|reflexivity]. }
        specialize (IH firsts (after s (live s)) Hlen (or_introl Hrest)).
        destruct (send_second rows firsts (after s (live s))) as [rs s2].
        simpl in *. rewrite IH. reflexivity.
      * simpl hd. destruct b.
        -- destruct (send_second rows firsts (after s (live s))) as [rs s2].
           reflexivity.
        -- assert (Hrest : all_fulfilled firsts = None \/
                           In true (firstn (List.length rows)
                                      (faults (after s (live s))))).
           { destruct Hbad as [E|Hin].
             - left. simpl in E.
               destruct (all_fulfilled firsts); [discriminate|reflexivity].
             - right. simpl in Hin. destruct Hin as [E|Hin]; [discriminate|].
               simpl. rewrite Hf. exact Hin. }
           specialize (IH firsts (after s (live s)) Hlen Hrest).
           destruct (send_second rows firsts (after s (live s))) as [rs s2].
           simpl in *. rewrite IH. reflexivity.
Qed.

Lemma firstn_twice (A : Type) (n : nat) (l : list A) (x : A) :
  In x (firstn (n + n) l) -> In x (firstn n l) \/ In x (firstn n (skipn n l)).
Proof.
  rewrite <- (firstn_skipn n l) at 1. rewrite firstn_app.
  intros Hin. apply in_app_or in Hin as [Hin|Hin].
  - left. rewrite firstn_firstn in Hin.
    replace (Nat.min (n + n) n) with n in Hin by lia. exact Hin.
  - right. destruct (Nat.le_gt_cases n (List.length l)) as [Hle|Hgt].
    + rewrite length_firstn in Hin.
      replace (n + n - Nat.min n (List.length l))%nat with n in Hin by lia.
      exact Hin.
    + rewrite skipn_all2 in Hin by lia. rewrite firstn_nil in Hin. destruct Hin.
Qed.

(** X12: a storage fault on one of the name queries of [listIngredients]
    leaves GET /api/ingredients without an answer.  The handler sends the
    dependency query of every ingredient row, then the incompatibility query
    of every row; when the first query goes through and any of these two
    queries per row fails, the promise is never settled. *)
Theorem failed_name_query_leaves_get_ingredients_unanswered (s : Store) :
  hd false (faults s) = false ->
  In true (firstn (List.length (ingredients (live s)) +
                   List.length (ingredients (live s)))
             (tl (faults s))) ->
  fst (get_ingredients s) = NoAnswer.
Proof.
  intros Hfirst Hfault.
  unfold get_ingredients, listIngredients, select_dependency_names.
  rewrite query_run, Hfirst.
  set (rows := ingredients (live s)) in *.
  set (s1 := after s (live s)).
  pose proof (@send_all_fault _ _
                (fun ing t => names_of t
                   (select_second (ing_id ing) (ingredient_dependencies t)))
                rows s1) as Hnone.
  pose proof (@send_all_faults _ _
                (fun ing t => names_of t
                   (select_second (ing_id ing) (ingredient_dependencies t)))
                rows s1) as Hrest.
  pose proof (send_all_length
                (fun ing => query (fun t => names_of t
                   (select_second (ing_id ing) (ingredient_dependencies t))))
                rows s1) as Hlen.
  destruct (send_all _ rows s1) as [firsts s2]. simpl in Hnone, Hrest, Hlen.
  assert (Hbad : all_fulfilled firsts = None \/
                 In true (firstn (List.length rows) (faults s2))).
  { apply firstn_twice in Hfault as [Hin|Hin].
    - left. apply Hnone. exact Hin.
    - right. rewrite Hrest. exact Hin. }
  pose proof (send_second_unfulfilled rows firsts s2 Hlen Hbad) as Hsecond.
  destruct (send_second rows firsts s2) as [results s3]. simpl in Hsecond.
  rewrite Hsecond. reflexivity.
Qed.

Lemma failed_name_query_leaves_get_ingredients_unanswered_witness :
  In true (firstn (11 + 11) (repeat false 15 ++ [true])) /\
  fst (get_ingredients (connect seed (false :: repeat false 15 ++ [true])))
    = NoAnswer.
Proof.
  assert (H : In true (firstn (11 + 11) (repeat false 15 ++ [true]))).
  { simpl. do 15 right. left. reflexivity. }
  split; [exact H|].
  exact (@failed_name_query_leaves_get_ingredients_unanswered
           (connect seed (false :: repeat false 15 ++ [true])) eq_refl H).
Defined.

(** ** A created order in the listing *)

Lemma listOrders_quiet (userId : Z) (s : Store) :
  faults s = [] ->
  listOrders userId s
  = (Fulfilled (sort_by_id_desc (own_entries userId (live s))), s).
Proof.
  intros Hf. unfold listOrders, select_orders_of, select_ingredients_of_order.
  rewrite query_run, Hf. cbn [hd]. rewrite after_quiet by exact Hf.
  rewrite (@send_all_quiet _ _
             (fun order t => ingredients_with t
                (select_second (oj_id order) (order_ingredients t))) _ s Hf).
  rewrite all_fulfilled_inr, combine_map_self, map_map.
  unfold own_entries. do 3 f_equal.
  rewrite !flat_map_concat_map, !concat_map, !map_map.
  f_equal. apply map_ext. intros o.
  rewrite !flat_map_concat_map, !concat_map, !map_map.
  f_equal. apply map_ext. intros b. rewrite map_map. reflexivity.
Qed.

Lemma filter_unique_key (A : Type) (key : A -> Z) (rows : list A) (x : A) :
  NoDup (map key rows) -> In x rows ->
  filter (fun r => key x =? key r) rows = [x].
Proof.
  induction rows as [|r rows IH]; intros Hnd Hin; [destruct Hin|].
  simpl in Hnd. apply NoDup_cons_iff in Hnd as [Hfresh Hnd]. simpl.
  destruct Hin as [->|Hin].
  - rewrite Z.eqb_refl. f_equal. apply filter_none.
    intros y Hy. apply Z.eqb_neq. intros E. apply Hfresh. rewrite E.
    apply in_map. exact Hy.
  - destruct (key x =? key r) eqn:E; [|exact (IH Hnd Hin)].
    apply Z.eqb_eq in E. exfalso. apply Hfresh. rewrite <- E.
    apply in_map. exact Hin.
Qed.

Lemma find_some_key (A : Type) (key : A -> Z) (rows : list A) (k : Z) :
  find (fun r => key r =? k) rows <> None -> exists x, In x rows /\ key x = k.
Proof.
  destruct (find _ rows) as [x|] eqn:Hf; [|contradiction].
  intros _. apply find_some in Hf as [Hin E]. apply Z.eqb_eq in E. eauto.
Qed.

(** With unique ids, the join of an id list with [ingredients] brings one
    row per id, when every id is one of a row. *)
Lemma ingredients_with_ids (t : Tables) (ids : list Z) :
  ingredient_ids_unique t ->
  (forall x, In x ids -> In x (map ing_id (ingredients t))) ->
  map ing_id (ingredients_with t ids) = ids.
Proof.
  intros Hu. unfold ingredients_with.
  induction ids as [|x ids IH]; intros Hall; simpl; [reflexivity|].
  rewrite map_app, IH by (intros y Hy; apply Hall; right; exact Hy).
  destruct (proj1 (in_map_iff _ _ _) (Hall x (or_introl eq_refl)))
    as (r & <- & Hr).
  rewrite (filter_unique_key ing_id (ingredients t) r Hu Hr). reflexivity.
Qed.

Lemma own_entries_ids_old (userId : Z) (t : Tables) (e : ListedOrder) :
  In e (own_entries userId t) -> lo_id e <= max_order_id (orders t).
Proof.
  unfold own_entries. intros Hin.
  apply in_flat_map in Hin as (o & Ho & Hin).
  apply in_flat_map in Hin as (b & _ & Hin).
  apply in_map_iff in Hin as (z & <- & _).
  apply filter_In in Ho as [Ho _]. simpl. apply max_order_id_bound. exact Ho.
Qed.

(** The entries of a user once an order of theirs is committed: those of the
    earlier orders, then the new one. *)
Lemma own_entries_created (order : OrderRequest) (t : Tables) (b : Dish) (z : Size) :
  NoDup (map dish_id (basedishes t)) -> NoDup (map size_id (sizes t)) ->
  In b (basedishes t) -> dish_id b = dishId order ->
  In z (sizes t) -> size_id z = sizeId order ->
  exists old,
    own_entries (req_user_id order) (created order t)
    = (old ++ [entry_of (created order t)
                 (mkOrder (next_order_id t) (req_user_id order) (dishId order)
                    (sizeId order) (req_total order)) b z])%list /\
    forall e, In e old -> lo_id e < next_order_id t.
Proof.
  intros Hdu Hsu Hb Hbid Hz Hzid.
  set (t' := created order t).
  set (F := fun o =>
         flat_map (fun b0 =>
           map (fun z0 => entry_of t' o b0 z0)
             (filter (fun z0 => order_size_id o =? size_id z0) (sizes t)))
           (filter (fun b0 => order_dish_id o =? dish_id b0) (basedishes t))).
  exists (flat_map F (filter (fun o => user_id o =? req_user_id order) (orders t))).
  split.
  - unfold own_entries. change (sizes t') with (sizes t).
    change (basedishes t') with (basedishes t).
    change (orders t')
      with (orders t ++ [mkOrder (next_order_id t) (req_user_id order)
                           (dishId order) (sizeId order) (req_total order)])%list.
    rewrite filter_app.
    assert (Hnew : filter (fun o => user_id o =? req_user_id order)
                     [mkOrder (next_order_id t) (req_user_id order)
                        (dishId order) (sizeId order) (req_total order)]
                   = [mkOrder (next_order_id t) (req_user_id order)
                        (dishId order) (sizeId order) (req_total order)])
      by (simpl; rewrite Z.eqb_refl; reflexivity).
    rewrite Hnew, flat_map_app. fold F. f_equal.
    simpl. rewrite app_nil_r.
    unfold F. cbn [order_dish_id order_size_id].
    rewrite <- Hbid, <- Hzid.
    rewrite (filter_unique_key dish_id (basedishes t) b Hdu Hb). cbn [flat_map].
    rewrite (filter_unique_key size_id (sizes t) z Hsu Hz). cbn [map app].
    reflexivity.
  - intros e He. apply in_flat_map in He as (o & Ho & He).
    unfold F in He. apply in_flat_map in He as (b0 & _ & He).
    apply in_map_iff in He as (z0 & <- & _).
    apply filter_In in Ho as [Ho _]. simpl.
    apply max_order_id_bound in Ho. unfold next_order_id. lia.
Qed.

(** X13: a committed order heads the listing of its user.  On tables with
    unique ingredient, dish and size ids and association rows of issued
    orders only, once POST /api/orders has answered 200, [listOrders] for the
    same user (no storage fault) resolves with an array whose first entry is
    the new order: the returned id, the dish and size of the request with
    their names and the size price, the total that was sent, and one
    ingredient row per candidate, in ascending order of the ingredient ids
    whatever the order of the candidates in the request; every other entry
    has a smaller id. *)
Theorem created_order_is_listed_first
    (order : OrderRequest) (s s1 : Store) (id : Z) :
  ingredient_ids_unique (live s) ->
  NoDup (map dish_id (basedishes (live s))) ->
  NoDup (map size_id (sizes (live s))) ->
  associations_of_issued_orders (live s) ->
  post_orders order s = (Status200 id, s1) ->
  faults s1 = [] ->
  exists b z ings rest,
    In b (basedishes (live s)) /\ dish_id b = dishId order /\
    In z (sizes (live s)) /\ size_id z = sizeId order /\
    fst (listOrders (req_user_id order) s1)
      = Fulfilled (mkListedOrder id (dish_name b) (dishId order) (size_name z)
                     (sizeId order) (size_price z) (req_total order) ings
                   :: rest) /\
    map ing_id ings = ascending (req_ingredients order) /\
    Forall (fun e => lo_id e < id) rest.
Proof.
  intros Hiu Hdu Hsu Hassoc Hrun Hquiet.
  destruct (accepted_checks order s Hrun) as (Hdish & Hsize & Hstock & _).
  pose proof (post_orders_effect order s) as Heff. rewrite Hrun in Heff.
  destruct Heff as [Hid Hl1].
  destruct (find_some_key dish_id _ _ Hdish) as (b & Hb & Hbid).
  destruct (find_some_key size_id _ _ Hsize) as (z & Hz & Hzid).
  destruct (own_entries_created order (live s) b z Hdu Hsu Hb Hbid Hz Hzid)
    as (old & Hentries & Hold).
  exists b, z,
    (ingredients_with (created order (live s))
       (ascending (req_ingredients order))),
    (sort_by_id_desc old).
  repeat split; auto.
  - rewrite (listOrders_quiet (req_user_id order) s1 Hquiet). simpl.
    rewrite Hl1, Hentries.
    rewrite sort_by_id_desc_newest by (intros y Hy; simpl; exact (Hold y Hy)).
    unfold entry_of at 1. simpl. rewrite Hid.
    rewrite (@select_new_rows (next_order_id (live s)) (order_ingredients (live s))
               (req_ingredients order) Hassoc).
    reflexivity.
  - apply ingredients_with_ids.
    + unfold ingredient_ids_unique, created, with_ingredients; simpl.
      rewrite (unlimited_untouched_ids
                 (proj2 (reserve_all_invariant (req_ingredients order)
                           (ingredients (live s))))).
      exact Hiu.
    + intros x Hx. unfold created, with_ingredients; simpl.
      rewrite (unlimited_untouched_ids
                 (proj2 (reserve_all_invariant (req_ingredients order)
                           (ingredients (live s))))).
      apply (proj1 (ascending_In _ _)) in Hx.
      destruct (Hstock x Hx) as (r & Hr & _).
      apply find_some in Hr as [Hin E]. apply Z.eqb_eq in E. subst x.
      apply in_map. exact Hin.
  - rewrite Forall_forall. intros e He.
    apply (Permutation_in _ (sort_by_id_desc_perm old)) in He.
    rewrite Hid. exact (Hold e He).
Qed.

Lemma seed_dish_ids_unique : NoDup (map dish_id (basedishes seed)).
Proof.
  unfold seed; simpl.
  repeat (constructor; [simpl; intuition discriminate|]). constructor.
Defined.

Lemma seed_size_ids_unique : NoDup (map size_id (sizes seed)).
Proof.
  unfold seed; simpl.
  repeat (constructor; [simpl; intuition discriminate|]). constructor.
Defined.

Lemma created_order_is_listed_first_witness :
  post_orders (mkRequest 1 1 2 [5; 2; 1] 9.20) (connect seed [])
    = (Status200 5, connect (created (mkRequest 1 1 2 [5; 2; 1] 9.20) seed) []) /\
  exists b z ings rest,
    In b (basedishes seed) /\ dish_id b = 1 /\
    In z (sizes seed) /\ size_id z = 2 /\
    fst (listOrders 1
           (connect (created (mkRequest 1 1 2 [5; 2; 1] 9.20) seed) []))
      = Fulfilled (mkListedOrder 5 (dish_name b) 1 (size_name z) 2 (size_price z)
                     9.20 ings :: rest) /\
    map ing_id ings = [1; 2; 5] /\
    Forall (fun e => lo_id e < 5) rest.
Proof.
  assert (H : post_orders (mkRequest 1 1 2 [5; 2; 1] 9.20) (connect seed [])
              = (Status200 5,
                 connect (created (mkRequest 1 1 2 [5; 2; 1] 9.20) seed) []))
    by (vm_compute; reflexivity).
  split; [exact H|].
  exact (@created_order_is_listed_first
           (mkRequest 1 1 2 [5; 2; 1] 9.20) (connect seed []) _ 5
           seed_ingredient_ids_unique seed_dish_ids_unique seed_size_ids_unique
           seed_associations_of_issued_orders H eq_refl).
Defined.

(** ** [listIngredients] with no fault *)

Lemma send_second_quiet (rows : list Ingredient) (g : Ingredient -> list string)
    (s : Store) :
  faults s = [] ->
  send_second rows (map (fun ing => inr (g ing)) rows) s
  = (map (fun ing =>
            inr (g ing,
                 names_of (live s)
                   (select_second (ing_id ing) (ingredient_incompatibilities (live s)))))
       rows, s).
Proof.
  intros Hf. induction rows as [|ing rows IH]; simpl; [reflexivity|].
  unfold select_incompatibility_names. rewrite query_run, Hf. cbn [hd].
  rewrite after_quiet by exact Hf. rewrite IH. reflexivity.
Qed.

Lemma listIngredients_quiet (s : Store) :
  faults s = [] ->
  listIngredients s
  = (Fulfilled (map (item_on (live s)) (ingredients (live s))), s).
Proof.
  intros Hf. unfold listIngredients, select_dependency_names.
  rewrite query_run, Hf. cbn [hd]. rewrite after_quiet by exact Hf.
  rewrite (@send_all_quiet _ _
             (fun ing t => names_of t
                (select_second (ing_id ing) (ingredient_dependencies t))) _ s Hf).
  rewrite (@send_second_quiet (ingredients (live s))
             (fun ing => names_of (live s)
                (select_second (ing_id ing) (ingredient_dependencies (live s)))) s Hf).
  rewrite all_fulfilled_inr, combine_map_self, map_map. reflexivity.
Qed.

Lemma names_of_In (t : Tables) (ids : list Z) (name : string) :
  In name (names_of t ids) <->
  exists r, In r (ingredients t) /\ In (ing_id r) ids /\ ing_name r = name.
Proof.
  unfold names_of, ingredients_with. rewrite in_map_iff. split.
  - intros [r [Hname Hr]]. apply in_flat_map in Hr as [id [Hid Hr]].
    apply filter_In in Hr as [Hr E]. apply Z.eqb_eq in E. subst id.
    exists r. auto.
  - intros [r [Hr [Hid Hname]]]. exists r. split; [exact Hname|].
    apply in_flat_map. exists (ing_id r). split; [exact Hid|].
    apply filter_In. split; [exact Hr | apply Z.eqb_refl].
Qed.

Lemma item_on_dependencies (t : Tables) (ing : Ingredient) (name : string) :
  In name (dependencies (item_on t ing)) <->
  exists r, In r (ingredients t) /\
            In (ing_id ing, ing_id r) (ingredient_dependencies t) /\
            ing_name r = name.
Proof.
  unfold item_on, item_of. cbn [dependencies fst]. rewrite names_of_In.
  split; intros [r [Hr [Hid Hname]]]; exists r; (split; [exact Hr|]);
    (split; [|exact Hname]).
  - exact (proj1 (select_second_In _ _ _) Hid).
  - exact (proj2 (select_second_In _ _ _) Hid).
Qed.

Lemma item_on_incompatibilities (t : Tables) (ing : Ingredient) (name : string) :
  In name (incompatibilities (item_on t ing)) <->
  exists r, In r (ingredients t) /\
            In (ing_id ing, ing_id r) (ingredient_incompatibilities t) /\
            ing_name r = name.
Proof.
  unfold item_on, item_of. cbn [incompatibilities snd]. rewrite names_of_In.
  split; intros [r [Hr [Hid Hname]]]; exists r; (split; [exact Hr|]);
    (split; [|exact Hname]).
  - exact (proj1 (select_second_In _ _ _) Hid).
  - exact (proj2 (select_second_In _ _ _) Hid).
Qed.

(** X14: when no statement fails, [listIngredients] is fulfilled, leaves the
    connection as it was and gives one item per row of [ingredients], in the
    order of the rows and with the row's id, name, price and availability; a
    name is in the item's [dependencies] exactly when it is the name of an
    ingredient row that a row of [ingredient_dependencies] gives as required
    by the item, and in its [incompatibilities] exactly when it is the name of
    an ingredient row that a row of [ingredient_incompatibilities] gives as
    second to the item. *)
Theorem listIngredients_names_the_constraint_rows (s : Store) :
  faults s = [] ->
  exists items,
    listIngredients s = (Fulfilled items, s) /\
    map (fun i => (item_id i, item_name i, item_price i, item_availability i)) items
      = map (fun r => (ing_id r, ing_name r, ing_price r, availability r))
          (ingredients (live s)) /\
    forall i, In i items ->
      (forall name, In name (dependencies i) <->
         exists r, In r (ingredients (live s)) /\
                   In (item_id i, ing_id r) (ingredient_dependencies (live s)) /\
                   ing_name r = name) /\
      (forall name, In name (incompatibilities i) <->
         exists r, In r (ingredients (live s)) /\
                   In (item_id i, ing_id r) (ingredient_incompatibilities (live s)) /\
                   ing_name r = name).
Proof.
  intros Hf. exists (map (item_on (live s)) (ingredients (live s))).
  split; [exact (listIngredients_quiet s Hf)|]. split.
  - rewrite map_map. apply map_ext. intros r. reflexivity.
  - intros i Hi. apply in_map_iff in Hi as [r [<- Hr]]. split; intros name.
    + exact (item_on_dependencies (live s) r name).
    + exact (item_on_incompatibilities (live s) r name).
Qed.

Lemma listIngredients_names_the_constraint_rows_witness :
  exists items,
    listIngredients (connect seed []) = (Fulfilled items, connect seed []) /\
    map (fun i => (item_id i, item_name i, item_price i, item_availability i)) items
      = map (fun r => (ing_id r, ing_name r, ing_price r, availability r))
          (ingredients seed) /\
    forall i, In i items ->
      (forall name, In name (dependencies i) <->
         exists r, In r (ingredients seed) /\
                   In (item_id i, ing_id r) (ingredient_dependencies seed) /\
                   ing_name r = name) /\
      (forall name, In name (incompatibilities i) <->
         exists r, In r (ingredients seed) /\
                   In (item_id i, ing_id r) (ingredient_incompatibilities seed) /\
                   ing_name r = name).
Proof.
  exact (@listIngredients_names_the_constraint_rows (connect seed []) eq_refl).
Defined.

(** ** The checks of the configurator *)

Lemma filter_empty (A : Type) (f : A -> bool) (l : list A) :
  filter f l = [] -> forall x, In x l -> f x = false.
Proof.
  intros H x Hx. destruct (f x) eqn:E; [|reflexivity].
  assert (Hin : In x (filter f l)) by (apply filter_In; auto).
  rewrite H in Hin. destruct Hin.
Qed.

Lemma some_named_true (l : list Item) (name : string) :
  some_named l name = true <-> exists k, In k l /\ item_name k = name.
Proof.
  unfold some_named. rewrite existsb_exists.
  split; intros [k [Hk E]]; exists k; (split; [exact Hk|]).
  - apply String.eqb_eq. exact E.
  - apply String.eqb_eq. exact E.
Qed.

Lemma some_named_app (l l' : list Item) (name : string) :
  some_named l name = true -> some_named (l ++ l') name = true.
Proof.
  rewrite !some_named_true. intros [k [Hk E]]. exists k.
  split; [apply in_or_app; left; exact Hk | exact E].
Qed.

Lemma lists_name_true (names : list string) (name : string) :
  lists_name names name = true <-> In name names.
Proof.
  unfold lists_name. rewrite existsb_exists. split.
  - intros [n [Hn E]]. apply String.eqb_eq in E. subst n. exact Hn.
  - intros Hn. exists name. split; [exact Hn | apply String.eqb_refl].
Qed.

Lemma checkDependencies_Valid (ingredient : Item) (l : list Item) :
  checkDependencies ingredient l = Valid <->
  forall dep, In dep (dependencies ingredient) -> some_named l dep = true.
Proof.
  unfold checkDependencies. destruct (dependencies ingredient) as [|d ds] eqn:Ed.
  - split; [intros _ dep []|reflexivity].
  - rewrite <- Ed.
    destruct (filter (fun dep => negb (some_named l dep)) (dependencies ingredient))
      as [|m ms] eqn:F.
    + split; [|reflexivity]. intros _ dep Hdep.
      apply (filter_empty _ _ F) in Hdep. apply negb_false_iff in Hdep. exact Hdep.
    + split; [discriminate|]. intros H. exfalso.
      assert (Hm : In m (filter (fun dep => negb (some_named l dep))
                           (dependencies ingredient)))
        by (rewrite F; left; reflexivity).
      apply filter_In in Hm as [Hm E]. rewrite (H m Hm) in E. discriminate.
Qed.

Lemma checkIncompatibilities_Valid (ingredient : Item) (l : list Item) :
  checkIncompatibilities ingredient l = Valid <->
  forall inc, In inc (incompatibilities ingredient) -> some_named l inc = false.
Proof.
  unfold checkIncompatibilities.
  destruct (incompatibilities ingredient) as [|d ds] eqn:Ed.
  - split; [intros _ inc []|reflexivity].
  - rewrite <- Ed.
    destruct (filter (some_named l) (incompatibilities ingredient))
      as [|m ms] eqn:F.
    + split; [|reflexivity]. intros _ inc Hinc.
      exact (filter_empty _ _ F inc Hinc).
    + split; [discriminate|]. intros H. exfalso.
      assert (Hm : In m (filter (some_named l) (incompatibilities ingredient)))
        by (rewrite F; left; reflexivity).
      apply filter_In in Hm as [Hm E]. rewrite (H m Hm) in E. discriminate.
Qed.

Lemma checkIfRequiredByOthers_Valid (ingredient : Item) (l : list Item) :
  checkIfRequiredByOthers ingredient l = Valid <->
  forall j, In j l -> ~ In (item_name ingredient) (dependencies j).
Proof.
  unfold checkIfRequiredByOthers.
  destruct (filter (fun ing => lists_name (dependencies ing) (item_name ingredient)) l)
    as [|m ms] eqn:F.
  - split; [|reflexivity]. intros _ j Hj Hin.
    apply (filter_empty _ _ F) in Hj.
    apply lists_name_true in Hin. rewrite Hin in Hj. discriminate.
  - split; [discriminate|]. intros H. exfalso.
    assert (Hm : In m (filter (fun ing =>
                                 lists_name (dependencies ing) (item_name ingredient)) l))
      by (rewrite F; left; reflexivity).
    apply filter_In in Hm as [Hm E]. apply lists_name_true in E.
    exact (H m Hm E).
Qed.

Lemma final_validation_None (rest l : list Item) :
  final_validation rest l = None <->
  forall i, In i rest ->
    out_of_stock i = false /\
    (forall dep, In dep (dependencies i) -> some_named l dep = true) /\
    (forall inc, In inc (incompatibilities i) -> some_named l inc = false).
Proof.
  induction rest as [|i rest IH]; simpl.
  - split; [intros _ i []|reflexivity].
  - destruct (out_of_stock i) eqn:Eo.
    { split; [discriminate|]. intros H.
      destruct (H i (or_introl eq_refl)) as [H1 _]. congruence. }
    destruct (checkDependencies i l) eqn:Ed.
    2:{ split; [discriminate|]. intros H.
        destruct (H i (or_introl eq_refl)) as [_ [H2 _]].
        apply checkDependencies_Valid in H2. rewrite H2 in Ed. discriminate. }
    destruct (checkIncompatibilities i l) eqn:Ei.
    2:{ split; [discriminate|]. intros H.
        destruct (H i (or_introl eq_refl)) as [_ [_ H3]].
        apply checkIncompatibilities_Valid in H3. rewrite H3 in Ei. discriminate. }
    rewrite IH. split.
    + intros H j [<-|Hj]; [|exact (H j Hj)].
      split; [exact Eo|]. split.
      * exact (proj1 (checkDependencies_Valid _ _) Ed).
      * exact (proj1 (checkIncompatibilities_Valid _ _) Ei).
    + intros H j Hj. apply H. right. exact Hj.
Qed.

(** X15: [handleSubmitOrder] sends an order exactly when a dish and a size
    are selected and every selected ingredient is in stock (availability null
    or above 0), has each name of its [dependencies] among the names of the
    selected ingredients and none of its [incompatibilities] among them; the
    order sent carries the ids and names of the dish and of the size, the
    selected ingredients and the price of the state.  In every other case it
    only sets the error message. *)
Theorem handleSubmitOrder_sends_checked_selection (st : Configurator) :
  (forall sub, handleSubmitOrder st = inr sub <->
     exists dish size,
       selectedDish st = Some dish /\ selectedSize st = Some size /\
       passes_final_validation (selectedIngredients st) /\
       sub = mkSubmission (dish_id dish) (dish_name dish) (size_id size)
               (size_name size) (selectedIngredients st) (price st)) /\
  (forall st', handleSubmitOrder st = inl st' ->
     exists message, st' = with_error st message).
Proof.
  unfold handleSubmitOrder, passes_final_validation. split.
  - intros sub. split.
    + destruct (selectedDish st) as [dish|]; [|discriminate].
      destruct (selectedSize st) as [size|]; [|discriminate].
      destruct (final_validation (selectedIngredients st) (selectedIngredients st))
        eqn:F; [discriminate|].
      intros [= <-]. exists dish, size. repeat split; try reflexivity;
        apply (proj1 (final_validation_None _ _) F); assumption.
    + intros [dish [size [-> [-> [H ->]]]]].
      rewrite (proj2 (final_validation_None _ _) H). reflexivity.
  - intros st'.
    destruct (selectedDish st) as [dish|];
      [|intros [= <-]; eexists; reflexivity].
    destruct (selectedSize st) as [size|];
      [|intros [= <-]; eexists; reflexivity].
    destruct (final_validation (selectedIngredients st) (selectedIngredients st));
      [|discriminate].
    intros [= <-]. eexists; reflexivity.
Qed.

(** ** The selection of the configurator *)

Lemma handleSubmitOrder_refusal (st st' : Configurator) :
  handleSubmitOrder st = inl st' -> exists message, st' = with_error st message.
Proof.
  unfold handleSubmitOrder.
  destruct (selectedDish st) as [dish|];
    [|intros [= <-]; eexists; reflexivity].
  destruct (selectedSize st) as [size|];
    [|intros [= <-]; eexists; reflexivity].
  destruct (final_validation (selectedIngredients st) (selectedIngredients st));
    [|discriminate].
  intros [= <-]. eexists; reflexivity.
Qed.

Lemma same_key_same_row (A K : Type) (key : A -> K) (l : list A) (a b : A) :
  NoDup (map key l) -> In a l -> In b l -> key a = key b -> a = b.
Proof.
  induction l as [|x l IH]; intros Hnd Ha Hb E; [destruct Ha|].
  simpl in Hnd. apply NoDup_cons_iff in Hnd as [Hx Hnd].
  destruct Ha as [->|Ha], Hb as [->|Hb].
  - reflexivity.
  - exfalso. apply Hx. rewrite E. apply in_map. exact Hb.
  - exfalso. apply Hx. rewrite <- E. apply in_map. exact Ha.
  - apply IH; assumption.
Qed.

Lemma NoDup_map_filter (A K : Type) (key : A -> K) (p : A -> bool) (l : list A) :
  NoDup (map key l) -> NoDup (map key (filter p l)).
Proof.
  induction l as [|x l IH]; simpl; intros H; [constructor|].
  apply NoDup_cons_iff in H as [Hx H].
  destruct (p x); simpl; [constructor|]; auto.
  intros Hin. apply Hx. apply in_map_iff in Hin as [y [E Hy]].
  apply filter_In in Hy as [Hy _]. rewrite <- E. apply in_map. exact Hy.
Qed.

Lemma filter_shorter (A : Type) (p : A -> bool) (l : list A) :
  (List.length (filter p l) <= List.length l)%nat.
Proof.
  induction l as [|x l IH]; simpl; [lia|]. destruct (p x); simpl; lia.
Qed.

Lemma not_selected (l : list Item) (id : Z) :
  find (fun i => item_id i =? id) l = None -> ~ In id (map item_id l).
Proof.
  intros Hfind Hin. apply in_map_iff in Hin as [k [E Hk]].
  apply (find_none _ _ Hfind) in Hk. simpl in Hk. rewrite E, Z.eqb_refl in Hk.
  discriminate.
Qed.

Lemma coherent_same (items : list Item) (st st' : Configurator) :
  selectedSize st' = selectedSize st ->
  selectedIngredients st' = selectedIngredients st ->
  coherent items st -> coherent items st'.
Proof. unfold coherent. intros -> ->. auto. Qed.

Lemma coherent_reset (items : list Item) (st : Configurator) :
  selectedSize st = None -> selectedIngredients st = [] -> coherent items st.
Proof.
  unfold coherent. intros -> ->. simpl. repeat split.
  - intros x [].
  - constructor.
  - discriminate.
  - intros i dep [].
Qed.

Lemma handleSizeSelect_coherent (items : list Item) (size : Size) (st : Configurator) :
  coherent items st -> coherent items (handleSizeSelect size st).
Proof.
  intros Hc. unfold handleSizeSelect.
  destruct (Z.of_nat (List.length (selectedIngredients st)) >? max_ingredients size)
    eqn:E.
  - apply coherent_same with st; [reflexivity | reflexivity | exact Hc].
  - destruct Hc as (Hincl & Hids & Hnone & Hcap & Hdeps).
    unfold coherent. simpl. repeat split; auto.
    + discriminate.
    + intros z [= <-]. lia.
Qed.

Lemma handleIngredientToggle_coherent (items : list Item) (ingredient : Item)
    (st st' : Configurator) :
  NoDup (map item_id items) -> In ingredient items -> coherent items st ->
  handleIngredientToggle ingredient st = Some st' -> coherent items st'.
Proof.
  intros Hnd Hin Hc. unfold handleIngredientToggle.
  destruct (find (fun i => item_id i =? item_id ingredient) (selectedIngredients st))
    as [k|] eqn:Efind.
  - destruct (checkIfRequiredByOthers ingredient (selectedIngredients st)) eqn:Er;
      intros [= <-];
      [|apply coherent_same with st; [reflexivity | reflexivity | exact Hc]].
    destruct Hc as (Hincl & Hids & Hnone & Hcap & Hdeps).
    unfold coherent, with_selection. simpl. repeat split.
    + intros x Hx. apply filter_In in Hx as [Hx _]. exact (Hincl x Hx).
    + apply NoDup_map_filter. exact Hids.
    + intros Hz. rewrite (Hnone Hz). reflexivity.
    + intros z Hz. specialize (Hcap z Hz).
      pose proof (filter_shorter (fun i => negb (item_id i =? item_id ingredient))
                    (selectedIngredients st)). lia.
    + intros i dep Hi Hdep. apply filter_In in Hi as [Hi _].
      destruct (proj1 (some_named_true _ _) (Hdeps i dep Hi Hdep)) as [k' [Hk' Ename]].
      apply some_named_true. exists k'. split; [|exact Ename].
      apply filter_In. split; [exact Hk'|].
      apply negb_true_iff. apply Z.eqb_neq. intros Eid.
      assert (Ek : k' = ingredient)
        by (apply (@same_key_same_row _ _ item_id items); auto).
      subst k'. subst dep.
      exact (proj1 (checkIfRequiredByOthers_Valid _ _) Er i Hi Hdep).
  - destruct (out_of_stock ingredient);
      [intros [= <-]; apply coherent_same with st;
         [reflexivity | reflexivity | exact Hc]|].
    destruct (selectedSize st) as [size|] eqn:Ez; [|discriminate].
    destruct (Z.of_nat (List.length (selectedIngredients st)) >=? max_ingredients size)
      eqn:Ecap;
      [intros [= <-]; apply coherent_same with st;
         [simpl; auto | reflexivity | exact Hc]|].
    destruct (checkDependencies ingredient (selectedIngredients st)) eqn:Ed;
      [|intros [= <-]; apply coherent_same with st;
          [simpl; auto | reflexivity | exact Hc]].
    destruct (checkIncompatibilities ingredient (selectedIngredients st)) eqn:Ei;
      [|intros [= <-]; apply coherent_same with st;
          [simpl; auto | reflexivity | exact Hc]].
    intros [= <-].
    destruct Hc as (Hincl & Hids & Hnone & Hcap & Hdeps).
    unfold coherent, with_selection. simpl. rewrite Ez. repeat split.
    + intros x Hx. apply in_app_or in Hx as [Hx|[<-|[]]]; auto.
    + rewrite map_app. simpl.
      apply (Permutation_NoDup (Permutation_cons_append _ _)).
      constructor; [exact (not_selected _ _ Efind) | exact Hids].
    + discriminate.
    + intros z [= <-]. rewrite length_app. simpl. lia.
    + intros i dep Hi Hdep. apply in_app_or in Hi as [Hi|[<-|[]]].
      * apply some_named_app. exact (Hdeps i dep Hi Hdep).
      * apply some_named_app.
        exact (proj1 (checkDependencies_Valid _ _) Ed dep Hdep).
Qed.

Lemma configurator_step_coherent (items : list Item) (st st' : Configurator) :
  NoDup (map item_id items) -> coherent items st ->
  configurator_step items st st' -> coherent items st'.
Proof.
  intros Hnd Hc Hstep. destruct Hstep as
    [dish st | size st | ingredient st st' Hin Htoggle | st st' Hsubmit
     | st | st message | st p | st].
  - apply coherent_reset; reflexivity.
  - apply handleSizeSelect_coherent. exact Hc.
  - exact (handleIngredientToggle_coherent ingredient Hnd Hin Hc Htoggle).
  - destruct (handleSubmitOrder_refusal st Hsubmit) as [message ->].
    apply coherent_same with st; [reflexivity | reflexivity | exact Hc].
  - apply coherent_reset; reflexivity.
  - apply coherent_same with st; [reflexivity | reflexivity | exact Hc].
  - apply coherent_same with st; [reflexivity | reflexivity | exact Hc].
  - apply coherent_same with st; [reflexivity | reflexivity | exact Hc].
Qed.

Lemma configured_coherent (items : list Item) (st : Configurator) :
  NoDup (map item_id items) -> configured items st -> coherent items st.
Proof.
  intros Hnd Hconf. induction Hconf as [|st st' Hconf IH Hstep].
  - apply coherent_reset; reflexivity.
  - exact (configurator_step_coherent Hnd IH Hstep).
Qed.

Lemma toggles_configured (items : list Item) (ids : list Z) :
  forall (st0 : option Configurator) (st : Configurator),
    (forall st1, st0 = Some st1 -> configured items st1) ->
    fold_left (toggle_by_id items) ids st0 = Some st -> configured items st.
Proof.
  induction ids as [|id ids IH]; simpl; intros st0 st H0 Hrun.
  - exact (H0 st Hrun).
  - apply (IH (toggle_by_id items st0 id) st); [|exact Hrun].
    intros st1 Hst1. unfold toggle_by_id in Hst1.
    destruct st0 as [st0|]; [|discriminate].
    destruct (find (fun i => item_id i =? id) items) as [i|] eqn:Efind;
      [|discriminate].
    apply configured_step with st0; [exact (H0 st0 eq_refl)|].
    apply ingredient_toggled with i; [|exact Hst1].
    exact (proj1 (find_some _ _ Efind)).
Qed.

Lemma session_configured (items : list Item) (dish : Dish) (size : Size)
    (ids : list Z) (st : Configurator) :
  session items dish size ids = Some st -> configured items st.
Proof.
  unfold session. apply toggles_configured. intros st1 [= <-].
  apply configured_step with (handleDishSelect dish initial_configurator);
    [|apply size_selected].
  apply configured_step with initial_configurator;
    [apply configured_initial | apply dish_selected].
Qed.

Lemma seed_items_ids_unique : NoDup (map item_id seed_items).
Proof.
  unfold seed_items. rewrite map_map. exact seed_ingredient_ids_unique.
Defined.

(** X16: while the ingredient array of its props has no two elements with
    one id, the configurator is, after any sequence of its events (dish and
    size selection, clicks on ingredients of the array, submission, answers
    of earlier requests, the price effect, closing the modal), in a state
    whose selected ingredients are elements of the array with pairwise
    different ids, are none when no size is selected, are no more than the
    selected size allows, and have every name of their [dependencies] among
    the names of the selected ingredients. *)
Theorem configurator_keeps_its_selection_coherent (items : list Item)
    (st : Configurator) :
  NoDup (map item_id items) -> configured items st -> coherent items st.
Proof. exact (@configured_coherent items st). Qed.

Lemma configurator_keeps_its_selection_coherent_witness :
  exists st,
    session seed_items (mkDish 1 "Pizza") (mkSize 2 "Medium" 7.00 5) [5; 2; 1; 5; 9]
      = Some st /\
    map item_id (selectedIngredients st) = [5; 2; 1; 9] /\
    coherent seed_items st.
Proof.
  assert (H : exists st,
             session seed_items (mkDish 1 "Pizza") (mkSize 2 "Medium" 7.00 5)
               [5; 2; 1; 5; 9] = Some st /\
             map item_id (selectedIngredients st) = [5; 2; 1; 9])
    by (eexists; split; vm_compute; reflexivity).
  destruct H as [st [Hrun Hids]]. exists st. split; [exact Hrun|].
  split; [exact Hids|].
  exact (@configurator_keeps_its_selection_coherent seed_items st
           seed_items_ids_unique (session_configured _ _ _ _ Hrun)).
Defined.

Lemma find_present (A : Type) (f : A -> bool) (l : list A) (x : A) :
  In x l -> f x = true -> find f l <> None.
Proof.
  intros Hx Hf Hnone. rewrite (find_none _ _ Hnone x Hx) in Hf. discriminate.
Qed.

Lemma handleIngredientToggle_added (ingredient : Item) (st st1 : Configurator) :
  handleIngredientToggle ingredient st = Some st1 ->
  selectedIngredients st1 = (selectedIngredients st ++ [ingredient])%list ->
  st1 = with_selection st (selectedIngredients st ++ [ingredient]) /\
  find (fun i => item_id i =? item_id ingredient) (selectedIngredients st) = None /\
  checkDependencies ingredient (selectedIngredients st) = Valid.
Proof.
  unfold handleIngredientToggle.
  assert (Hlonger : forall l : list Item,
             List.length l <> List.length (selectedIngredients st ++ [ingredient]) ->
             l <> (selectedIngredients st ++ [ingredient])%list)
    by (intros l Hl ->; apply Hl; reflexivity).
  assert (Hsame : selectedIngredients st
                  <> (selectedIngredients st ++ [ingredient])%list)
    by (apply Hlonger; rewrite length_app; simpl; lia).
  destruct (find (fun i => item_id i =? item_id ingredient) (selectedIngredients st))
    as [k|] eqn:Efind.
  - destruct (checkIfRequiredByOthers ingredient (selectedIngredients st));
      intros [= <-]; simpl; intros Hsel; exfalso; [|exact (Hsame Hsel)].
    revert Hsel. apply Hlonger. rewrite length_app. simpl.
    pose proof (filter_shorter (fun i => negb (item_id i =? item_id ingredient))
                  (selectedIngredients st)). lia.
  - destruct (out_of_stock ingredient);
      [intros [= <-]; simpl; intros Hsel; destruct (Hsame Hsel)|].
    destruct (selectedSize st) as [size|]; [|discriminate].
    destruct (Z.of_nat (List.length (selectedIngredients st)) >=? max_ingredients size);
      [intros [= <-]; simpl; intros Hsel; destruct (Hsame Hsel)|].
    destruct (checkDependencies ingredient (selectedIngredients st));
      [|intros [= <-]; simpl; intros Hsel; destruct (Hsame Hsel)].
    destruct (checkIncompatibilities ingredient (selectedIngredients st));
      [|intros [= <-]; simpl; intros Hsel; destruct (Hsame Hsel)].
    intros [= <-] _. auto.
Qed.

Lemma added_then_removed (items : list Item) (ingredient : Item)
    (st st1 : Configurator) :
  NoDup (map item_name items) -> In ingredient items -> coherent items st ->
  handleIngredientToggle ingredient st = Some st1 ->
  selectedIngredients st1 = (selectedIngredients st ++ [ingredient])%list ->
  handleIngredientToggle ingredient st1
  = Some (with_selection st (selectedIngredients st)).
Proof.
  intros Hnames Hin Hc Htoggle Hadded.
  destruct (handleIngredientToggle_added _ _ Htoggle Hadded) as (-> & Hfind & Hdeps).
  destruct Hc as (Hincl & Hids & Hnone & Hcap & Hclosed).
  assert (Hfresh : forall k, In k (selectedIngredients st) ->
                     item_name k <> item_name ingredient).
  { intros k Hk E.
    assert (Ek : k = ingredient)
      by (apply (@same_key_same_row _ _ item_name items); auto).
    subst k. apply (not_selected _ _ Hfind). apply in_map. exact Hk. }
  assert (Hunnamed : some_named (selectedIngredients st) (item_name ingredient) = false).
  { apply not_true_is_false. intros E. apply some_named_true in E as [k [Hk E]].
    exact (Hfresh k Hk E). }
  unfold handleIngredientToggle. cbn [with_selection selectedIngredients].
  destruct (find (fun i => item_id i =? item_id ingredient)
              (selectedIngredients st ++ [ingredient])) as [k|] eqn:Efind1.
  2:{ exfalso. revert Efind1. apply find_present with ingredient.
      - apply in_or_app. right. left. reflexivity.
      - apply Z.eqb_refl. }
  assert (Er : checkIfRequiredByOthers ingredient
                 (selectedIngredients st ++ [ingredient]) = Valid).
  { apply checkIfRequiredByOthers_Valid. intros j Hj Hdep.
    assert (Hn : some_named (selectedIngredients st) (item_name ingredient) = true).
    { apply in_app_or in Hj as [Hj|[<-|[]]].
      - exact (Hclosed j _ Hj Hdep).
      - exact (proj1 (checkDependencies_Valid _ _) Hdeps _ Hdep). }
    rewrite Hn in Hunnamed. discriminate. }
  rewrite Er. unfold with_selection. simpl. do 2 f_equal.
  rewrite filter_app. simpl. rewrite Z.eqb_refl. simpl. rewrite app_nil_r.
  apply filter_all. intros k' Hk'. apply negb_true_iff. apply Z.eqb_neq.
  intros E. apply (not_selected _ _ Hfind). rewrite <- E. apply in_map. exact Hk'.
Qed.

(** X17: in a coherent state, over an ingredient array with pairwise
    different names, an ingredient that a click has just added to the
    selection is removed by the next click on it: the dependency check of
    the removal cannot refuse it, and the dish, the size and the selected
    ingredients are those from before the first click. *)
Theorem added_ingredient_can_be_removed (items : list Item) (ingredient : Item)
    (st st1 : Configurator) :
  NoDup (map item_name items) -> In ingredient items -> coherent items st ->
  handleIngredientToggle ingredient st = Some st1 ->
  selectedIngredients st1 = (selectedIngredients st ++ [ingredient])%list ->
  exists st2,
    handleIngredientToggle ingredient st1 = Some st2 /\
    selectedDish st2 = selectedDish st /\
    selectedSize st2 = selectedSize st /\
    selectedIngredients st2 = selectedIngredients st.
Proof.
  intros Hnames Hin Hc Htoggle Hadded.
  exists (with_selection st (selectedIngredients st)).
  split; [exact (@added_then_removed items ingredient st st1
                   Hnames Hin Hc Htoggle Hadded)|].
  repeat split.
Qed.

Lemma seed_items_names_unique : NoDup (map item_name seed_items).
Proof.
  unfold seed_items, seed; simpl.
  repeat (constructor; [simpl; intuition discriminate|]). constructor.
Defined.

Lemma added_ingredient_can_be_removed_witness :
  exists i st st1 st2,
    find (fun i => item_id i =? 2) seed_items = Some i /\
    session seed_items (mkDish 1 "Pizza") (mkSize 2 "Medium" 7.00 5) [5] = Some st /\
    map item_id (selectedIngredients st) = [5] /\
    handleIngredientToggle i st = Some st1 /\
    map item_id (selectedIngredients st1) = [5; 2] /\
    handleIngredientToggle i st1 = Some st2 /\
    map item_id (selectedIngredients st2) = [5].
Proof.
  assert (H : exists i st st1,
             find (fun i => item_id i =? 2) seed_items = Some i /\
             session seed_items (mkDish 1 "Pizza") (mkSize 2 "Medium" 7.00 5) [5]
               = Some st /\
             map item_id (selectedIngredients st) = [5] /\
             handleIngredientToggle i st = Some st1 /\
             map item_id (selectedIngredients st1) = [5; 2] /\
             selectedIngredients st1 = (selectedIngredients st ++ [i])%list).
  { do 3 eexists.
    split; [vm_compute; reflexivity|]. split; [vm_compute; reflexivity|].
    split; [vm_compute; reflexivity|]. split; [vm_compute; reflexivity|].
    split; vm_compute; reflexivity. }
  destruct H as (i & st & st1 & Hi & Hrun & Hsel & Htoggle & Hsel1 & Hadded).
  destruct (@added_ingredient_can_be_removed seed_items i st st1
              seed_items_names_unique (proj1 (find_some _ _ Hi))
              (configured_coherent seed_items_ids_unique
                 (session_configured _ _ _ _ Hrun))
              Htoggle Hadded) as (st2 & Hback & _ & _ & Hsel2).
  exists i, st, st1, st2. repeat split; try assumption.
  rewrite Hsel2. exact Hsel.
Defined.

(** ** From the configurator to the server *)

Lemma find_by_unique_key (A : Type) (key : A -> Z) (rows : list A) (x : A) :
  NoDup (map key rows) -> In x rows ->
  find (fun r => key r =? key x) rows = Some x.
Proof.
  induction rows as [|r0 rows IH]; intros Hnd Hin; [destruct Hin|].
  simpl in Hnd. apply NoDup_cons_iff in Hnd as [Hfresh Hnd]. simpl.
  destruct Hin as [->|Hin].
  - rewrite Z.eqb_refl. reflexivity.
  - destruct (key r0 =? key x) eqn:E.
    + apply Z.eqb_eq in E. exfalso. apply Hfresh. rewrite E.
      apply in_map. exact Hin.
    + apply IH; assumption.
Qed.

Lemma checked_selection_accepted (s : Store) (st : Configurator)
    (dish : Dish) (size : Size) (userId : Z) :
  faults s = [] -> saved s = None ->
  ingredient_ids_unique (live s) ->
  NoDup (map ing_name (ingredients (live s))) ->
  NoDup (map size_id (sizes (live s))) ->
  dependency_targets_exist (live s) ->
  associations_of_issued_orders (live s) ->
  coherent (map (item_on (live s)) (ingredients (live s))) st ->
  passes_final_validation (selectedIngredients st) ->
  selectedSize st = Some size ->
  In dish (basedishes (live s)) -> 1 <= dish_id dish ->
  In size (sizes (live s)) -> 1 <= size_id size ->
  Qle 0 (price st) ->
  fst (post_orders
         (mkRequest userId (dish_id dish) (size_id size)
            (map item_id (selectedIngredients st)) (price st)) s)
  = Status200 (next_order_id (live s)).
Proof.
  intros Hf Hsv Hids Hnames Hsizes Htargets Hassoc Hc Hpass Hsize
    Hdish Hdish1 Hsz Hsz1 Hprice.
  destruct Hc as (Hincl & Hsel & _ & Hcap & _).
  assert (Hrow : forall i, In i (selectedIngredients st) ->
                   exists r, In r (ingredients (live s)) /\ i = item_on (live s) r).
  { intros i Hi. apply Hincl in Hi. apply in_map_iff in Hi as [r [<- Hr]].
    exists r. auto. }
  apply valid_request_accepted; auto.
  - unfold validators. cbn [dishId sizeId req_total].
    rewrite (proj2 (Z.leb_le _ _) Hdish1), (proj2 (Z.leb_le _ _) Hsz1).
    simpl. apply Qle_bool_iff. exact Hprice.
  - unfold dish_known. cbn [dishId].
    apply find_present with dish; [exact Hdish | apply Z.eqb_refl].
  - unfold size_known. cbn [sizeId].
    apply find_present with size; [exact Hsz | apply Z.eqb_refl].
  - intros x Hx. cbn [req_ingredients] in Hx.
    apply in_map_iff in Hx as [i [<- Hi]].
    destruct (Hrow i Hi) as [r [Hr ->]]. exists r. split.
    + exact (find_ingredient_unique _ _ Hids Hr).
    + intros Hzero. destruct (Hpass _ Hi) as [Hstock _].
      unfold out_of_stock, item_on, item_of in Hstock.
      cbn [item_availability] in Hstock. rewrite Hzero in Hstock. discriminate.
  - right. exists size. cbn [sizeId req_ingredients]. split.
    + exact (@find_by_unique_key _ size_id _ size Hsizes Hsz).
    + rewrite length_map. exact (Hcap size Hsize).
  - intros a d Ha Hd. cbn [req_ingredients] in *.
    apply in_map_iff in Ha as [i [<- Hi]].
    destruct (Hrow i Hi) as [r [Hr ->]].
    destruct (proj1 (in_map_iff _ _ _) (Htargets _ _ Hd)) as [rd [Erd Hrd]].
    assert (Hname : In (ing_name rd) (dependencies (item_on (live s) r))).
    { apply item_on_dependencies. exists rd. split; [exact Hrd|].
      split; [|reflexivity]. rewrite Erd. exact Hd. }
    destruct (Hpass _ Hi) as [_ [Hdeps _]].
    destruct (proj1 (some_named_true _ _) (Hdeps _ Hname)) as [k [Hk Ek]].
    destruct (Hrow k Hk) as [rk [Hrk ->]].
    assert (E : rk = rd)
      by (apply (@same_key_same_row _ _ ing_name (ingredients (live s))); auto).
    subst rk. apply in_map_iff. exists (item_on (live s) rd).
    split; [exact Erd | exact Hk].
  - intros a b Ha Hb Hab. cbn [req_ingredients] in *.
    apply in_map_iff in Ha as [i [<- Hi]].
    apply in_map_iff in Hb as [j [<- Hj]].
    destruct (Hrow i Hi) as [ri [Hri ->]].
    destruct (Hrow j Hj) as [rj [Hrj ->]].
    assert (Hname : In (ing_name rj) (incompatibilities (item_on (live s) ri))).
    { apply item_on_incompatibilities. exists rj. split; [exact Hrj|].
      split; [exact Hab | reflexivity]. }
    destruct (Hpass _ Hi) as [_ [_ Hinc]].
    assert (Hs : some_named (selectedIngredients st) (ing_name rj) = true).
    { apply some_named_true. exists (item_on (live s) rj).
      split; [exact Hj | reflexivity]. }
    rewrite (Hinc _ Hname) in Hs. discriminate.
Qed.

Lemma submitted_accepted (s : Store) (items : list Item) (st : Configurator)
    (sub : Submission) (userId : Z) :
  faults s = [] -> saved s = None ->
  ingredient_ids_unique (live s) ->
  NoDup (map ing_name (ingredients (live s))) ->
  NoDup (map size_id (sizes (live s))) ->
  dependency_targets_exist (live s) ->
  associations_of_issued_orders (live s) ->
  fst (listIngredients s) = Fulfilled items ->
  configured items st ->
  (forall dish, selectedDish st = Some dish ->
     In dish (basedishes (live s)) /\ 1 <= dish_id dish) ->
  (forall size, selectedSize st = Some size ->
     In size (sizes (live s)) /\ 1 <= size_id size) ->
  Qle 0 (price st) ->
  handleSubmitOrder st = inr sub ->
  fst (post_orders (request_of userId sub) s) = Status200 (next_order_id (live s)).
Proof.
  intros Hf Hsv Hids Hnames Hsizes Htargets Hassoc Hlist Hconf Hdish Hsize
    Hprice Hsub.
  rewrite (listIngredients_quiet s Hf) in Hlist. simpl in Hlist.
  injection Hlist as <-.
  assert (Hc : coherent (map (item_on (live s)) (ingredients (live s))) st).
  { apply configured_coherent; [|exact Hconf].
    rewrite map_map. exact Hids. }
  unfold handleSubmitOrder in Hsub.
  destruct (selectedDish st) as [dish|] eqn:Ed; [|discriminate].
  destruct (selectedSize st) as [size|] eqn:Ez; [|discriminate].
  destruct (final_validation (selectedIngredients st) (selectedIngredients st))
    eqn:F; [discriminate|].
  injection Hsub as <-. unfold request_of.
  cbn [sub_dishId sub_sizeId sub_ingredients sub_total].
  destruct (Hdish dish eq_refl) as [Hd Hd1].
  destruct (Hsize size eq_refl) as [Hz Hz1].
  apply checked_selection_accepted; auto.
  exact (proj1 (final_validation_None _ _) F).
Qed.

(** X18: an order the configurator sends is accepted by POST /api/orders.
    On a connection outside a transaction and with no failing statement,
    over tables whose ingredient rows have pairwise different ids and
    pairwise different names, whose size rows have pairwise different ids,
    whose dependency rows name existing ingredients and whose association
    rows are of issued orders: if the ingredient array of the configurator is
    what [listIngredients] gives on these tables, the selected dish and size
    are rows of the tables with ids from 1 and the price is not negative,
    then the request [handleSubmitOrder] sends passes every check of the
    route and the answer is 200 with the next order id. *)
Theorem submitted_order_is_accepted (s : Store) (items : list Item)
    (st : Configurator) (sub : Submission) (userId : Z) :
  faults s = [] -> saved s = None ->
  ingredient_ids_unique (live s) ->
  NoDup (map ing_name (ingredients (live s))) ->
  NoDup (map size_id (sizes (live s))) ->
  dependency_targets_exist (live s) ->
  associations_of_issued_orders (live s) ->
  fst (listIngredients s) = Fulfilled items ->
  configured items st ->
  (forall dish, selectedDish st = Some dish ->
     In dish (basedishes (live s)) /\ 1 <= dish_id dish) ->
  (forall size, selectedSize st = Some size ->
     In size (sizes (live s)) /\ 1 <= size_id size) ->
  Qle 0 (price st) ->
  handleSubmitOrder st = inr sub ->
  fst (post_orders (request_of userId sub) s) = Status200 (next_order_id (live s)).
Proof. exact (@submitted_accepted s items st sub userId). Qed.

Lemma seed_ingredient_names_unique : NoDup (map ing_name (ingredients seed)).
Proof.
  unfold seed; simpl.
  repeat (constructor; [simpl; intuition discriminate|]). constructor.
Defined.

Lemma seed_dependency_targets_exist : dependency_targets_exist seed.
Proof.
  intros a d H. simpl in H.
  repeat (destruct H as [H|H]; [injection H as <- <-; simpl; tauto|]).
  destruct H.
Defined.

Lemma submitted_order_is_accepted_witness :
  exists st sub,
    session seed_items (mkDish 1 "Pizza") (mkSize 2 "Medium" 7.00 5) [5; 2; 1]
      = Some st /\
    handleSubmitOrder (with_price st 9.20) = inr sub /\
    map item_id (sub_ingredients sub) = [5; 2; 1] /\
    fst (post_orders (request_of 1 sub) (connect seed [])) = Status200 5.
Proof.
  assert (H : exists st sub,
             session seed_items (mkDish 1 "Pizza") (mkSize 2 "Medium" 7.00 5)
               [5; 2; 1] = Some st /\
             selectedDish st = Some (mkDish 1 "Pizza") /\
             selectedSize st = Some (mkSize 2 "Medium" 7.00 5) /\
             handleSubmitOrder (with_price st 9.20) = inr sub /\
             map item_id (sub_ingredients sub) = [5; 2; 1]).
  { do 2 eexists.
    split; [vm_compute; reflexivity|]. split; [vm_compute; reflexivity|].
    split; [vm_compute; reflexivity|]. split; vm_compute; reflexivity. }
  destruct H as (st & sub & Hrun & Hdish & Hsize & Hsub & Hids).
  assert (Hlist : fst (listIngredients (connect seed [])) = Fulfilled seed_items)
    by (vm_compute; reflexivity).
  assert (Hprice : Qle 0 (price (with_price st 9.20)))
    by (apply Qle_bool_iff; vm_compute; reflexivity).
  exists st, sub. split; [exact Hrun|]. split; [exact Hsub|]. split; [exact Hids|].
  refine (@submitted_order_is_accepted (connect seed []) seed_items
            (with_price st 9.20) sub 1 eq_refl eq_refl
            seed_ingredient_ids_unique seed_ingredient_names_unique
            seed_size_ids_unique seed_dependency_targets_exist
            seed_associations_of_issued_orders Hlist
            (configured_step (session_configured _ _ _ _ Hrun)
               (price_computed _ st 9.20))
            _ _ Hprice Hsub).
  - intros dish Hd. simpl in Hd. rewrite Hdish in Hd. injection Hd as <-.
    simpl. split; [auto | lia].
  - intros size Hz. simpl in Hz. rewrite Hsize in Hz. injection Hz as <-.
    simpl. split; [auto | lia].
Defined.

(** ** The status shown and the click *)

Lemma longer_selection (st : Configurator) (ingredient : Item) (st' : Configurator) :
  (List.length (selectedIngredients st') <= List.length (selectedIngredients st))%nat ->
  Some st' <> Some (with_selection st (selectedIngredients st ++ [ingredient])).
Proof.
  intros Hlen E.
  apply (f_equal (fun o => match o with
                           | Some x => List.length (selectedIngredients x)
                           | None => O
                           end)) in E.
  simpl in E. rewrite length_app in E. simpl in E. lia.
Qed.

Lemma status_and_click (ingredient : Item) (st : Configurator) (size : Size) :
  selectedSize st = Some size ->
  (isDisabled (getIngredientStatus ingredient st) = false /\
   find (fun i => item_id i =? item_id ingredient) (selectedIngredients st) = None
   <->
   handleIngredientToggle ingredient st
   = Some (with_selection st (selectedIngredients st ++ [ingredient]))).
Proof.
  intros Hsize. unfold getIngredientStatus, handleIngredientToggle. rewrite Hsize.
  assert (Hmodal : forall message,
             Some (with_modal st message)
             <> Some (with_selection st (selectedIngredients st ++ [ingredient])))
    by (intros message; apply longer_selection; apply le_n).
  destruct (find (fun i => item_id i =? item_id ingredient) (selectedIngredients st))
    as [k|] eqn:Efind.
  - split; [intros [_ H]; discriminate|].
    destruct (checkIfRequiredByOthers ingredient (selectedIngredients st));
      intros H; exfalso; [|exact (Hmodal _ H)].
    revert H. apply longer_selection. simpl. apply filter_shorter.
  - destruct (out_of_stock ingredient).
    { split; [intros [H _]; discriminate | intros H; destruct (Hmodal _ H)]. }
    destruct (Z.of_nat (List.length (selectedIngredients st)) >=? max_ingredients size).
    { split; [intros [H _]; discriminate | intros H; destruct (Hmodal _ H)]. }
    destruct (checkDependencies ingredient (selectedIngredients st)).
    2:{ split; [intros [H _]; discriminate | intros H; destruct (Hmodal _ H)]. }
    destruct (checkIncompatibilities ingredient (selectedIngredients st)).
    2:{ split; [intros [H _]; discriminate | intros H; destruct (Hmodal _ H)]. }
    split; [reflexivity | auto].
Qed.

(** X19: with a size selected, an entry of the ingredient list that is not
    selected answers clicks ([isDisabled] false for its status) exactly when
    the click adds the ingredient at the end of the selection: the list never
    lets through a click that [handleIngredientToggle] would answer with a
    modal for an ingredient to add, and never blocks one it would add. *)
Theorem enabled_entry_is_added_by_the_click (ingredient : Item)
    (st : Configurator) (size : Size) :
  selectedSize st = Some size ->
  (isDisabled (getIngredientStatus ingredient st) = false /\
   find (fun i => item_id i =? item_id ingredient) (selectedIngredients st) = None
   <->
   handleIngredientToggle ingredient st
   = Some (with_selection st (selectedIngredients st ++ [ingredient]))).
Proof. exact (@status_and_click ingredient st size). Qed.

Lemma enabled_entry_is_added_by_the_click_witness :
  exists i st,
    find (fun i => item_id i =? 2) seed_items = Some i /\
    session seed_items (mkDish 1 "Pizza") (mkSize 2 "Medium" 7.00 5) [5] = Some st /\
    (isDisabled (getIngredientStatus i st) = false /\
     find (fun k => item_id k =? item_id i) (selectedIngredients st) = None
     <->
     handleIngredientToggle i st
     = Some (with_selection st (selectedIngredients st ++ [i]))).
Proof.
  assert (H : exists i st,
             find (fun i => item_id i =? 2) seed_items = Some i /\
             session seed_items (mkDish 1 "Pizza") (mkSize 2 "Medium" 7.00 5) [5]
               = Some st /\
             selectedSize st = Some (mkSize 2 "Medium" 7.00 5)).
  { do 2 eexists. split; [vm_compute; reflexivity|].
    split; vm_compute; reflexivity. }
  destruct H as (i & st & Hi & Hrun & Hsize). exists i, st.
  split; [exact Hi|]. split; [exact Hrun|].
  exact (@enabled_entry_is_added_by_the_click i st _ Hsize).
Defined.

(** * The 400 answers of POST /api/orders *)

Lemma first_candidate_head (ings : list Z) (P : Z -> Prop) (a : Z) :
  ~ P a -> first_candidate (a :: ings) P a.
Proof.
  intros Ha. exists [], ings. split; [reflexivity|]. split; [|exact Ha].
  intros x [].
Qed.

Lemma first_candidate_later (ings : list Z) (P : Z -> Prop) (x a : Z) :
  P x -> first_candidate ings P a -> first_candidate (x :: ings) P a.
Proof.
  intros Hx (before & after & -> & Hb & Ha). exists (x :: before), after.
  split; [reflexivity|]. split; [|exact Ha].
  intros y [<-|Hy]; auto.
Qed.

Lemma first_candidate_In (ings : list Z) (P : Z -> Prop) (a : Z) :
  first_candidate ings P a -> In a ings.
Proof.
  intros (before & after & -> & _). apply in_or_app. right. left. reflexivity.
Qed.

Lemma first_candidate_same (ings : list Z) (P Q : Z -> Prop) (a : Z) :
  (forall x, In x ings -> (P x <-> Q x)) ->
  first_candidate ings P a -> first_candidate ings Q a.
Proof.
  intros HPQ (before & after & -> & Hb & Ha). exists before, after.
  split; [reflexivity|]. split.
  - intros x Hx. apply HPQ; [apply in_or_app; left; exact Hx | exact (Hb x Hx)].
  - intros HQ. apply Ha. apply HPQ; [|exact HQ].
    apply in_or_app. right. left. reflexivity.
Qed.

(** The loop on existence and availability stops at the first candidate
    that is unknown or at 0. *)
Lemma existence_and_availability_stops (rows : list Ingredient) (ings : list Z)
    (v : Violation) :
  existence_and_availability rows ings = Some v ->
  exists id,
    first_candidate ings
      (fun x => exists r, find_ingredient rows x = Some r /\
                          availability r <> Some 0) id /\
    ((find_ingredient rows id = None /\ v = Ingredient_not_found id) \/
     (exists r, find_ingredient rows id = Some r /\ availability r = Some 0 /\
                v = Not_available (ing_name r))).
Proof.
  induction ings as [|x ings IH]; simpl; [discriminate|].
  destruct (find_ingredient rows x) as [r|] eqn:Hf.
  - assert (Hgo : availability r <> Some 0 ->
                  existence_and_availability rows ings = Some v ->
                  exists id,
                    first_candidate (x :: ings)
                      (fun x => exists r, find_ingredient rows x = Some r /\
                                          availability r <> Some 0) id /\
                    ((find_ingredient rows id = None /\ v = Ingredient_not_found id) \/
                     (exists r, find_ingredient rows id = Some r /\
                                availability r = Some 0 /\
                                v = Not_available (ing_name r)))).
    { intros Hne H. destruct (IH H) as (id & Hfirst & Hv). exists id.
      split; [|exact Hv]. apply first_candidate_later; [|exact Hfirst].
      exists r. auto. }
    destruct (availability r) as [[|p|p]|] eqn:Ha;
      try (apply Hgo; discriminate).
    intros [= <-]. exists x. split.
    + apply first_candidate_head. intros (r' & Hr' & Hne).
      rewrite Hf in Hr'. injection Hr' as <-. exact (Hne Ha).
    + right. exists r. auto.
  - intros [= <-]. exists x. split.
    + apply first_candidate_head. intros (r' & Hr' & _). congruence.
    + left. auto.
Qed.

(** [find] on rows in index order gives the smallest id that passes. *)
Lemma find_sorted_least (p : Z -> bool) (l : list Z) (d : Z) :
  StronglySorted Z.le l -> find p l = Some d ->
  forall d', In d' l -> p d' = true -> d <= d'.
Proof.
  induction 1 as [|x l Hs IH Hall]; simpl; [discriminate|].
  destruct (p x) eqn:Hx.
  - intros [= <-] d' [<-|Hd'] _; [lia|].
    exact (proj1 (Forall_forall _ _) Hall d' Hd').
  - intros Hfind d' [<-|Hd'] Hp; [congruence|]. exact (IH Hfind d' Hd' Hp).
Qed.

Lemma find_select_second (p : Z -> bool) (key : Z) (rows : list (Z * Z)) (d : Z) :
  find p (select_second key rows) = Some d ->
  least (fun d' => In (key, d') rows /\ p d' = true) d.
Proof.
  intros Hfind. destruct (find_some _ _ Hfind) as [Hin Hp].
  split; [split; [exact (proj1 (select_second_In _ _ _) Hin) | exact Hp]|].
  intros d' [Hd' Hp']. apply (find_sorted_least p) with (select_second key rows).
  - unfold select_second. apply Sorted_StronglySorted.
    + intros x y z. apply Z.le_trans.
    + apply ascending_sorted.
  - exact Hfind.
  - exact (proj2 (select_second_In _ _ _) Hd').
  - exact Hp'.
Qed.

Lemma find_select_second_none (p : Z -> bool) (key : Z) (rows : list (Z * Z)) :
  find p (select_second key rows) = None ->
  forall d, In (key, d) rows -> p d = false.
Proof.
  intros Hfind d Hd.
  exact (find_none _ _ Hfind d (proj2 (select_second_In _ _ _) Hd)).
Qed.

(** The name fetched for a required ingredient that is not a candidate. *)
Lemma fetched_name (rows : list Ingredient) (d : Z) :
  match filter (fun r => includes [d] (ing_id r)) rows with
  | m :: _ => ing_name m
  | [] => fallback_name d
  end = name_in rows d.
Proof.
  unfold name_in, find_ingredient.
  induction rows as [|r rows IH]; simpl; [reflexivity|].
  rewrite orb_false_r. destruct (ing_id r =? d); [reflexivity | exact IH].
Qed.

Lemma find_ingredient_filter_out (ids : list Z) (rows : list Ingredient) (x : Z) :
  ~ In x ids ->
  find_ingredient (filter (fun r => includes ids (ing_id r)) rows) x = None.
Proof.
  intros Hx. unfold find_ingredient.
  destruct (find _ _) as [r|] eqn:Hfind; [|reflexivity].
  apply find_some in Hfind as [Hin E]. apply filter_In in Hin as [_ Hinc].
  apply Z.eqb_eq in E. subst x. apply includes_In in Hinc. contradiction.
Qed.

(** The dependency loop answers 503, or the first candidate with a missing
    dependency and the smallest id it misses. *)
Lemma check_dependencies_answer (ids : list Z) (rows : list Ingredient)
    (ings : list Z) :
  forall s s' r,
    check_dependencies ids rows ings s = (inl r, s') ->
    r = Status503 \/
    exists a d,
      first_candidate ings
        (fun x => forall d', In (x, d') (ingredient_dependencies (live s)) ->
                             In d' ids) a /\
      least (fun d' => In (a, d') (ingredient_dependencies (live s)) /\
                       ~ In d' ids) d /\
      r = Status400 (Invalid (Requires (name_in rows a)
            (match find_ingredient rows d with
             | Some reqIng => ing_name reqIng
             | None => name_in (ingredients (live s)) d
             end))).
Proof.
  induction ings as [|ing ings IH]; intros s s' r Hrun; [discriminate|].
  simpl in Hrun. apply bind_inl in Hrun as [Hq|(deps & s1 & Hq & Hrest)].
  { left. exact (await_query_inl _ _ Hq). }
  apply await_query_inr in Hq as (-> & Hl & _).
  destruct (find _ _) as [depId|] eqn:Hfind.
  - apply find_select_second in Hfind as [[Hrow Hmiss] Hleast].
    apply negb_true_iff in Hmiss.
    assert (Hout : ~ In depId ids).
    { intros H. apply includes_In in H. congruence. }
    assert (Hfirst : first_candidate (ing :: ings)
              (fun x => forall d', In (x, d') (ingredient_dependencies (live s)) ->
                                   In d' ids) ing).
    { apply first_candidate_head. intros H. exact (Hout (H depId Hrow)). }
    assert (Hd : least (fun d' => In (ing, d') (ingredient_dependencies (live s)) /\
                                  ~ In d' ids) depId).
    { split; [auto|]. intros d' [Hd' Hout']. apply Hleast. split; [exact Hd'|].
      apply negb_true_iff. apply not_true_is_false. intros H.
      apply includes_In in H. contradiction. }
    destruct (find_ingredient rows depId) as [reqIng|] eqn:Hreq.
    + injection Hrest as <- _. right. exists ing, depId.
      rewrite Hreq. auto.
    + apply bind_inl in Hrest as [Hq|(m & s2 & Hq & Hr)].
      * left. unfold getIngredientsByIds in Hq. exact (await_query_inl _ _ Hq).
      * unfold getIngredientsByIds in Hq.
        apply await_query_inr in Hq as (-> & _ & _).
        injection Hr as <- _. right. exists ing, depId.
        rewrite Hreq, Hl, <- (fetched_name (ingredients (live s)) depId). auto.
  - destruct (IH _ _ _ Hrest) as [->|(a & d & Hfirst & Hd & ->)];
      [left; reflexivity|].
    right. exists a, d. rewrite Hl in *. split; [|auto].
    apply first_candidate_later; [|exact Hfirst].
    intros d' Hd'. pose proof (find_select_second_none _ _ _ Hfind d' Hd') as H.
    apply negb_false_iff in H. apply includes_In. exact H.
Qed.

(** The incompatibility loop answers 503, or the first candidate that is
    incompatible with a candidate and the smallest such id. *)
Lemma check_incompatibilities_answer (ids : list Z) (rows : list Ingredient)
    (ings : list Z) :
  forall s s' r,
    check_incompatibilities ids rows ings s = (inl r, s') ->
    r = Status503 \/
    exists a b,
      first_candidate ings
        (fun x => forall y, In y ids ->
                            ~ In (x, y) (ingredient_incompatibilities (live s))) a /\
      least (fun b' => In (a, b') (ingredient_incompatibilities (live s)) /\
                       In b' ids) b /\
      r = Status400 (Invalid (Incompatible_with (name_in rows a) (name_in rows b))).
Proof.
  induction ings as [|ing ings IH]; intros s s' r Hrun; [discriminate|].
  simpl in Hrun. apply bind_inl in Hrun as [Hq|(incs & s1 & Hq & Hrest)].
  { left. exact (await_query_inl _ _ Hq). }
  apply await_query_inr in Hq as (-> & Hl & _).
  destruct (find _ _) as [incompId|] eqn:Hfind.
  - apply find_select_second in Hfind as [[Hrow Hhit] Hleast].
    apply includes_In in Hhit.
    injection Hrest as <- _. right. exists ing, incompId. split; [|split; [|reflexivity]].
    + apply first_candidate_head. intros H. exact (H incompId Hhit Hrow).
    + split; [auto|]. intros b' [Hb' Hin']. apply Hleast. split; [exact Hb'|].
      apply includes_In. exact Hin'.
  - destruct (IH _ _ _ Hrest) as [->|(a & b & Hfirst & Hb & ->)];
      [left; reflexivity|].
    right. exists a, b. rewrite Hl in *. split; [|auto].
    apply first_candidate_later; [|exact Hfirst].
    intros y Hy Hrow. pose proof (find_select_second_none _ _ _ Hfind y Hrow) as H.
    apply includes_In in Hy. congruence.
Qed.

Lemma name_in_fetched (ids : list Z) (rows : list Ingredient) (x : Z) :
  In x ids ->
  name_in (filter (fun r => includes ids (ing_id r)) rows) x = name_in rows x.
Proof.
  intros Hx. unfold name_in. rewrite (@find_ingredient_filter ids rows x Hx).
  reflexivity.
Qed.

Lemma validate_ingredients_explained (order : OrderRequest) (z : Size)
    (s s' : Store) (v : Violation) :
  dish_known (live s) order ->
  find (fun z => size_id z =? sizeId order) (sizes (live s)) = Some z ->
  validate_ingredients order z s = (inl (Status400 (Invalid v)), s') ->
  explained_by (live s) order v.
Proof.
  intros Hdish Hz Hrun.
  assert (Hsize : size_known (live s) order)
    by (unfold size_known; rewrite Hz; discriminate).
  unfold validate_ingredients in Hrun.
  destruct (req_ingredients order) as [|i l] eqn:Hi; [discriminate|].
  rewrite <- Hi in Hrun.
  apply bind_inl in Hrun as [Hq|(rows & s1 & Hq & Hrun)].
  { rewrite Hi in Hq. apply await_query_inl in Hq. discriminate. }
  rewrite Hi in Hq at 1. unfold getIngredientsByIds in Hq.
  apply await_query_inr in Hq as (Hrows & Hl1 & _).
  rewrite <- Hi in Hrows. subst rows. rewrite fetched_rows_suffice in Hrun.
  destruct (existence_and_availability (ingredients (live s))
              (req_ingredients order)) as [v0|] eqn:He.
  - injection Hrun as <- _.
    destruct (existence_and_availability_stops _ _ He)
      as (id & Hfirst & [(Hnone & ->)|(r & Hsome & Ha & ->)]); simpl.
    + auto.
    + repeat split; auto. exists id, r. auto.
  - assert (Hstock : all_in_stock (live s) order)
      by exact (proj1 (existence_and_availability_passed _ _) He).
    destruct (_ >? _) eqn:Hcap.
    + injection Hrun as <- _. simpl. repeat split; auto.
      exists z. repeat split; auto. apply Z.gtb_lt in Hcap. lia.
    + assert (Hfits : fits_size (live s) order).
      { exists z. split; [exact Hz|].
        rewrite Z.gtb_ltb in Hcap. apply Z.ltb_ge in Hcap. exact Hcap. }
      apply bind_inl in Hrun as [Hdeps|([] & s2 & Hdeps & Hinc)].
      * destruct (check_dependencies_answer _ _ _ _ Hdeps)
          as [E|(a & d & Hfirst & Hd & E)]; [discriminate|].
        injection E as ->. simpl. rewrite Hl1 in Hfirst, Hd.
        repeat split; auto. exists a, d.
        split; [exact Hfirst|]. split; [exact Hd|]. split.
        -- apply name_in_fetched. exact (first_candidate_In Hfirst).
        -- rewrite find_ingredient_filter_out by exact (proj2 (proj1 Hd)).
           rewrite Hl1. reflexivity.
      * assert (Hl2 : live s2 = live s).
        { match type of Hdeps with
          | check_dependencies ?a ?b ?c s1 = _ =>
              destruct (checks_only_check_dependencies a b c s1) as (H & _)
          end.
          rewrite Hdeps in H. simpl in H. congruence. }
        destruct (check_incompatibilities_answer _ _ _ _ Hinc)
          as [E|(a & b & Hfirst & Hb & E)]; [discriminate|].
        injection E as ->. simpl. rewrite Hl2 in Hfirst, Hb.
        repeat split; auto.
        -- intros a0 d0 Ha0 Hd0. rewrite <- Hl1 in Hd0.
           exact (check_dependencies_passed _ _ _ _ Hdeps a0 d0 Ha0 Hd0).
        -- exists a, b. split; [exact Hfirst|]. split; [exact Hb|]. split.
           ++ apply name_in_fetched. exact (first_candidate_In Hfirst).
           ++ apply name_in_fetched. exact (proj2 (proj1 Hb)).
Qed.

Lemma validate_explained (order : OrderRequest) (s s' : Store) (v : Violation) :
  validate order s = (inl (Status400 (Invalid v)), s') ->
  explained_by (live s) order v.
Proof.
  unfold validate, getDishById, getSizeById. intros Hrun.
  apply bind_inl in Hrun as [Hq|(dishInfo & s1 & Hq & Hrun)].
  { apply await_query_inl in Hq. discriminate. }
  apply await_query_inr in Hq as (-> & Hl1 & _).
  destruct (find _ (basedishes (live s))) as [d|] eqn:Hd.
  - assert (Hdish : dish_known (live s) order)
      by (unfold dish_known; rewrite Hd; discriminate).
    apply bind_inl in Hrun as [Hq|(sizeInfo & s2 & Hq & Hrun)].
    { apply await_query_inl in Hq. discriminate. }
    apply await_query_inr in Hq as (-> & Hl2 & _).
    rewrite Hl1 in *.
    destruct (find _ (sizes (live s))) as [z|] eqn:Hz.
    + rewrite <- Hl2 in Hdish, Hz. rewrite <- Hl2.
      exact (@validate_ingredients_explained order z s2 s' v Hdish Hz Hrun).
    + injection Hrun as <- _. simpl. split; [exact Hdish|].
      unfold size_known. rewrite Hz. auto.
  - injection Hrun as <- _. simpl. unfold dish_known. rewrite Hd. auto.
Qed.

(** The validation never answers with a body of the DAO. *)
Lemma validate_no_dao (order : OrderRequest) (s s' : Store) (e : DaoError) :
  validate order s <> (inl (Status400 (Dao e)), s').
Proof.
  unfold validate, getDishById, getSizeById. intros Hrun.
  apply bind_inl in Hrun as [Hq|(dishInfo & s1 & _ & Hrun)].
  { apply await_query_inl in Hq. discriminate. }
  destruct dishInfo as [d|]; [|discriminate].
  apply bind_inl in Hrun as [Hq|(sizeInfo & s2 & _ & Hrun)].
  { apply await_query_inl in Hq. discriminate. }
  destruct sizeInfo as [z|]; [|discriminate].
  unfold validate_ingredients in Hrun.
  destruct (req_ingredients order) as [|i l] eqn:Hi; [discriminate|].
  rewrite <- Hi in Hrun.
  apply bind_inl in Hrun as [Hq|(rows & s3 & _ & Hrun)].
  { rewrite Hi in Hq. apply await_query_inl in Hq. discriminate. }
  destruct (existence_and_availability rows (req_ingredients order));
    [discriminate|].
  destruct (_ >? _); [discriminate|].
  apply bind_inl in Hrun as [Hdeps|([] & s4 & _ & Hinc)].
  - destruct (check_dependencies_answer _ _ _ _ Hdeps)
      as [E|(a & dd & _ & _ & E)]; discriminate.
  - destruct (check_incompatibilities_answer _ _ _ _ Hinc)
      as [E|(a & b & _ & _ & E)]; discriminate.
Qed.

(** What a validation that went through has checked. *)
Lemma validate_passed_checks (order : OrderRequest) (s s' : Store) :
  validate order s = (inr tt, s') ->
  dish_known (live s) order /\ size_known (live s) order /\
  all_in_stock (live s) order /\
  (req_ingredients order = [] \/ fits_size (live s) order) /\
  dependencies_closed (live s) order /\
  no_incompatible_pair (live s) order.
Proof.
  intros Hval.
  destruct (validate_passed order s Hval) as (d & z & Hd & Hz & Hchecks).
  split; [unfold dish_known; rewrite Hd; discriminate|].
  split; [unfold size_known; rewrite Hz; discriminate|].
  destruct Hchecks as [E|(rows & sd & si & He & Hcap & Hld & Hli & Hdeps & Hinc)].
  - repeat split; auto.
    + intros x Hx. rewrite E in Hx. destruct Hx.
    + intros a dd Ha. rewrite E in Ha. destruct Ha.
    + intros a b Ha. rewrite E in Ha. destruct Ha.
  - split; [exact (proj1 (existence_and_availability_passed _ _) He)|].
    split; [right; exists z; auto|]. split.
    + intros a dd Ha Hrow. rewrite <- Hld in Hrow.
      exact (check_dependencies_passed _ _ _ _ Hdeps a dd Ha Hrow).
    + intros a b Ha Hb Hrow. rewrite <- Hli in Hrow.
      exact (check_incompatibilities_passed _ _ _ _ Hinc a b Ha Hb Hrow).
Qed.

Lemma final_check_after_validate (order : OrderRequest) (s s1 : Store) :
  validate order s = (inr tt, s1) ->
  final_check order s1
  = match req_ingredients order with
    | [] => (inr tt, s1)
    | _ => if hd false (faults s1) then (inl Status503, after s1 (live s1))
           else (inr tt, after s1 (live s1))
    end.
Proof.
  intros Hval.
  destruct (validate_passed_checks order s Hval) as (_ & _ & Hstock & _).
  assert (Hl1 : live s1 = live s).
  { destruct (checks_only_validate order s) as (H & _).
    rewrite Hval in H. exact H. }
  rewrite final_check_run.
  destruct (req_ingredients order) as [|i l] eqn:Hi; [reflexivity|].
  destruct (hd false (faults s1)); [reflexivity|].
  rewrite Hl1, <- Hi.
  rewrite (proj2 (existence_and_availability_passed _ _) Hstock). reflexivity.
Qed.

Lemma post_orders_400 (order : OrderRequest) (s : Store) (body : ErrorBody) :
  fst (post_orders order s) = Status400 body -> explained order s body.
Proof.
  intros Hrun. pose proof Hrun as Hanswer. revert Hrun.
  unfold post_orders. destruct (validators order) eqn:Hv; [|discriminate].
  unfold bind.
  destruct (validate order s) as [[r|[]] s1] eqn:Hval; simpl.
  - intros ->. destruct body as [v|e]; simpl.
    + exact (@validate_explained order s s1 v Hval).
    + destruct (@validate_no_dao order s s1 e Hval).
  - destruct (validate_passed_checks order s Hval)
      as (Hdish & Hsize & Hstock & Hfits & Hdeps & Hinc).
    destruct (checks_only_validate order s) as (Hl1 & Hs1 & _).
    rewrite Hval in Hl1, Hs1. simpl in Hl1, Hs1.
    assert (Hdao : forall sc e,
               live sc = live s -> saved sc = saved s ->
               fst (createOrder order sc) = Rejected e ->
               body = Dao e -> explained order s body).
    { intros sc e Hlc Hsc Hc ->. simpl. repeat split; auto.
      - exists sc. auto.
      - intros Hf Hsv Hassoc Hnd.
        rewrite (@valid_request_accepted order s Hv Hf Hsv Hassoc Hdish Hsize
                   Hstock Hfits Hdeps Hinc Hnd) in Hanswer.
        discriminate. }
    rewrite (final_check_after_validate order s Hval).
    destruct (req_ingredients order) as [|i l] eqn:Hi.
    + unfold persist, bind, await_createOrder, ret.
      destruct (createOrder order s1) as [[id|e] s2] eqn:Hc; simpl;
        [discriminate|].
      intros [= <-]. apply (Hdao s1 e); auto. rewrite Hc. reflexivity.
    + destruct (hd false (faults s1)); [discriminate|].
      unfold persist, bind, await_createOrder, ret.
      destruct (createOrder order (after s1 (live s1))) as [[id|e] s2] eqn:Hc;
        simpl; [discriminate|].
      intros [= <-]. apply (Hdao (after s1 (live s1)) e); auto.
      rewrite Hc. reflexivity.
Qed.

(** X1: every 400 answer of POST /api/orders is explained by the tables of
    the request.  A message of the validation names the check that fails,
    while every check before it (dish, size, existence and availability,
    size cap, dependencies, incompatibilities, in this order) holds; the id
    or the names in it are those of the first candidate of the request that
    fails the check and, for a missing dependency or an incompatibility, of
    the smallest ingredient id that makes it fail (the name of a row, or
    'ingredient ID n' when there is none).  An error of [createOrder] is
    answered only after every check has passed, and on a connection with no
    storage fault, outside a transaction and with association rows of issued
    orders only, it is answered only to a request with a repeated
    ingredient.  The final availability check never turns down a request
    that the validation has just passed on the same tables. *)
Theorem rejection_is_explained (order : OrderRequest) (s : Store) :
  (forall body, fst (post_orders order s) = Status400 body ->
     explained order s body) /\
  (forall s1 error, validate order s = (inr tt, s1) ->
     fst (final_check order s1) <> inl (Status400 error)).
Proof.
  split.
  - intros body. exact (@post_orders_400 order s body).
  - intros s1 error Hval. rewrite (final_check_after_validate order s Hval).
    destruct (req_ingredients order); [discriminate|].
    destruct (hd false (faults s1)); discriminate.
Qed.

Lemma rejection_is_explained_witness :
  fst (post_orders (mkRequest 1 1 2 [5; 6; 9; 2] 8.00) (connect seed []))
    = Status400 (Invalid (Requires "Parmesan" "Mozzarella")) /\
  explained (mkRequest 1 1 2 [5; 6; 9; 2] 8.00) (connect seed [])
    (Invalid (Requires "Parmesan" "Mozzarella")) /\
  fst (post_orders (mkRequest 1 1 2 [7; 3; 2; 5] 8.00) (connect seed []))
    = Status400 (Invalid (Incompatible_with "Eggs" "Tomatoes")) /\
  explained (mkRequest 1 1 2 [7; 3; 2; 5] 8.00) (connect seed [])
    (Invalid (Incompatible_with "Eggs" "Tomatoes")) /\
  fst (post_orders (mkRequest 1 1 2 [8; 8] 8.00) (connect seed []))
    = Status400 (Dao (Failed_to_add_ingredients SQLITE_CONSTRAINT)) /\
  explained (mkRequest 1 1 2 [8; 8] 8.00) (connect seed [])
    (Dao (Failed_to_add_ingredients SQLITE_CONSTRAINT)).
Proof.
  assert (H1 : fst (post_orders (mkRequest 1 1 2 [5; 6; 9; 2] 8.00) (connect seed []))
               = Status400 (Invalid (Requires "Parmesan" "Mozzarella")))
    by (vm_compute; reflexivity).
  assert (H2 : fst (post_orders (mkRequest 1 1 2 [7; 3; 2; 5] 8.00) (connect seed []))
               = Status400 (Invalid (Incompatible_with "Eggs" "Tomatoes")))
    by (vm_compute; reflexivity).
  assert (H3 : fst (post_orders (mkRequest 1 1 2 [8; 8] 8.00) (connect seed []))
               = Status400 (Dao (Failed_to_add_ingredients SQLITE_CONSTRAINT)))
    by (vm_compute; reflexivity).
  split; [exact H1|]. split.
  { exact (proj1 (@rejection_is_explained (mkRequest 1 1 2 [5; 6; 9; 2] 8.00)
                    (connect seed [])) _ H1). }
  split; [exact H2|]. split.
  { exact (proj1 (@rejection_is_explained (mkRequest 1 1 2 [7; 3; 2; 5] 8.00)
                    (connect seed [])) _ H2). }
  split; [exact H3|].
  exact (proj1 (@rejection_is_explained (mkRequest 1 1 2 [8; 8] 8.00)
                  (connect seed [])) _ H3).
Defined.

(** * Two requests for the last unit *)

(** Requests handled one after the other: once a request that takes the
    last unit of a tracked ingredient has been answered 200, no later request
    with that ingredient is, as long as the unit is not given back. *)
Lemma last_unit_is_sold_once (first second : OrderRequest) (s s1 : Store)
    (id x : Z) (r : Ingredient) :
  post_orders first s = (Status200 id, s1) ->
  In x (req_ingredients first) ->
  find_ingredient (ingredients (live s)) x = Some r ->
  availability r = Some 1 ->
  In x (req_ingredients second) ->
  forall id2, fst (post_orders second s1) <> Status200 id2.
Proof.
  intros Hrun Hx Hr Ha Hx2 id2 Hrun2.
  destruct (accepted_checks first s Hrun) as (_ & _ & _ & _ & _ & Hnd).
  pose proof (post_orders_effect first s) as Heff. rewrite Hrun in Heff.
  destruct Heff as [_ Hl1].
  destruct (post_orders second s1) as [r2 s2] eqn:E. simpl in Hrun2. subst r2.
  destruct (accepted_checks second s1 E) as (_ & _ & Hstock & _).
  destruct (Hstock x Hx2) as (r' & Hr' & Hne).
  rewrite Hl1 in Hr'. unfold created, with_ingredients in Hr'. simpl in Hr'.
  rewrite reserve_all_rowwise in Hr'.
  rewrite (find_ingredient_map _ _ _ (reserve_row_all_id (req_ingredients first)))
    in Hr'.
  rewrite Hr in Hr'. simpl in Hr'. injection Hr' as <-.
  apply find_some in Hr as [_ Eid]. apply Z.eqb_eq in Eid.
  rewrite (@reserve_row_all_once (req_ingredients first) r 1 Hnd) in Hne;
    [|rewrite Eid; exact Hx | exact Ha | lia].
  apply Hne. reflexivity.
Qed.
